(** * Money-muling detector: the detection engine and its orchestration

    A shallow embedding of [detection.js] (buildGraph, detectCycles,
    detectFanPatterns, calculateSuspicion) and of the engine part of the
    [POST /analyze] handler of [server.js], followed by the properties
    proved about them.

    Modelling conventions.
    - A JavaScript object used as a string-keyed map is the list of its own
      properties in creation order ([JsObject]); [JsObject.get] reads an own
      property and gives [None] when there is none.
    - The engine is given twice.  The functions of the module [Js] follow
      the source as Node runs it: [o[k]] also finds the members that an
      object made by [{}] inherits from [Object.prototype], a call returns
      or throws, a count map may hold a text, and the variables of each
      invocation of [detectCycles] live in a frame of a store that the
      closure [dfs] reaches.  The functions outside [Js] are the same
      functions on own properties alone.  The two agree on every ledger
      none of whose ids is the name of a member of [Object.prototype], and
      on any other ledger the engine of [Js] throws ([analyze_plain],
      [analyze_thrown]); wherever the search of [Js] returns, it returns
      what the search on own properties does ([detectCycles_returned]).
    - [for (k in o)] visits the own keys in the order of the language
      definition: array indices in ascending numeric order, then the other
      keys in creation order ([JsObject.keys]).
    - A [Set] of strings is the list of its elements in insertion order.
    - JavaScript numbers that hold counts and scores are integers ([Z]).
    - Local mutable variables are threaded explicitly; the closure state of
      [detectCycles] ([rings], [ringCount]) is the record [CycleState].
    - The route is a function of the content of the uploaded file:
      [Js.post_analyze] is the route with the size limit of the upload and
      with the [catch] of the handler, [analyze_upload] is the [try] block
      on own properties.  The file system (the upload folder, the removal
      of the temporary file) is outside the model. *)

From Stdlib Require Import List String Ascii ZArith NArith Bool Lia.
From Stdlib Require Import Permutation Sorted QArith DecimalString.
Import ListNotations.

Open Scope string_scope.
Open Scope list_scope.
Open Scope Z_scope.

(* ------------------------------------------------------------------ *)
(** ** JavaScript values used by the engine *)

(** [arr.includes(x)] on an array of strings. *)
Definition includes (arr : list string) (x : string) : bool :=
  existsb (String.eqb x) arr.

(** [v >= n] where [v] may be [undefined]: the comparison is then false. *)
Definition js_ge (v : option Z) (n : Z) : bool :=
  match v with
  | Some x => n <=? x
  | None => false
  end.

(** [v || 0] on a count that may be [undefined]. *)
Definition js_or_zero (v : option Z) : Z :=
  match v with
  | Some x => x
  | None => 0
  end.

(** [s || d] on a string that may be [null]: the empty string is falsy. *)
Definition js_or_string (s : option string) (d : string) : string :=
  match s with
  | Some x => if String.eqb x "" then d else x
  | None => d
  end.

(** [String(n)] for a non-negative integer. *)
Definition js_String (n : nat) : string :=
  NilZero.string_of_uint (Nat.to_uint n).

Fixpoint repeat_string (c : string) (n : nat) : string :=
  match n with
  | O => ""
  | S n' => (c ++ repeat_string c n')%string
  end.

(** [s.padStart(len, "0")]. *)
Definition padStart (s : string) (len : nat) : string :=
  (repeat_string "0" (len - String.length s) ++ s)%string.

Module JsObject.

(** An array index in the sense of the language definition: the canonical
    decimal form of an integer below 2^32 - 1. *)
Definition digit_of (c : ascii) : option N :=
  let n := N_of_ascii c in
  if ((48 <=? n) && (n <=? 57))%N then Some (n - 48)%N else None.

Fixpoint digits_value (s : string) (acc : N) : option N :=
  match s with
  | EmptyString => Some acc
  | String c s' =>
      match digit_of c with
      | Some d => digits_value s' (10 * acc + d)%N
      | None => None
      end
  end.

Definition array_index (k : string) : option N :=
  match k with
  | EmptyString => None
  | String c rest =>
      if Ascii.eqb c "0"%char && negb (String.eqb rest "") then None
      else match digits_value k 0%N with
           | Some n => if (n <? 4294967295)%N then Some n else None
           | None => None
           end
  end.

Fixpoint insert_index (x : N * string) (l : list (N * string))
  : list (N * string) :=
  match l with
  | [] => [x]
  | y :: l' =>
      if (fst x <=? fst y)%N then x :: l else y :: insert_index x l'
  end.

Definition index_keys (ks : list string) : list (N * string) :=
  fold_right
    (fun k acc =>
       match array_index k with
       | Some n => insert_index (n, k) acc
       | None => acc
       end) [] ks.

Definition name_keys (ks : list string) : list string :=
  filter (fun k => match array_index k with
                   | Some _ => false
                   | None => true
                   end) ks.

Section Obj.
Context {V : Type}.

Definition t := list (string * V).

Definition empty : t := [].

(** The own property [k] of [o]: what [o[k]] gives when [k] is not the
    name of a member that [o] inherits. *)
Fixpoint get (o : t) (k : string) : option V :=
  match o with
  | [] => None
  | (k', v) :: o' => if String.eqb k' k then Some v else get o' k
  end.

(** [o[k] = v]: an existing property keeps its place, a new one is
    created after the others. *)
Fixpoint set (o : t) (k : string) (v : V) : t :=
  match o with
  | [] => [(k, v)]
  | (k', v') :: o' =>
      if String.eqb k' k then (k', v) :: o' else (k', v') :: set o' k v
  end.

Definition own_names (o : t) : list string := map fst o.

(** The keys in the order [for (k in o)] visits them. *)
Definition keys (o : t) : list string :=
  map snd (index_keys (own_names o)) ++ name_keys (own_names o).
End Obj.

Arguments t : clear implicits.

End JsObject.

Module JsSet.

Definition t := list string.

Definition empty : t := [].

Definition has (s : t) (x : string) : bool := existsb (String.eqb x) s.

(** [s.add(x)] *)
Definition add (s : t) (x : string) : t :=
  if has s x then s else s ++ [x].

Definition size (s : t) : Z := Z.of_nat (Datatypes.length s).

End JsSet.

(* ------------------------------------------------------------------ *)
(** ** Data model *)

Record Transaction := mkTx {
  sender_id : string;
  receiver_id : string
}.

Definition Graph := JsObject.t (list string).
Definition CountMap := JsObject.t Z.

Module Ring.
Record t := mk {
  ring_id : string;
  member_accounts : list string;
  pattern_type : string;
  risk_score : Z
}.
End Ring.

Module Suspicion.
Record t := mk {
  suspicion_score : Z;
  detected_patterns : list string;
  ring_id : string
}.
End Suspicion.

Module Flagged.
(** An entry of [suspicious_accounts]: [{ account_id: acc, ...result }]. *)
Record t := mk {
  account_id : string;
  suspicion_score : Z;
  detected_patterns : list string;
  ring_id : string
}.
End Flagged.

(* ------------------------------------------------------------------ *)
(** ** GRAPH BUILDING

    From here to the report, the engine on own properties: [o[k]] is
    [JsObject.get o k].  That is what the source does for every key that
    is not the name of a member of [Object.prototype]; the functions that
    follow the source for every key are in the module [Js] further down
    ([Js.buildGraph], [Js.detectCycles], [Js.detectFanPatterns],
    [Js.calculateSuspicion], [Js.analyze]). *)

(** [graph[k].push(x)]; callers make sure [graph[k]] exists. *)
Definition push_at (graph : Graph) (k x : string) : Graph :=
  match JsObject.get graph k with
  | Some arr => JsObject.set graph k (arr ++ [x])
  | None => graph
  end.

(** [velocityMap[k] = (velocityMap[k] || 0) + 1] on own properties; with
    the inherited members, [Js.bump]. *)
Definition bump (m : CountMap) (k : string) : CountMap :=
  JsObject.set m k (js_or_zero (JsObject.get m k) + 1).

(** The body of the [forEach] of [buildGraph] on own properties; with
    the inherited members, where [push] throws, [Js.buildGraph_step]. *)
Definition buildGraph_step (st : Graph * CountMap) (tx : Transaction)
  : Graph * CountMap :=
  let (graph, velocityMap) := st in
  let graph :=
    match JsObject.get graph (sender_id tx) with
    | None => JsObject.set graph (sender_id tx) []
    | Some _ => graph
    end in
  let graph := push_at graph (sender_id tx) (receiver_id tx) in
  let velocityMap := bump velocityMap (sender_id tx) in
  (graph, velocityMap).

(** Returns [{ graph, velocityMap }]. *)
Definition buildGraph (transactions : list Transaction) : Graph * CountMap :=
  fold_left buildGraph_step transactions (JsObject.empty, JsObject.empty).

(* ------------------------------------------------------------------ *)
(** ** CYCLE DETECTION *)

Record CycleState := mkCycleState {
  rings : list Ring.t;
  ringCount : nat
}.

Definition ring_name (n : nat) : string :=
  ("RING_" ++ padStart (js_String n) 3)%string.

(** The [rings.push({...})] of [dfs], with [ringCount++]. *)
Definition push_ring (st : CycleState) (path : list string) : CycleState :=
  {| rings := rings st ++
       [ {| Ring.ring_id := ring_name (ringCount st);
            Ring.member_accounts := path;
            Ring.pattern_type := "cycle";
            Ring.risk_score := 90 + Z.of_nat (Datatypes.length path) |} ];
     ringCount := S (ringCount st) |}.

(** The inner function [dfs(start, current, path, depth)] on own
    properties, with the variables [rings] and [ringCount] of its
    invocation passed along; with the inherited members, where the loop
    throws, and with the frames of all invocations, [Js.dfs].  The
    recursion of the source is on [depth], which grows up to 7; [fuel]
    bounds the number of nested calls and [None] means that it ran out. *)
Fixpoint dfs (fuel : nat) (graph : Graph) (start current : string)
    (path : list string) (depth : Z) (st : CycleState) : option CycleState :=
  match fuel with
  | O => None
  | S fuel' =>
      if 6 <? depth then Some st
      else
        match JsObject.get graph current with
        | None => Some st
        | Some neighbors =>
            fold_left
              (fun acc neighbor =>
                 match acc with
                 | None => None
                 | Some st =>
                     let st :=
                       if String.eqb neighbor start
                          && (3 <=? Datatypes.length path)%nat
                       then push_ring st path
                       else st in
                     if negb (includes path neighbor)
                     then dfs fuel' graph start neighbor
                            (path ++ [neighbor]) (depth + 1) st
                     else Some st
                 end)
              neighbors (Some st)
        end
  end.

(** Eight nested calls reach depth 7, where [dfs] returns at once. *)
Definition dfs_fuel : nat := 8.

Definition detectCycles_run (fuel : nat) (graph : Graph)
  : option CycleState :=
  fold_left
    (fun acc node =>
       match acc with
       | None => None
       | Some st => dfs fuel graph node node [node] 0 st
       end)
    (JsObject.keys graph)
    (Some {| rings := []; ringCount := 1 |}).

Definition detectCycles (graph : Graph) : list Ring.t :=
  match detectCycles_run dfs_fuel graph with
  | Some st => rings st
  | None => []
  end.

(* ------------------------------------------------------------------ *)
(** ** FAN-IN / FAN-OUT *)

Definition detectFanPatterns_step (st : CountMap * CountMap)
    (tx : Transaction) : CountMap * CountMap :=
  let (fanIn, fanOut) := st in
  let fanOut := bump fanOut (sender_id tx) in
  let fanIn := bump fanIn (receiver_id tx) in
  (fanIn, fanOut).

(** Returns [{ fanIn, fanOut }]. *)
Definition detectFanPatterns (transactions : list Transaction)
  : CountMap * CountMap :=
  fold_left detectFanPatterns_step transactions
    (JsObject.empty, JsObject.empty).

(* ------------------------------------------------------------------ *)
(** ** SUSPICION ENGINE *)

(** The locals [score], [patterns], [ringId] of [calculateSuspicion]. *)
Record Signals := mkSignals {
  score : Z;
  patterns : list string;
  ringId : option string
}.

(** [calculateSuspicion] up to, and not including, [Math.min]. *)
Definition suspicion_signals (account : string) (rings : list Ring.t)
    (fanIn fanOut velocityMap : CountMap) : Signals :=
  let s := {| score := 0; patterns := []; ringId := None |} in
  let ring :=
    find (fun r => includes (Ring.member_accounts r) account) rings in
  let s :=
    match ring with
    | Some r => {| score := score s + 50;
                   patterns := patterns s ++ ["cycle_network"];
                   ringId := Some (Ring.ring_id r) |}
    | None => s
    end in
  let s :=
    if js_ge (JsObject.get fanIn account) 5
    then {| score := score s + 20;
            patterns := patterns s ++ ["high_fan_in"];
            ringId := ringId s |}
    else s in
  let s :=
    if js_ge (JsObject.get fanOut account) 5
    then {| score := score s + 20;
            patterns := patterns s ++ ["high_fan_out"];
            ringId := ringId s |}
    else s in
  let s :=
    if js_ge (JsObject.get velocityMap account) 10
    then {| score := score s + 10;
            patterns := patterns s ++ ["high_velocity"];
            ringId := ringId s |}
    else s in
  s.

(** The end of [calculateSuspicion], from [if (score === 0)] on. *)
Definition suspicion_result (s : Signals) (score : Z) : option Suspicion.t :=
  if score =? 0 then None
  else Some {| Suspicion.suspicion_score := score;
               Suspicion.detected_patterns := patterns s;
               Suspicion.ring_id := js_or_string (ringId s) "N/A" |}.

Definition calculateSuspicion (account : string) (rings : list Ring.t)
    (fanIn fanOut velocityMap : CountMap) : option Suspicion.t :=
  let s := suspicion_signals account rings fanIn fanOut velocityMap in
  let score := Z.min 100 (score s) in
  suspicion_result s score.

(** The variant of [calculateSuspicion] without the line
    [score = Math.min(100, score)]. *)
Definition calculateSuspicion_noclamp (account : string)
    (rings : list Ring.t) (fanIn fanOut velocityMap : CountMap)
  : option Suspicion.t :=
  let s := suspicion_signals account rings fanIn fanOut velocityMap in
  suspicion_result s (score s).

(* ------------------------------------------------------------------ *)
(** ** The engine part of the [POST /analyze] handler *)

(** [arr.sort(cmp)]: the sort of the language definition is stable, and
    [cmp a b > 0] asks for [b] before [a].  Insertion from the right end
    keeps an element in front of the later ones it ties with. *)
Section Sort.
Context {A : Type} (cmp : A -> A -> Z).

Fixpoint sort_insert (x : A) (l : list A) : list A :=
  match l with
  | [] => [x]
  | y :: l' => if 0 <? cmp x y then y :: sort_insert x l' else x :: l
  end.

Definition js_sort (l : list A) : list A :=
  fold_right sort_insert [] l.
End Sort.

Record Summary := mkSummary {
  total_accounts_analyzed : Z;
  suspicious_accounts_flagged : Z;
  fraud_rings_detected : Z;
  processing_time_seconds : Q
}.

Record Response := mkResponse {
  suspicious_accounts : list Flagged.t;
  fraud_rings : list Ring.t;
  summary : Summary
}.

Definition collect_accounts (transactions : list Transaction) : JsSet.t :=
  fold_left
    (fun accounts tx =>
       JsSet.add (JsSet.add accounts (sender_id tx)) (receiver_id tx))
    transactions JsSet.empty.

(** The body of [accounts.forEach(acc => ...)]. *)
Definition flag_account (rings : list Ring.t)
    (fanIn fanOut velocityMap : CountMap)
    (suspicious : list Flagged.t) (acc : string) : list Flagged.t :=
  match calculateSuspicion acc rings fanIn fanOut velocityMap with
  | Some result =>
      suspicious ++
        [ {| Flagged.account_id := acc;
             Flagged.suspicion_score := Suspicion.suspicion_score result;
             Flagged.detected_patterns := Suspicion.detected_patterns result;
             Flagged.ring_id := Suspicion.ring_id result |} ]
  | None => suspicious
  end.

Definition by_score_desc (a b : Flagged.t) : Z :=
  Flagged.suspicion_score b - Flagged.suspicion_score a.

(** The handler from [buildGraph(transactions)] to the response;
    [startTime] and [endTime] are the two readings of [Date.now()]. *)
Definition analyze (startTime endTime : Z) (transactions : list Transaction)
  : Response :=
  let (graph, velocityMap) := buildGraph transactions in
  let rings := detectCycles graph in
  let (fanIn, fanOut) := detectFanPatterns transactions in
  let accounts := collect_accounts transactions in
  let suspicious_accounts :=
    fold_left (flag_account rings fanIn fanOut velocityMap) accounts [] in
  let suspicious_accounts := js_sort by_score_desc suspicious_accounts in
  {| suspicious_accounts := suspicious_accounts;
     fraud_rings := rings;
     summary :=
       {| total_accounts_analyzed := JsSet.size accounts;
          suspicious_accounts_flagged :=
            Z.of_nat (Datatypes.length suspicious_accounts);
          fraud_rings_detected := Z.of_nat (Datatypes.length rings);
          processing_time_seconds :=
            Qdiv (inject_Z (endTime - startTime)) (inject_Z 1000) |} |}.

(* ------------------------------------------------------------------ *)
(** ** CSV PARSER and the upload part of the [POST /analyze] handler

    Text is a [string] whose characters are UTF-16 code units below 256.
    Among them the language counts as white space (for [trim] and for [\s])
    TAB, LF, VT, FF, CR, SP and NBSP. *)

Definition is_space (c : ascii) : bool :=
  let n := N_of_ascii c in
  ((9 <=? n) && (n <=? 13) || (n =? 32) || (n =? 160))%N.

Fixpoint trimStart (s : string) : string :=
  match s with
  | EmptyString => EmptyString
  | String c s' => if is_space c then trimStart s' else s
  end.

Fixpoint trimEnd (s : string) : string :=
  match s with
  | EmptyString => EmptyString
  | String c s' =>
      match trimEnd s' with
      | EmptyString => if is_space c then EmptyString else String c EmptyString
      | t => String c t
      end
  end.

(** [s.trim()] *)
Definition trim (s : string) : string := trimEnd (trimStart s).

(** [s.toLowerCase()] on code units below 256: A-Z and the capital letters
    of Latin-1 (192-222 but the multiplication sign 215) move up by 32. *)
Definition lower_char (c : ascii) : ascii :=
  let n := N_of_ascii c in
  if ((65 <=? n) && (n <=? 90)
      || (192 <=? n) && (n <=? 222) && negb (n =? 215))%N
  then ascii_of_N (n + 32)
  else c.

Fixpoint toLowerCase (s : string) : string :=
  match s with
  | EmptyString => EmptyString
  | String c s' => String (lower_char c) (toLowerCase s')
  end.

(** [s.replace(/\s+/g, "_")]: [in_run] tells that the character before was
    white space, already replaced. *)
Fixpoint replace_spaces_from (in_run : bool) (s : string) : string :=
  match s with
  | EmptyString => EmptyString
  | String c s' =>
      if is_space c
      then if in_run then replace_spaces_from true s'
           else String "_"%char (replace_spaces_from true s')
      else String c (replace_spaces_from false s')
  end.

Definition replace_spaces (s : string) : string :=
  replace_spaces_from false s.

(** The piece in progress of a [split] gets one more character in front. *)
Definition cons_to_head (c : ascii) (pieces : list string) : list string :=
  match pieces with
  | [] => [String c EmptyString]
  | p :: ps => String c p :: ps
  end.

(** [s.split(sep)] for a separator of one character. *)
Fixpoint split_char (sep : ascii) (s : string) : list string :=
  match s with
  | EmptyString => [EmptyString]
  | String c s' =>
      if Ascii.eqb c sep then EmptyString :: split_char sep s'
      else cons_to_head c (split_char sep s')
  end.

(** [raw.split(/\r?\n/)] *)
Fixpoint split_lines (raw : string) : list string :=
  match raw with
  | EmptyString => [EmptyString]
  | String c rest =>
      if Ascii.eqb c "010"%char then EmptyString :: split_lines rest
      else
        match rest with
        | String c' rest' =>
            if Ascii.eqb c "013"%char && Ascii.eqb c' "010"%char
            then EmptyString :: split_lines rest'
            else cons_to_head c (split_lines rest)
        | EmptyString => cons_to_head c (split_lines rest)
        end
  end.

(** [arr.findIndex(f)]; [None] stands for -1. *)
Fixpoint findIndex {A : Type} (f : A -> bool) (l : list A) : option nat :=
  match l with
  | [] => None
  | x :: l' => if f x then Some O else option_map S (findIndex f l')
  end.

(** A string that may be [undefined] is truthy when it is there and not
    empty. *)
Definition truthy (v : option string) : bool :=
  match v with
  | Some s => negb (String.eqb s "")
  | None => false
  end.

Module Csv.
(** The locals [values], [current], [inQuotes] of [parseCsvLine]. *)
Record t := mk {
  values : list string;
  current : string;
  inQuotes : bool
}.
End Csv.

(** The [for] loop of [parseCsvLine] over the characters that are left;
    [line[i + 1]] is the character after the first of them. *)
Fixpoint parseCsvLine_loop (line : string) (st : Csv.t) : Csv.t :=
  match line with
  | EmptyString => st
  | String ch rest =>
      if Ascii.eqb ch "034"%char then
        match rest with
        | String next rest' =>
            if Csv.inQuotes st && Ascii.eqb next "034"%char
            then parseCsvLine_loop rest'
                   {| Csv.values := Csv.values st;
                      Csv.current :=
                        (Csv.current st ++ String "034"%char "")%string;
                      Csv.inQuotes := Csv.inQuotes st |}
            else parseCsvLine_loop rest
                   {| Csv.values := Csv.values st;
                      Csv.current := Csv.current st;
                      Csv.inQuotes := negb (Csv.inQuotes st) |}
        | EmptyString =>
            parseCsvLine_loop rest
              {| Csv.values := Csv.values st;
                 Csv.current := Csv.current st;
                 Csv.inQuotes := negb (Csv.inQuotes st) |}
        end
      else if Ascii.eqb ch ","%char && negb (Csv.inQuotes st) then
        parseCsvLine_loop rest
          {| Csv.values := Csv.values st ++ [trim (Csv.current st)];
             Csv.current := "";
             Csv.inQuotes := Csv.inQuotes st |}
      else
        parseCsvLine_loop rest
          {| Csv.values := Csv.values st;
             Csv.current := (Csv.current st ++ String ch "")%string;
             Csv.inQuotes := Csv.inQuotes st |}
  end.

Definition parseCsvLine (line : string) : list string :=
  let st :=
    parseCsvLine_loop line
      {| Csv.values := []; Csv.current := ""; Csv.inQuotes := false |} in
  Csv.values st ++ [trim (Csv.current st)].

Definition senderCols : list string :=
  ["sender_id"; "sender"; "from"; "source"].

Definition receiverCols : list string :=
  ["receiver_id"; "receiver"; "to"; "destination"].

(** The lines of the upload: split, trimmed, the empty ones dropped. *)
Definition upload_lines (raw : string) : list string :=
  filter (fun line => negb (String.eqb line ""))
    (map trim (split_lines raw)).

Definition normalize_header (h : string) : string :=
  replace_spaces (toLowerCase h).

(** A row object before the filter: a field is [undefined] when the row is
    too short. *)
Record RawTransaction := mkRaw {
  raw_sender_id : option string;
  raw_receiver_id : option string
}.

Definition row_object (senderIndex receiverIndex : nat) (row : string)
  : RawTransaction :=
  let values := parseCsvLine row in
  {| raw_sender_id := nth_error values senderIndex;
     raw_receiver_id := nth_error values receiverIndex |}.

Definition both_present (tx : RawTransaction) : bool :=
  truthy (raw_sender_id tx) && truthy (raw_receiver_id tx).

(** A row object that passed the filter, as the engine reads it. *)
Definition to_transaction (tx : RawTransaction) : Transaction :=
  {| sender_id := match raw_sender_id tx with Some s => s | None => "" end;
     receiver_id :=
       match raw_receiver_id tx with Some s => s | None => "" end |}.

Definition parse_rows (senderIndex receiverIndex : nat)
    (rows : list string) : list Transaction :=
  map to_transaction
    (filter both_present (map (row_object senderIndex receiverIndex) rows)).

(** What the handler answers: [res.status(400).json({ error })] or
    [res.json(body)]. *)
Inductive Reply :=
| Status400 (error : string)
| Status200 (body : Response).

(** The [try] block of the handler with the engine on own properties;
    [file] is the content of the uploaded file, [None] when the request has
    none.  The route as a whole, with the size limit of [upload.single] and
    with the [catch] that answers 500, is [Js.post_analyze] below; the two
    give the same answers 200 and 400 ([route_and_try_block]). *)
Definition analyze_upload (file : option string) (startTime endTime : Z)
  : Reply :=
  match file with
  | None => Status400 "No file uploaded. Use form field name 'file'."
  | Some raw =>
      let lines := upload_lines raw in
      if (Datatypes.length lines <? 2)%nat then
        Status400 "CSV must include header and at least one transaction row."
      else
        let headers := parseCsvLine (hd "" lines) in
        let normalizedHeaders := map normalize_header headers in
        let senderIndex :=
          findIndex (includes senderCols) normalizedHeaders in
        let receiverIndex :=
          findIndex (includes receiverCols) normalizedHeaders in
        match senderIndex, receiverIndex with
        | Some senderIndex, Some receiverIndex =>
            let transactions :=
              parse_rows senderIndex receiverIndex (tl lines) in
            if (Datatypes.length transactions =? 0)%nat then
              Status400 "No valid transactions found."
            else Status200 (analyze startTime endTime transactions)
        | _, _ =>
            Status400
              "CSV must contain sender and receiver columns (e.g. sender_id, receiver_id)."
        end
  end.

(* ------------------------------------------------------------------ *)
(** ** The engine as Node runs it: inherited members, exceptions, frames

    The objects of the engine are made by [{}], so [o[k]] also finds the
    members that every object inherits from [Object.prototype], and the
    variables [rings] and [ringCount] of an invocation of [detectCycles]
    live in a frame that the closure [dfs] reaches.  The definitions of
    this module follow the source with both; the definitions above are
    the same functions on own properties, and the two coincide on every
    ledger whose ids are not inherited names. *)

Module Js.

(** The members of [Object.prototype]. *)
Definition inherited_names : list string :=
  ["constructor"; "__defineGetter__"; "__defineSetter__"; "hasOwnProperty";
   "__lookupGetter__"; "__lookupSetter__"; "isPrototypeOf";
   "propertyIsEnumerable"; "toString"; "valueOf"; "__proto__";
   "toLocaleString"].

Definition inherited (k : string) : bool := includes inherited_names k.

(** What [o[k]] finds: an own property, an inherited member (a function,
    or for [__proto__] the prototype object: truthy, not a number, not an
    array) or nothing. *)
Inductive Property (V : Type) : Type :=
| Own (v : V)
| Inherited
| Absent.

Arguments Own {V} v.
Arguments Inherited {V}.
Arguments Absent {V}.

Definition read {V : Type} (o : JsObject.t V) (k : string) : Property V :=
  match JsObject.get o k with
  | Some v => Own v
  | None => if inherited k then Inherited else Absent
  end.

(** A call returns, or throws a [TypeError]. *)
Inductive Outcome (A : Type) : Type :=
| Returned (a : A)
| Thrown.

Arguments Returned {A} a.
Arguments Thrown {A}.

(** What a count map holds: a number, or the text that [+ 1] makes of an
    inherited member, such as [function Object() { [native code] }1]. *)
Inductive Count : Type :=
| Num (n : Z)
| Text.

Definition CountMap := JsObject.t Count.

(** [m[k] = (m[k] || 0) + 1].  A text or an inherited member is truthy and
    [+ 1] appends to its text; storing a text under [__proto__] is ignored
    by the setter of that name. *)
Definition bump (m : CountMap) (k : string) : CountMap :=
  match read m k with
  | Own (Num n) => JsObject.set m k (Num (n + 1))
  | Own Text => JsObject.set m k Text
  | Inherited => if String.eqb k "__proto__" then m else JsObject.set m k Text
  | Absent => JsObject.set m k (Num 1)
  end.

(** [v >= n] on what a count map gives: false unless [v] is a number. *)
Definition ge (v : Property Count) (n : Z) : bool :=
  match v with
  | Own (Num x) => n <=? x
  | _ => false
  end.

(** The body of the [forEach] of [buildGraph].  An inherited member under
    the sender's name is truthy, so no array is made, and it has no
    [push]. *)
Definition buildGraph_step (st : Graph * CountMap) (tx : Transaction)
  : Outcome (Graph * CountMap) :=
  let (graph, velocityMap) := st in
  let graph :=
    match read graph (sender_id tx) with
    | Absent => JsObject.set graph (sender_id tx) []
    | _ => graph
    end in
  match read graph (sender_id tx) with
  | Own arr =>
      let graph := JsObject.set graph (sender_id tx) (arr ++ [receiver_id tx]) in
      let velocityMap := bump velocityMap (sender_id tx) in
      Returned (graph, velocityMap)
  | _ => Thrown
  end.

Definition buildGraph (transactions : list Transaction)
  : Outcome (Graph * CountMap) :=
  fold_left
    (fun acc tx =>
       match acc with
       | Returned st => buildGraph_step st tx
       | Thrown => Thrown
       end)
    transactions (Returned (JsObject.empty, JsObject.empty)).

(** The frames of the invocations of [detectCycles] so far. *)
Definition Store := list CycleState.

Fixpoint store_set (store : Store) (frame : nat) (st : CycleState) : Store :=
  match store, frame with
  | [], _ => []
  | _ :: store', O => st :: store'
  | x :: store', S frame' => x :: store_set store' frame' st
  end.

(** [rings.push({...})] with [ringCount++], in the frame of the closure. *)
Definition push_ring_in (store : Store) (frame : nat) (path : list string)
  : Store :=
  match nth_error store frame with
  | Some st => store_set store frame (push_ring st path)
  | None => store
  end.

(** [dfs], the closure of the invocation whose variables are in [frame].
    An inherited member under the name of [current] is truthy and cannot
    be iterated. *)
Fixpoint dfs (fuel : nat) (graph : Graph) (frame : nat)
    (start current : string) (path : list string) (depth : Z)
    (store : Store) : option (Outcome Store) :=
  match fuel with
  | O => None
  | S fuel' =>
      if 6 <? depth then Some (Returned store)
      else
        match read graph current with
        | Absent => Some (Returned store)
        | Inherited => Some Thrown
        | Own neighbors =>
            fold_left
              (fun acc neighbor =>
                 match acc with
                 | Some (Returned store) =>
                     let store :=
                       if String.eqb neighbor start
                          && (3 <=? Datatypes.length path)%nat
                       then push_ring_in store frame path
                       else store in
                     if negb (includes path neighbor)
                     then dfs fuel' graph frame start neighbor
                            (path ++ [neighbor]) (depth + 1) store
                     else Some (Returned store)
                 | other => other
                 end)
              neighbors (Some (Returned store))
        end
  end.

(** [detectCycles]: a new frame with [rings = []] and [ringCount = 1], one
    search per key, and the [rings] of the frame as result. *)
Definition detectCycles_run (fuel : nat) (store : Store) (graph : Graph)
  : option (Outcome (list Ring.t * Store)) :=
  let frame := Datatypes.length store in
  let store := store ++ [ {| rings := []; ringCount := 1 |} ] in
  match
    fold_left
      (fun acc node =>
         match acc with
         | Some (Returned store) =>
             dfs fuel graph frame node node [node] 0 store
         | other => other
         end)
      (JsObject.keys graph) (Some (Returned store))
  with
  | Some (Returned store) =>
      match nth_error store frame with
      | Some st => Some (Returned (rings st, store))
      | None => None
      end
  | Some Thrown => Some Thrown
  | None => None
  end.

Definition detectCycles (store : Store) (graph : Graph)
  : Outcome (list Ring.t * Store) :=
  match detectCycles_run dfs_fuel store graph with
  | Some outcome => outcome
  | None => Thrown
  end.

Definition detectFanPatterns_step (st : CountMap * CountMap)
    (tx : Transaction) : CountMap * CountMap :=
  let (fanIn, fanOut) := st in
  let fanOut := bump fanOut (sender_id tx) in
  let fanIn := bump fanIn (receiver_id tx) in
  (fanIn, fanOut).

Definition detectFanPatterns (transactions : list Transaction)
  : CountMap * CountMap :=
  fold_left detectFanPatterns_step transactions
    (JsObject.empty, JsObject.empty).

(** [calculateSuspicion] up to, and not including, [Math.min]. *)
Definition suspicion_signals (account : string) (rings : list Ring.t)
    (fanIn fanOut velocityMap : CountMap) : Signals :=
  let s := {| score := 0; patterns := []; ringId := None |} in
  let ring :=
    find (fun r => includes (Ring.member_accounts r) account) rings in
  let s :=
    match ring with
    | Some r => {| score := score s + 50;
                   patterns := patterns s ++ ["cycle_network"];
                   ringId := Some (Ring.ring_id r) |}
    | None => s
    end in
  let s :=
    if ge (read fanIn account) 5
    then {| score := score s + 20;
            patterns := patterns s ++ ["high_fan_in"];
            ringId := ringId s |}
    else s in
  let s :=
    if ge (read fanOut account) 5
    then {| score := score s + 20;
            patterns := patterns s ++ ["high_fan_out"];
            ringId := ringId s |}
    else s in
  let s :=
    if ge (read velocityMap account) 10
    then {| score := score s + 10;
            patterns := patterns s ++ ["high_velocity"];
            ringId := ringId s |}
    else s in
  s.

Definition calculateSuspicion (account : string) (rings : list Ring.t)
    (fanIn fanOut velocityMap : CountMap) : option Suspicion.t :=
  let s := suspicion_signals account rings fanIn fanOut velocityMap in
  let score := Z.min 100 (score s) in
  suspicion_result s score.

(** The body of [accounts.forEach(acc => ...)]. *)
Definition flag_account (rings : list Ring.t)
    (fanIn fanOut velocityMap : CountMap)
    (suspicious : list Flagged.t) (acc : string) : list Flagged.t :=
  match calculateSuspicion acc rings fanIn fanOut velocityMap with
  | Some result =>
      suspicious ++
        [ {| Flagged.account_id := acc;
             Flagged.suspicion_score := Suspicion.suspicion_score result;
             Flagged.detected_patterns := Suspicion.detected_patterns result;
             Flagged.ring_id := Suspicion.ring_id result |} ]
  | None => suspicious
  end.

(** The handler from [buildGraph(transactions)] to the response, in a
    process whose store is [store]. *)
Definition analyze (store : Store) (startTime endTime : Z)
    (transactions : list Transaction) : Outcome (Response * Store) :=
  match buildGraph transactions with
  | Thrown => Thrown
  | Returned (graph, velocityMap) =>
      match detectCycles store graph with
      | Thrown => Thrown
      | Returned (rings, store) =>
          let (fanIn, fanOut) := detectFanPatterns transactions in
          let accounts := collect_accounts transactions in
          let suspicious_accounts :=
            fold_left (flag_account rings fanIn fanOut velocityMap)
              accounts [] in
          let suspicious_accounts :=
            js_sort by_score_desc suspicious_accounts in
          Returned
            ({| suspicious_accounts := suspicious_accounts;
                fraud_rings := rings;
                summary :=
                  {| total_accounts_analyzed := JsSet.size accounts;
                     suspicious_accounts_flagged :=
                       Z.of_nat (Datatypes.length suspicious_accounts);
                     fraud_rings_detected :=
                       Z.of_nat (Datatypes.length rings);
                     processing_time_seconds :=
                       Qdiv (inject_Z (endTime - startTime))
                         (inject_Z 1000) |} |},
             store)
      end
  end.

(** The size in bytes of a text of code units below 256 in the file that
    [readFileSync(path, "utf8")] reads it from. *)
Fixpoint utf8_size (s : string) : Z :=
  match s with
  | EmptyString => 0
  | String c s' => (if (N_of_ascii c <? 128)%N then 1 else 2) + utf8_size s'
  end.

(** [limits: { fileSize: 5 * 1024 * 1024 }].  The parser of the current
    [multer] refuses a file once its size reaches the limit; older ones
    accept a file of exactly that size. *)
Definition fileSize_limit : Z := 5 * 1024 * 1024.

(** What the route answers: [res.json(body)], [res.status(400)] or
    [res.status(500)] with an error text, or the answer 500 of the
    framework, without a text of the handler, when [upload.single] refuses
    the file. *)
Inductive Answer : Type :=
| Answer200 (body : Response)
| Answer400 (error : string)
| Answer500 (error : option string).

(** The route [POST /analyze]: [upload.single("file")], then the handler
    with its [try] and [catch]; [file] is the content of the uploaded
    file. *)
Definition post_analyze (store : Store) (file : option string)
    (startTime endTime : Z) : Answer * Store :=
  match file with
  | None => (Answer400 "No file uploaded. Use form field name 'file'.", store)
  | Some raw =>
      if fileSize_limit <=? utf8_size raw then (Answer500 None, store)
      else
        let lines := upload_lines raw in
        if (Datatypes.length lines <? 2)%nat then
          (Answer400
             "CSV must include header and at least one transaction row.",
           store)
        else
          let headers := parseCsvLine (hd "" lines) in
          let normalizedHeaders := map normalize_header headers in
          let senderIndex :=
            findIndex (includes senderCols) normalizedHeaders in
          let receiverIndex :=
            findIndex (includes receiverCols) normalizedHeaders in
          match senderIndex, receiverIndex with
          | Some senderIndex, Some receiverIndex =>
              let transactions :=
                parse_rows senderIndex receiverIndex (tl lines) in
              if (Datatypes.length transactions =? 0)%nat then
                (Answer400 "No valid transactions found.", store)
              else
                match analyze store startTime endTime transactions with
                | Returned (body, store) => (Answer200 body, store)
                | Thrown =>
                    (Answer500 (Some "Analysis failed. Check CSV format."),
                     store)
                end
          | _, _ =>
              (Answer400
                 "CSV must contain sender and receiver columns (e.g. sender_id, receiver_id).",
               store)
          end
  end.

End Js.


(* ------------------------------------------------------------------ *)
(** ** Vocabulary of the properties: counting *)

(** One [bump] per key, in order. *)
Definition tally (m : CountMap) (ks : list string) : CountMap :=
  fold_left bump ks m.

(** How many transactions list [a] as sender, as receiver. *)
Definition sent_by (a : string) (txs : list Transaction) : Z :=
  Z.of_nat (Datatypes.length
              (filter (fun tx => String.eqb (sender_id tx) a) txs)).

Definition received_by (a : string) (txs : list Transaction) : Z :=
  Z.of_nat (Datatypes.length
              (filter (fun tx => String.eqb (receiver_id tx) a) txs)).

Definition occurrences (a : string) (ks : list string) : Z :=
  Z.of_nat (Datatypes.length (filter (fun k => String.eqb k a) ks)).

(** The receivers of the transactions sent by [a], in ledger order. *)
Definition receivers_of (a : string) (txs : list Transaction)
  : list string :=
  map receiver_id (filter (fun tx => String.eqb (sender_id tx) a) txs).

(* ------------------------------------------------------------------ *)
(** ** Vocabulary of the properties: scoring *)

(** The account is a member of one of the rings. *)
Definition in_a_ring (account : string) (rings : list Ring.t) : bool :=
  existsb (fun r => includes (Ring.member_accounts r) account) rings.

(** [r] is the first ring of the list, in list order, with the account among
    its members. *)
Definition first_match (account : string) (rings : list Ring.t)
    (r : Ring.t) : Prop :=
  exists before after,
    rings = before ++ r :: after
    /\ In account (Ring.member_accounts r)
    /\ forall r', In r' before -> ~ In account (Ring.member_accounts r').

Definition points (b : bool) (n : Z) : Z := if b then n else 0.
Definition label (b : bool) (l : string) : list string :=
  if b then [l] else [].

(* ------------------------------------------------------------------ *)
(** ** Vocabulary of the properties: what [dfs] records *)

(** The paths that [dfs] records, in order, when it is entered at [current]
    with [levels] levels left before [depth] exceeds 6. *)
Fixpoint cycles_from (graph : Graph) (start : string) (levels : nat)
    (current : string) (path : list string) : list (list string) :=
  match levels with
  | O => []
  | S levels' =>
      match JsObject.get graph current with
      | None => []
      | Some neighbors =>
          flat_map
            (fun neighbor =>
               (if String.eqb neighbor start
                   && (3 <=? Datatypes.length path)%nat
                then [path] else [])
               ++ (if negb (includes path neighbor)
                   then cycles_from graph start levels' neighbor
                          (path ++ [neighbor])
                   else []))
            neighbors
      end
  end.

(** The searches of the outer loop, one per key. *)
Definition cycles_at (graph : Graph) (node : string) : list (list string) :=
  cycles_from graph node 7 node [node].

Definition all_cycles (graph : Graph) : list (list string) :=
  flat_map (cycles_at graph) (JsObject.keys graph).

Definition push_rings (st : CycleState) (ps : list (list string))
  : CycleState :=
  fold_left push_ring ps st.

(** Rings for the paths [ps], numbered from [n] on. *)
Fixpoint number_rings (n : nat) (ps : list (list string)) : list Ring.t :=
  match ps with
  | [] => []
  | p :: ps' =>
      {| Ring.ring_id := ring_name n;
         Ring.member_accounts := p;
         Ring.pattern_type := "cycle";
         Ring.risk_score := 90 + Z.of_nat (Datatypes.length p) |}
      :: number_rings (S n) ps'
  end.

(* ------------------------------------------------------------------ *)
(** ** Vocabulary of the properties: ranking and report *)

(** Non-increasing scores. *)
Definition score_ge (x y : Flagged.t) : Prop :=
  Flagged.suspicion_score y <= Flagged.suspicion_score x.

Definition has_score (v : Z) (e : Flagged.t) : bool :=
  Flagged.suspicion_score e =? v.

(** What [accounts.forEach] appends for one account. *)
Definition flagged_entry (rings : list Ring.t)
    (fanIn fanOut velocityMap : CountMap) (acc : string) : list Flagged.t :=
  flag_account rings fanIn fanOut velocityMap [] acc.

(** The entry that the handler makes of a result: [{ account_id: acc,
    ...result }]. *)
Definition entry_of (acc : string) (res : Suspicion.t) : Flagged.t :=
  {| Flagged.account_id := acc;
     Flagged.suspicion_score := Suspicion.suspicion_score res;
     Flagged.detected_patterns := Suspicion.detected_patterns res;
     Flagged.ring_id := Suspicion.ring_id res |}.

(* ------------------------------------------------------------------ *)
(** ** Ledgers used as examples *)

Definition ledger_triangle : list Transaction :=
  [mkTx "A" "B"; mkTx "B" "C"; mkTx "C" "A"].

Definition ledger_cycle7 : list Transaction :=
  [mkTx "a" "b"; mkTx "b" "c"; mkTx "c" "d"; mkTx "d" "e";
   mkTx "e" "f"; mkTx "f" "g"; mkTx "g" "a"].

Definition ledger_cycle8 : list Transaction :=
  [mkTx "a" "b"; mkTx "b" "c"; mkTx "c" "d"; mkTx "d" "e";
   mkTx "e" "f"; mkTx "f" "g"; mkTx "g" "h"; mkTx "h" "a"].

(** X is on a triangle, sends 10 transactions and receives 5. *)
Definition ledger_busy : list Transaction :=
  [mkTx "X" "Y"; mkTx "Y" "Z"; mkTx "Z" "X"]
  ++ repeat (mkTx "X" "Y") 9 ++ repeat (mkTx "Z" "X") 4.

Definition ring_of (id : string) (members : list string) : Ring.t :=
  {| Ring.ring_id := id;
     Ring.member_accounts := members;
     Ring.pattern_type := "cycle";
     Ring.risk_score := 90 + Z.of_nat (Datatypes.length members) |}.

(* ------------------------------------------------------------------ *)
(** ** Vocabulary of the properties: paths in the graph *)

(** The graph has an edge from [a] to [b]. *)
Definition edge (graph : Graph) (a b : string) : Prop :=
  exists neighbors,
    JsObject.get graph a = Some neighbors /\ In b neighbors.

(** Each account of [p] has an edge to the next one. *)
Fixpoint chain (graph : Graph) (p : list string) : Prop :=
  match p with
  | a :: rest =>
      match rest with
      | b :: _ => edge graph a b /\ chain graph rest
      | [] => True
      end
  | [] => True
  end.

(** [p] is a closed chain of 3 to 7 different accounts. *)
Definition simple_cycle (graph : Graph) (p : list string) : Prop :=
  NoDup p
  /\ (3 <= Datatypes.length p <= 7)%nat
  /\ chain graph p
  /\ edge graph (last p "") (hd "" p).

(** The sum of the counts of a map. *)
Fixpoint sum_counts (m : CountMap) : Z :=
  match m with
  | [] => 0
  | (_, n) :: m' => n + sum_counts m'
  end.

(** The number of edges of a graph. *)
Fixpoint count_edges (graph : Graph) : Z :=
  match graph with
  | [] => 0
  | (_, neighbors) :: graph' =>
      Z.of_nat (Datatypes.length neighbors) + count_edges graph'
  end.

(** The points of a pattern label. *)
Definition label_points (l : string) : Z :=
  if String.eqb l "cycle_network" then 50
  else if String.eqb l "high_fan_in" then 20
  else if String.eqb l "high_fan_out" then 20
  else if String.eqb l "high_velocity" then 10
  else 0.

Definition sum_points (labels : list string) : Z :=
  fold_right (fun l acc => label_points l + acc) 0 labels.

(* ------------------------------------------------------------------ *)
(** ** Vocabulary of the properties: CSV text *)

Definition LF : string := String "010"%char "".
Definition CRLF : string := String "013"%char (String "010"%char "").

(** No character of [s] satisfies [f]. *)
Fixpoint no_char (f : ascii -> bool) (s : string) : Prop :=
  match s with
  | EmptyString => True
  | String c s' => f c = false /\ no_char f s'
  end.

(** A field written between quotes, its own quotes doubled. *)
Fixpoint double_quotes (s : string) : string :=
  match s with
  | EmptyString => EmptyString
  | String c s' =>
      if Ascii.eqb c "034"%char
      then String c (String c (double_quotes s'))
      else String c (double_quotes s')
  end.

Definition quote_field (f : string) : string :=
  String "034"%char (double_quotes f ++ String "034"%char "")%string.

(** An id that needs no quoting: not empty, and free of white space, commas
    and quotes. *)
Definition plain_field (s : string) : Prop :=
  s <> ""
  /\ no_char (fun c => is_space c || Ascii.eqb c ","%char
                       || Ascii.eqb c "034"%char) s.

(** A ledger written as a CSV file with the header [sender_id,receiver_id]
    and one row per transaction, the lines joined by [eol]. *)
Definition csv_row (tx : Transaction) : string :=
  (sender_id tx ++ "," ++ receiver_id tx)%string.

Definition csv_of_ledger (eol : string) (txs : list Transaction) : string :=
  String.concat eol ("sender_id,receiver_id" :: map csv_row txs).

(** The piece in progress comes after what is already in [current]. *)
Definition after_current (cur : string) (pieces : list string)
  : list string :=
  match pieces with
  | [] => [cur]
  | p :: ps => (cur ++ p)%string :: ps
  end.

Definition csv_result (st : Csv.t) : list string :=
  Csv.values st ++ [trim (Csv.current st)].

(** The pieces of [split(/\r?\n/)] and of [split("\n")] differ by a CR at
    the end of a piece. *)
Definition up_to_cr (p q : string) : Prop :=
  q = p \/ q = (p ++ String "013"%char "")%string.

(* ------------------------------------------------------------------ *)
(** ** Vocabulary of the properties: ids and inherited names *)

(** A map of numbers, as a count map of the engine holds it. *)
Definition numbers (m : CountMap) : Js.CountMap :=
  map (fun kv => (fst kv, Js.Num (snd kv))) m.

(** No sender, no receiver, no id of the ledger is the name of a member of
    [Object.prototype]. *)
Definition plain_senders (txs : list Transaction) : Prop :=
  Forall (fun tx => Js.inherited (sender_id tx) = false) txs.

Definition plain_receivers (txs : list Transaction) : Prop :=
  Forall (fun tx => Js.inherited (receiver_id tx) = false) txs.

Definition plain_ledger (txs : list Transaction) : Prop :=
  plain_senders txs /\ plain_receivers txs.

(** No neighbour in the graph is the name of a member of
    [Object.prototype]. *)
Definition safe_graph (graph : Graph) : Prop :=
  forall k neighbors n,
    JsObject.get graph k = Some neighbors -> In n neighbors ->
    Js.inherited n = false.

(** The frame that an invocation of [detectCycles] leaves in the store. *)
Definition frame_left (graph : Graph) : CycleState :=
  push_rings {| rings := []; ringCount := 1 |} (all_cycles graph).

(** What a run of the engine gives, without the clock and the store: the
    two lists and the three counts, or the exception. *)
Definition engine_output (run : Js.Outcome (Response * Js.Store))
  : Js.Outcome (list Flagged.t * list Ring.t * (Z * Z * Z)) :=
  match run with
  | Js.Returned (response, _) =>
      Js.Returned
        (suspicious_accounts response, fraud_rings response,
         (total_accounts_analyzed (summary response),
          suspicious_accounts_flagged (summary response),
          fraud_rings_detected (summary response)))
  | Js.Thrown => Js.Thrown
  end.

(** Two searches, each in its own store and frame, end alike: both throw,
    or both return with the same variables in their frames. *)
Definition alike (store1 : Js.Store) (frame1 : nat)
    (store2 : Js.Store) (frame2 : nat)
    (o1 o2 : option (Js.Outcome Js.Store)) : Prop :=
  match o1, o2 with
  | None, None => True
  | Some Js.Thrown, Some Js.Thrown => True
  | Some (Js.Returned s1), Some (Js.Returned s2) =>
      exists st, s1 = Js.store_set store1 frame1 st
                 /\ s2 = Js.store_set store2 frame2 st
  | _, _ => False
  end.

(** The store version of a search result of the version on own
    properties. *)
Definition in_frame (store : Js.Store) (frame : nat)
    (o : option CycleState) : option (Js.Outcome Js.Store) :=
  match o with
  | Some st => Some (Js.Returned (Js.store_set store frame st))
  | None => None
  end.

(** The step of the loop over the neighbours, in both versions. *)
Definition neighbor_step_js (graph : Graph) (fuel : nat) (frame : nat) (start : string)
    (path : list string) (depth : Z)
    (acc : option (Js.Outcome Js.Store)) (neighbor : string)
  : option (Js.Outcome Js.Store) :=
  match acc with
  | Some (Js.Returned store) =>
      let store :=
        if String.eqb neighbor start && (3 <=? Datatypes.length path)%nat
        then Js.push_ring_in store frame path
        else store in
      if negb (includes path neighbor)
      then Js.dfs fuel graph frame start neighbor
             (path ++ [neighbor]) (depth + 1) store
      else Some (Js.Returned store)
  | other => other
  end.

Definition neighbor_step (graph : Graph) (fuel : nat) (start : string)
    (path : list string) (depth : Z)
    (acc : option CycleState) (neighbor : string) : option CycleState :=
  match acc with
  | None => None
  | Some st =>
      let st :=
        if String.eqb neighbor start && (3 <=? Datatypes.length path)%nat
        then push_ring st path
        else st in
      if negb (includes path neighbor)
      then dfs fuel graph start neighbor (path ++ [neighbor]) (depth + 1) st
      else Some st
  end.

(** The sum of the counts of a map, when all of them are numbers. *)
Fixpoint total_count (m : Js.CountMap) : option Z :=
  match m with
  | [] => Some 0
  | (_, Js.Num n) :: m' => option_map (Z.add n) (total_count m')
  | (_, Js.Text) :: _ => None
  end.

(* ------------------------------------------------------------------ *)
(** ** Objects: reading, writing, key order *)

Module JsObjectFacts.
Import JsObject.

Section Facts.
Context {V : Type}.
Implicit Types (o : JsObject.t V) (k : string) (v : V).

Lemma get_set_same o k v : get (set o k v) k = Some v.
Proof.
  induction o as [|[k' v'] o IH]; simpl.
  - now rewrite String.eqb_refl.
  - destruct (String.eqb k' k) eqn:E; simpl; rewrite E; auto.
Qed.

Lemma get_set_other o k k' v :
  k <> k' -> get (set o k v) k' = get o k'.
Proof.
  intros Hne. induction o as [|[k0 v0] o IH]; simpl.
  - destruct (String.eqb_spec k k'); congruence.
  - destruct (String.eqb_spec k0 k) as [->|Hk]; simpl.
    + destruct (String.eqb_spec k k'); congruence.
    + now rewrite IH.
Qed.

Lemma get_In_names o k v : get o k = Some v -> In k (own_names o).
Proof.
  induction o as [|[k0 v0] o IH]; simpl; [discriminate|].
  destruct (String.eqb_spec k0 k); auto.
Qed.
End Facts.

Lemma insert_index_perm x l : Permutation (insert_index x l) (x :: l).
Proof.
  induction l as [|y l IH]; simpl; auto.
  destruct (fst x <=? fst y)%N; auto.
  rewrite IH. apply perm_swap.
Qed.

Lemma index_name_keys_perm ks :
  Permutation (map snd (index_keys ks) ++ name_keys ks) ks.
Proof.
  induction ks as [|k ks IH]; simpl; auto.
  destruct (array_index k) as [n|].
  - rewrite (Permutation_map snd (insert_index_perm (n, k) _)).
    simpl. now constructor.
  - rewrite <- Permutation_middle. now constructor.
Qed.

(** [for (k in o)] visits every own key once: the visiting order is a
    rearrangement of the creation order. *)
Lemma keys_perm {V} (o : JsObject.t V) :
  Permutation (keys o) (own_names o).
Proof. apply index_name_keys_perm. Qed.

End JsObjectFacts.

(* ------------------------------------------------------------------ *)
(** ** The counting passes *)

Section Counting.
Import JsObject JsObjectFacts.

Lemma buildGraph_velocity txs : forall g v,
  snd (fold_left buildGraph_step txs (g, v)) = tally v (map sender_id txs).
Proof.
  induction txs as [|tx txs IH]; intros g v; simpl; auto.
Qed.

Lemma detectFanPatterns_fanOut txs : forall fi fo,
  snd (fold_left detectFanPatterns_step txs (fi, fo))
  = tally fo (map sender_id txs).
Proof.
  induction txs as [|tx txs IH]; intros fi fo; simpl; auto.
Qed.

Lemma detectFanPatterns_fanIn txs : forall fi fo,
  fst (fold_left detectFanPatterns_step txs (fi, fo))
  = tally fi (map receiver_id txs).
Proof.
  induction txs as [|tx txs IH]; intros fi fo; simpl; auto.
Qed.

Lemma occurrences_cons_same a ks :
  occurrences a (a :: ks) = 1 + occurrences a ks.
Proof.
  unfold occurrences. cbn [filter]. rewrite String.eqb_refl.
  cbn [Datatypes.length]. lia.
Qed.

Lemma occurrences_cons_other a k ks :
  k <> a -> occurrences a (k :: ks) = occurrences a ks.
Proof.
  intros Hne. unfold occurrences. cbn [filter].
  destruct (String.eqb_spec k a); congruence.
Qed.

Lemma occurrences_nonneg a ks : 0 <= occurrences a ks.
Proof. unfold occurrences. lia. Qed.

Lemma get_tally ks : forall m a,
  get (tally m ks) a
  = if occurrences a ks =? 0 then get m a
    else Some (js_or_zero (get m a) + occurrences a ks).
Proof.
  induction ks as [|k ks IH]; intros m a; [reflexivity|].
  change (tally m (k :: ks)) with (tally (bump m k) ks).
  rewrite IH. pose proof (occurrences_nonneg a ks) as Hpos.
  destruct (String.eqb_spec k a) as [->|Hne].
  - rewrite occurrences_cons_same. unfold bump. rewrite get_set_same.
    destruct (Z.eqb_spec (occurrences a ks) 0) as [E|E];
      destruct (Z.eqb_spec (1 + occurrences a ks) 0); try lia.
    + rewrite E. reflexivity.
    + cbn [js_or_zero]. f_equal. lia.
  - rewrite occurrences_cons_other by assumption.
    unfold bump. now rewrite get_set_other.
Qed.

Lemma occurrences_senders a txs :
  occurrences a (map sender_id txs) = sent_by a txs.
Proof.
  unfold occurrences, sent_by.
  induction txs as [|tx txs IH]; cbn [map filter]; auto.
  destruct (String.eqb (sender_id tx) a); cbn [Datatypes.length]; lia.
Qed.

Lemma occurrences_receivers a txs :
  occurrences a (map receiver_id txs) = received_by a txs.
Proof.
  unfold occurrences, received_by.
  induction txs as [|tx txs IH]; cbn [map filter]; auto.
  destruct (String.eqb (receiver_id tx) a); cbn [Datatypes.length]; lia.
Qed.

Lemma get_count (n : Z) :
  (if n =? 0 then @None Z else Some (js_or_zero None + n))
  = if n =? 0 then None else Some n.
Proof. destruct (n =? 0); reflexivity. Qed.

(** FanIn counts the transactions received. *)
Lemma fanIn_counts txs a :
  get (fst (detectFanPatterns txs)) a
  = if received_by a txs =? 0 then None else Some (received_by a txs).
Proof.
  unfold detectFanPatterns. rewrite detectFanPatterns_fanIn, get_tally.
  rewrite occurrences_receivers. apply get_count.
Qed.

(** On own properties.  The FanOut mapping of [detectFanPatterns] and the velocity map of
    [buildGraph] are the same object contents (same keys in the same
    order, same counts), and both map an account to the number of
    transactions that list it as sender (accounts that never send have no
    entry). *)
Lemma fanOut_velocity_own (txs : list Transaction) :
  snd (detectFanPatterns txs) = snd (buildGraph txs)
  /\ forall a,
       get (snd (buildGraph txs)) a
         = (if sent_by a txs =? 0 then None else Some (sent_by a txs))
       /\ get (snd (detectFanPatterns txs)) a
         = (if sent_by a txs =? 0 then None else Some (sent_by a txs)).
Proof.
  assert (E : snd (detectFanPatterns txs) = snd (buildGraph txs)).
  { unfold detectFanPatterns, buildGraph.
    now rewrite detectFanPatterns_fanOut, buildGraph_velocity. }
  split; [exact E|]. intro a. rewrite E.
  assert (G : get (snd (buildGraph txs)) a
              = if sent_by a txs =? 0 then None else Some (sent_by a txs)).
  { unfold buildGraph. rewrite buildGraph_velocity, get_tally.
    rewrite occurrences_senders. apply get_count. }
  now split.
Qed.

End Counting.

(* ------------------------------------------------------------------ *)
(** ** The scoring rule *)

Section Scoring.
Import JsObject.

Lemma includes_In arr x : includes arr x = true <-> In x arr.
Proof.
  unfold includes. rewrite existsb_exists. split.
  - intros (y & Hy & E). apply String.eqb_eq in E. now subst.
  - intros H. exists x. split; auto. apply String.eqb_refl.
Qed.

Lemma includes_false arr x : includes arr x = false <-> ~ In x arr.
Proof.
  rewrite <- includes_In. destruct (includes arr x); split; congruence.
Qed.

Lemma in_a_ring_spec account rings :
  in_a_ring account rings = true
  <-> exists r, In r rings /\ In account (Ring.member_accounts r).
Proof.
  unfold in_a_ring. rewrite existsb_exists.
  split; intros (r & Hr & H); exists r; split; auto;
    now apply includes_In.
Qed.

Lemma js_ge_spec v n :
  js_ge v n = true <-> exists x, v = Some x /\ n <= x.
Proof.
  destruct v as [x|]; simpl.
  - rewrite Z.leb_le. split; [intros; exists x; auto|].
    intros (y & E & H). now inversion E; subst.
  - split; [discriminate|]. now intros (y & E & _).
Qed.

Lemma find_in_a_ring account rings :
  in_a_ring account rings
  = match find (fun r => includes (Ring.member_accounts r) account) rings
    with Some _ => true | None => false end.
Proof.
  unfold in_a_ring. induction rings as [|r rings IH]; simpl; auto.
  destruct (includes (Ring.member_accounts r) account); simpl; auto.
Qed.

Lemma find_first_match account rings r :
  first_match account rings r ->
  find (fun r => includes (Ring.member_accounts r) account) rings = Some r.
Proof.
  intros (before & after & -> & Hin & Hnot).
  induction before as [|b before IH]; simpl.
  - apply includes_In in Hin. now rewrite Hin.
  - assert (E : includes (Ring.member_accounts b) account = false).
    { apply includes_false. apply Hnot. now left. }
    rewrite E. apply IH. intros r' Hr'. apply Hnot. now right.
Qed.

Section Signals.
Variables (account : string) (rings : list Ring.t).
Variables (fanIn fanOut velocityMap : CountMap).

Let s := suspicion_signals account rings fanIn fanOut velocityMap.
Let cyc := in_a_ring account rings.
Let fin := js_ge (get fanIn account) 5.
Let fout := js_ge (get fanOut account) 5.
Let vel := js_ge (get velocityMap account) 10.

Lemma signals_score :
  score s = points cyc 50 + points fin 20 + points fout 20 + points vel 10.
Proof.
  subst s cyc fin fout vel. unfold suspicion_signals.
  rewrite find_in_a_ring.
  destruct (find _ rings);
    destruct (js_ge (get fanIn account) 5);
    destruct (js_ge (get fanOut account) 5);
    destruct (js_ge (get velocityMap account) 10); reflexivity.
Qed.

Lemma signals_patterns :
  patterns s
  = label cyc "cycle_network" ++ label fin "high_fan_in"
    ++ label fout "high_fan_out" ++ label vel "high_velocity".
Proof.
  subst s cyc fin fout vel. unfold suspicion_signals.
  rewrite find_in_a_ring.
  destruct (find _ rings);
    destruct (js_ge (get fanIn account) 5);
    destruct (js_ge (get fanOut account) 5);
    destruct (js_ge (get velocityMap account) 10); reflexivity.
Qed.

Lemma signals_ringId :
  ringId s
  = option_map Ring.ring_id
      (find (fun r => includes (Ring.member_accounts r) account) rings).
Proof.
  subst s. unfold suspicion_signals.
  destruct (find _ rings);
    destruct (js_ge (get fanIn account) 5);
    destruct (js_ge (get fanOut account) 5);
    destruct (js_ge (get velocityMap account) 10); reflexivity.
Qed.

Lemma signals_score_range : 0 <= score s <= 100.
Proof.
  rewrite signals_score.
  destruct cyc, fin, fout, vel; unfold points; lia.
Qed.
End Signals.

(** C1. [calculateSuspicion] adds 50 for membership in a ring, 20 for
    FanIn >= 5, 20 for FanOut >= 5 and 10 for velocity >= 10, with the
    labels cycle_network, high_fan_in, high_fan_out, high_velocity in that
    order.  A sum of 0 gives no result; otherwise the score is
    min(100, sum), the ring id is N/A when no ring matches, and it is the
    id of the first matching ring in list order (ring ids are non-empty
    strings). *)
Theorem calculateSuspicion_rule
    (account : string) (rings : list Ring.t)
    (fanIn fanOut velocityMap : CountMap) :
  let cyc := in_a_ring account rings in
  let fin := js_ge (get fanIn account) 5 in
  let fout := js_ge (get fanOut account) 5 in
  let vel := js_ge (get velocityMap account) 10 in
  let sum :=
    points cyc 50 + points fin 20 + points fout 20 + points vel 10 in
  (sum = 0 ->
     calculateSuspicion account rings fanIn fanOut velocityMap = None)
  /\ (sum <> 0 ->
      exists res,
        calculateSuspicion account rings fanIn fanOut velocityMap
          = Some res
        /\ Suspicion.suspicion_score res = Z.min 100 sum
        /\ Suspicion.detected_patterns res
           = label cyc "cycle_network" ++ label fin "high_fan_in"
             ++ label fout "high_fan_out" ++ label vel "high_velocity"
        /\ (cyc = false -> Suspicion.ring_id res = "N/A")
        /\ (forall r, first_match account rings r ->
              Ring.ring_id r <> "" ->
              Suspicion.ring_id res = Ring.ring_id r)).
Proof.
  intros cyc fin fout vel sum.
  pose proof (signals_score account rings fanIn fanOut velocityMap) as Hs.
  pose proof (signals_patterns account rings fanIn fanOut velocityMap) as Hp.
  pose proof (signals_ringId account rings fanIn fanOut velocityMap) as Hr.
  fold cyc fin fout vel in Hs, Hp. fold sum in Hs.
  unfold calculateSuspicion, suspicion_result. rewrite Hs.
  split.
  - intros ->. reflexivity.
  - intros Hne.
    assert (Hrange : 0 <= sum <= 100).
    { subst sum. destruct cyc, fin, fout, vel; unfold points; lia. }
    destruct (Z.eqb_spec (Z.min 100 sum) 0) as [E|E]; [lia|].
    eexists. split; [reflexivity|]. cbn [Suspicion.suspicion_score
      Suspicion.detected_patterns Suspicion.ring_id].
    repeat split; auto.
    + intros Hc. rewrite Hr. subst cyc. rewrite find_in_a_ring in Hc.
      destruct (find _ rings); [discriminate|reflexivity].
    + intros r Hfirst Hid. rewrite Hr, (find_first_match _ _ _ Hfirst).
      cbn [option_map js_or_string].
      destruct (String.eqb_spec (Ring.ring_id r) ""); congruence.
Qed.

(** C10. The clamp never changes the score: on every input the sum is at
    most 50 + 20 + 20 + 10 = 100, so [Math.min(100, score)] returns [score]
    and [calculateSuspicion] agrees with the variant that has no clamp; the
    sum 100 is reached by an account with all four signals. *)
Theorem clamp_is_noop :
  (forall (account : string) (rings : list Ring.t)
          (fanIn fanOut velocityMap : CountMap),
      let s := suspicion_signals account rings fanIn fanOut velocityMap in
      score s <= 100
      /\ Z.min 100 (score s) = score s
      /\ calculateSuspicion account rings fanIn fanOut velocityMap
         = calculateSuspicion_noclamp account rings fanIn fanOut velocityMap)
  /\ exists (account : string) (rings : list Ring.t)
            (fanIn fanOut velocityMap : CountMap),
       score (suspicion_signals account rings fanIn fanOut velocityMap)
       = 50 + 20 + 20 + 10.
Proof.
  split.
  - intros account rings fanIn fanOut velocityMap s.
    pose proof (signals_score_range account rings fanIn fanOut velocityMap)
      as H.
    fold s in H.
    assert (E : Z.min 100 (score s) = score s) by lia.
    repeat split; [lia|exact E|].
    unfold calculateSuspicion, calculateSuspicion_noclamp.
    cbv zeta. fold s. now rewrite E.
  - exists "A", [ring_of "RING_001" ["A"; "B"; "C"]],
      [("A", 5)], [("A", 10)], [("A", 10)].
    reflexivity.
Qed.

(** C7 (amended). For an account that is a member of some ring and has
    FanOut >= 5 and velocity >= 10, the score is 80 when FanIn is below 5
    or absent, and 100 when FanIn >= 5. *)
Theorem ring_fanout_velocity_score
    (account : string) (rings : list Ring.t)
    (fanIn fanOut velocityMap : CountMap)
    (Hring : exists r, In r rings /\ In account (Ring.member_accounts r))
    (Hout : exists n, get fanOut account = Some n /\ 5 <= n)
    (Hvel : exists n, get velocityMap account = Some n /\ 10 <= n) :
  exists res,
    calculateSuspicion account rings fanIn fanOut velocityMap = Some res
    /\ Suspicion.suspicion_score res
       = if js_ge (get fanIn account) 5 then 100 else 80.
Proof.
  apply in_a_ring_spec in Hring. apply js_ge_spec in Hout, Hvel.
  pose proof (signals_score account rings fanIn fanOut velocityMap) as Hs.
  rewrite Hring, Hout, Hvel in Hs.
  unfold calculateSuspicion, suspicion_result. rewrite Hs.
  destruct (js_ge (get fanIn account) 5); cbn; eexists; split;
    reflexivity.
Qed.

End Scoring.

(* ------------------------------------------------------------------ *)
(** ** Cycle detection: what [dfs] records *)

Section Cycles.
Import JsObject.

Lemma push_rings_app st ps qs :
  push_rings st (ps ++ qs) = push_rings (push_rings st ps) qs.
Proof. apply fold_left_app. Qed.

Lemma push_rings_rings ps : forall st,
  rings (push_rings st ps) = rings st ++ number_rings (ringCount st) ps.
Proof.
  induction ps as [|p ps IH]; intros st; simpl.
  - now rewrite app_nil_r.
  - change (fold_left push_ring ps (push_ring st p))
      with (push_rings (push_ring st p) ps).
    rewrite IH. simpl. now rewrite <- app_assoc.
Qed.

Lemma push_rings_count ps : forall st,
  ringCount (push_rings st ps) = (ringCount st + Datatypes.length ps)%nat.
Proof.
  induction ps as [|p ps IH]; intros st; simpl; [lia|].
  change (fold_left push_ring ps (push_ring st p))
    with (push_rings (push_ring st p) ps).
  rewrite IH. simpl. lia.
Qed.

(** With enough fuel, [dfs] returns, and it has pushed one ring per path
    of [cycles_from]. *)
Lemma dfs_cycles_from graph start : forall levels fuel current path depth st,
  depth = 7 - Z.of_nat levels ->
  (levels < fuel)%nat ->
  dfs fuel graph start current path depth st
  = Some (push_rings st (cycles_from graph start levels current path)).
Proof.
  induction levels as [|levels IH]; intros fuel current path depth st Hd Hf.
  - destruct fuel as [|fuel]; [lia|]. simpl.
    destruct (Z.ltb_spec 6 depth); [reflexivity|lia].
  - destruct fuel as [|fuel]; [lia|]. cbn [dfs cycles_from].
    destruct (Z.ltb_spec 6 depth); [lia|].
    destruct (get graph current) as [neighbors|]; [|reflexivity].
    clear - IH Hd Hf. revert st.
    induction neighbors as [|n neighbors IHn]; intros st; [reflexivity|].
    cbn [fold_left flat_map]. rewrite push_rings_app.
    rewrite <- IHn. f_equal. rewrite push_rings_app.
    destruct (String.eqb n start && (3 <=? Datatypes.length path)%nat);
      destruct (negb (includes path n)); cbn [push_rings fold_left];
      try reflexivity; apply IH; lia.
Qed.

Lemma detectCycles_run_all graph :
  detectCycles_run dfs_fuel graph
  = Some (push_rings {| rings := []; ringCount := 1 |} (all_cycles graph)).
Proof.
  unfold detectCycles_run, all_cycles.
  generalize {| rings := []; ringCount := 1 |}.
  induction (keys graph) as [|node ks IH]; intros st; [reflexivity|].
  cbn [fold_left flat_map]. rewrite push_rings_app, <- IH. f_equal.
  apply dfs_cycles_from; unfold dfs_fuel; lia.
Qed.

(** [detectCycles] never runs out of fuel. *)
Lemma detectCycles_run_total graph :
  exists st, detectCycles_run dfs_fuel graph = Some st
             /\ detectCycles graph = rings st.
Proof.
  unfold detectCycles. rewrite detectCycles_run_all. eauto.
Qed.

(** More fuel changes nothing. *)
Lemma detectCycles_run_fuel graph fuel :
  (dfs_fuel <= fuel)%nat ->
  detectCycles_run fuel graph = detectCycles_run dfs_fuel graph.
Proof.
  intros Hf. rewrite detectCycles_run_all.
  unfold detectCycles_run, all_cycles.
  generalize {| rings := []; ringCount := 1 |}.
  induction (keys graph) as [|node ks IH]; intros st; [reflexivity|].
  cbn [fold_left flat_map]. rewrite push_rings_app, <- IH. f_equal.
  apply dfs_cycles_from; unfold dfs_fuel in Hf; lia.
Qed.

Lemma detectCycles_number graph :
  detectCycles graph = number_rings 1 (all_cycles graph).
Proof.
  unfold detectCycles. rewrite detectCycles_run_all, push_rings_rings.
  reflexivity.
Qed.

Lemma number_rings_members ps : forall n,
  map Ring.member_accounts (number_rings n ps) = ps.
Proof. induction ps; intros n; simpl; f_equal; auto. Qed.

Lemma number_rings_ids ps : forall n,
  map Ring.ring_id (number_rings n ps)
  = map ring_name (seq n (Datatypes.length ps)).
Proof. induction ps; intros n; simpl; f_equal; auto. Qed.

Lemma number_rings_length ps : forall n,
  Datatypes.length (number_rings n ps) = Datatypes.length ps.
Proof. induction ps; intros n; simpl; f_equal; auto. Qed.

Lemma number_rings_Forall (P : Ring.t -> Prop) ps : forall n,
  (forall k p, In p ps ->
     P {| Ring.ring_id := ring_name k;
          Ring.member_accounts := p;
          Ring.pattern_type := "cycle";
          Ring.risk_score := 90 + Z.of_nat (Datatypes.length p) |}) ->
  Forall P (number_rings n ps).
Proof.
  induction ps as [|p ps IH]; intros n H; simpl; constructor.
  - apply H. now left.
  - apply IH. intros k q Hq. apply H. now right.
Qed.

(** Every recorded path extends the path [dfs] was entered with, has no
    repeated account, at least 3 accounts, and fewer accounts than the
    entry path has plus the levels left. *)
Lemma cycles_from_inv graph start : forall levels current path p,
  In p (cycles_from graph start levels current path) ->
  NoDup path ->
  (exists more, p = path ++ more)
  /\ NoDup p
  /\ (3 <= Datatypes.length p)%nat
  /\ (Datatypes.length p < Datatypes.length path + levels)%nat.
Proof.
  induction levels as [|levels IH]; intros current path p Hin Hnd;
    [contradiction|].
  cbn [cycles_from] in Hin.
  destruct (get graph current) as [neighbors|]; [|contradiction].
  apply in_flat_map in Hin. destruct Hin as (n & _ & Hin).
  apply in_app_or in Hin. destruct Hin as [Hin|Hin].
  - destruct (String.eqb n start); [|contradiction]. cbn [andb] in Hin.
    destruct (Nat.leb_spec 3 (Datatypes.length path)); [|contradiction].
    destruct Hin as [<-|[]].
    repeat split; auto; [exists []; now rewrite app_nil_r|lia].
  - destruct (includes path n) eqn:Einc; [contradiction|].
    cbn [negb] in Hin. apply includes_false in Einc.
    apply IH in Hin.
    + destruct Hin as ((more & ->) & Hnd' & H3 & Hlen).
      repeat split; auto.
      * exists (n :: more). now rewrite <- app_assoc.
      * rewrite !length_app in *. cbn [Datatypes.length] in *. lia.
    + apply NoDup_app; auto.
      * repeat constructor. intros [].
      * intros x Hx [<-|[]]. contradiction.
Qed.

Lemma all_cycles_inv graph p :
  In p (all_cycles graph) ->
  NoDup p /\ (3 <= Datatypes.length p <= 7)%nat.
Proof.
  unfold all_cycles, cycles_at. intros Hin.
  apply in_flat_map in Hin. destruct Hin as (node & _ & Hin).
  apply cycles_from_inv in Hin.
  - destruct Hin as (_ & Hnd & H3 & Hlen). simpl in Hlen.
    repeat split; auto; lia.
  - repeat constructor. intros [].
Qed.

(** C4. Every ring of [detectCycles] has at least 3 member accounts and
    no account twice. *)
Theorem ring_members_distinct (graph : Graph) :
  Forall
    (fun r => (3 <= Datatypes.length (Ring.member_accounts r))%nat
              /\ NoDup (Ring.member_accounts r))
    (detectCycles graph).
Proof.
  rewrite detectCycles_number. apply number_rings_Forall.
  intros k p Hp. apply all_cycles_inv in Hp.
  cbn [Ring.member_accounts]. split; [lia|tauto].
Qed.

(** C3 (amended). The search returns at once when [depth] exceeds 6, and
    every ring of [detectCycles] has at most 7 member accounts and a risk
    score of at most 97. *)
Theorem ring_members_at_most_7 (graph : Graph) :
  (forall fuel start current path depth st,
      6 < depth ->
      dfs (S fuel) graph start current path depth st = Some st)
  /\ Forall
       (fun r => (Datatypes.length (Ring.member_accounts r) <= 7)%nat
                 /\ Ring.risk_score r <= 97)
       (detectCycles graph).
Proof.
  split.
  - intros fuel start current path depth st Hd. simpl.
    destruct (Z.ltb_spec 6 depth); [reflexivity|lia].
  - rewrite detectCycles_number. apply number_rings_Forall.
    intros k p Hp. apply all_cycles_inv in Hp.
    cbn [Ring.member_accounts Ring.risk_score]. lia.
Qed.

End Cycles.

(* ------------------------------------------------------------------ *)
(** ** The graph of a ledger *)

Section GraphOfLedger.
Import JsObject JsObjectFacts.

Lemma get_buildGraph_step g v tx a :
  get (fst (buildGraph_step (g, v) tx)) a
  = if String.eqb (sender_id tx) a
    then Some (match get g a with Some arr => arr | None => [] end
               ++ [receiver_id tx])
    else get g a.
Proof.
  unfold buildGraph_step, push_at. cbn [fst].
  destruct (String.eqb_spec (sender_id tx) a) as [->|Hne].
  - destruct (get g a) as [arr|] eqn:E.
    + rewrite E. apply get_set_same.
    + rewrite get_set_same. apply get_set_same.
  - destruct (get g (sender_id tx)) as [arr|] eqn:E.
    + rewrite E. now apply get_set_other.
    + rewrite get_set_same. now rewrite !get_set_other.
Qed.

Lemma get_buildGraph_from txs : forall g v a,
  get (fst (fold_left buildGraph_step txs (g, v))) a
  = match get g a, receivers_of a txs with
    | Some arr, rs => Some (arr ++ rs)
    | None, [] => None
    | None, rs => Some rs
    end.
Proof.
  unfold receivers_of.
  induction txs as [|tx txs IH]; intros g v a;
    cbn [fold_left filter map fst].
  - destruct (get g a); [now rewrite app_nil_r|reflexivity].
  - destruct (buildGraph_step (g, v) tx) as [g' v'] eqn:Estep.
    rewrite IH. replace g' with (fst (buildGraph_step (g, v) tx))
      by now rewrite Estep.
    rewrite get_buildGraph_step.
    destruct (String.eqb (sender_id tx) a); cbn [map].
    + destruct (get g a); cbn [app]; [now rewrite <- app_assoc|reflexivity].
    + reflexivity.
Qed.

(** The adjacency entry of [a] lists the receivers of its transactions,
    repeated transfers included; an account that never sends has none. *)
Lemma get_buildGraph txs a :
  get (fst (buildGraph txs)) a
  = match receivers_of a txs with
    | [] => None
    | rs => Some rs
    end.
Proof. unfold buildGraph. now rewrite get_buildGraph_from. Qed.

Lemma has_own_names {V} (o : JsObject.t V) k :
  JsSet.has (own_names o) k
  = match get o k with Some _ => true | None => false end.
Proof.
  unfold JsSet.has. induction o as [|[k' v'] o IH]; simpl; auto.
  rewrite String.eqb_sym. destruct (String.eqb k' k); auto.
Qed.

Lemma own_names_set {V} (o : JsObject.t V) k v :
  own_names (set o k v) = JsSet.add (own_names o) k.
Proof.
  unfold JsSet.add. rewrite has_own_names.
  induction o as [|[k' v'] o IH]; simpl; auto.
  destruct (String.eqb k' k); simpl; auto.
  rewrite IH. destruct (get o k); reflexivity.
Qed.

Lemma add_idem s k : JsSet.add (JsSet.add s k) k = JsSet.add s k.
Proof.
  unfold JsSet.add at 1. replace (JsSet.has (JsSet.add s k) k) with true;
    auto.
  unfold JsSet.add, JsSet.has. destruct (existsb (String.eqb k) s) eqn:E;
    auto.
  rewrite existsb_app. simpl. rewrite String.eqb_refl.
  now rewrite orb_true_r.
Qed.

Lemma own_names_buildGraph_from txs : forall g v,
  own_names (fst (fold_left buildGraph_step txs (g, v)))
  = fold_left JsSet.add (map sender_id txs) (own_names g).
Proof.
  induction txs as [|tx txs IH]; intros g v; cbn [fold_left map]; auto.
  destruct (buildGraph_step (g, v) tx) as [g' v'] eqn:Estep.
  rewrite IH. f_equal.
  replace g' with (fst (buildGraph_step (g, v) tx)) by now rewrite Estep.
  unfold buildGraph_step, push_at. cbn [fst].
  destruct (get g (sender_id tx)) as [arr|] eqn:E.
  - rewrite E. apply own_names_set.
  - rewrite get_set_same, !own_names_set. apply add_idem.
Qed.

(** The keys of the graph are the senders, each once, in the order of
    their first transaction. *)
Lemma own_names_buildGraph txs :
  own_names (fst (buildGraph txs))
  = fold_left JsSet.add (map sender_id txs) JsSet.empty.
Proof. unfold buildGraph. now rewrite own_names_buildGraph_from. Qed.

Lemma fold_add_NoDup ks : forall s,
  NoDup (s ++ ks) -> fold_left JsSet.add ks s = s ++ ks.
Proof.
  induction ks as [|k ks IH]; intros s Hnd; cbn [fold_left].
  - now rewrite app_nil_r.
  - assert (Hk : JsSet.has s k = false).
    { apply NoDup_remove_2 in Hnd. apply includes_false.
      intros Hin. apply Hnd. apply in_or_app. now left. }
    unfold JsSet.add at 2. rewrite Hk.
    rewrite IH; rewrite <- app_assoc; auto.
Qed.

Lemma filter_perm {A} (f : A -> bool) l l' :
  Permutation l l' -> Permutation (filter f l) (filter f l').
Proof.
  induction 1 as [|x l l' _ IH|x y l|l l' l'' _ IH1 _ IH2]; simpl; auto.
  - destruct (f x); auto.
  - destruct (f x), (f y); auto. apply perm_swap.
  - now transitivity (filter f l').
Qed.

End GraphOfLedger.

(* ------------------------------------------------------------------ *)
(** ** A 3-cycle *)

Section Triangle.
Import JsObject JsObjectFacts.

(** One search of a triangle: entered at [a], the search records the
    rotation that starts with [a], and nothing else. *)
Lemma triangle_cycles_at (graph : Graph) (a b c : string) :
  a <> b -> b <> c -> c <> a ->
  get graph a = Some [b] ->
  get graph b = Some [c] ->
  get graph c = Some [a] ->
  cycles_at graph a = [[a; b; c]].
Proof.
  intros Hab Hbc Hca Ga Gb Gc.
  assert (Eab : String.eqb a b = false) by now apply String.eqb_neq.
  assert (Eba : String.eqb b a = false)
    by (apply String.eqb_neq; congruence).
  assert (Ebc : String.eqb b c = false) by now apply String.eqb_neq.
  assert (Ecb : String.eqb c b = false)
    by (apply String.eqb_neq; congruence).
  assert (Eca : String.eqb c a = false) by now apply String.eqb_neq.
  assert (Eac : String.eqb a c = false)
    by (apply String.eqb_neq; congruence).
  unfold cycles_at.
  cbn [cycles_from]. rewrite Ga.
  cbn [flat_map includes existsb app Datatypes.length Nat.leb].
  rewrite Eba. cbn [andb orb negb app].
  rewrite Gb.
  cbn [flat_map includes existsb app Datatypes.length Nat.leb].
  rewrite Eca, Ecb. cbn [andb orb negb app].
  rewrite Gc.
  cbn [flat_map includes existsb app Datatypes.length Nat.leb].
  rewrite !String.eqb_refl. reflexivity.
Qed.

Lemma flat_map_heads (cyc : string -> list (list string)) ks :
  (forall k, In k ks -> exists tl, cyc k = [k :: tl]) ->
  map (hd "") (flat_map cyc ks) = ks.
Proof.
  induction ks as [|k ks IH]; intros H; cbn [flat_map]; auto.
  destruct (H k (or_introl eq_refl)) as (tl & ->).
  cbn [app map hd]. f_equal. apply IH. intros k' Hk'. apply H. now right.
Qed.

Variables a b c : string.
Hypothesis Hab : a <> b.
Hypothesis Hbc : b <> c.
Hypothesis Hca : c <> a.

Variable txs : list Transaction.
Hypothesis Htxs : Permutation txs [mkTx a b; mkTx b c; mkTx c a].

Let graph := fst (buildGraph txs).

Lemma triangle_receivers x y z :
  x <> y -> z <> x ->
  Permutation txs [mkTx x y; mkTx y z; mkTx z x] ->
  receivers_of x txs = [y].
Proof.
  intros Hxy Hzx H. unfold receivers_of.
  apply (filter_perm (fun tx => String.eqb (sender_id tx) x)) in H.
  cbn [filter sender_id] in H. rewrite String.eqb_refl in H.
  replace (String.eqb y x) with false in H
    by (symmetry; apply String.eqb_neq; congruence).
  replace (String.eqb z x) with false in H
    by (symmetry; apply String.eqb_neq; congruence).
  apply Permutation_sym, Permutation_length_1_inv in H. now rewrite H.
Qed.

Lemma triangle_get_a : get graph a = Some [b].
Proof.
  subst graph. rewrite get_buildGraph.
  now rewrite (triangle_receivers a b c).
Qed.

Lemma triangle_get_b : get graph b = Some [c].
Proof.
  subst graph. rewrite get_buildGraph.
  rewrite (triangle_receivers b c a); auto.
  rewrite Htxs.
  apply (Permutation_cons_append [mkTx b c; mkTx c a] (mkTx a b)).
Qed.

Lemma triangle_get_c : get graph c = Some [a].
Proof.
  subst graph. rewrite get_buildGraph.
  rewrite (triangle_receivers c a b); auto.
  rewrite Htxs. apply Permutation_sym.
  apply (Permutation_cons_append [mkTx a b; mkTx b c] (mkTx c a)).
Qed.

Lemma triangle_keys : Permutation (keys graph) [a; b; c].
Proof.
  rewrite keys_perm. subst graph. rewrite own_names_buildGraph.
  assert (Hs : Permutation (map sender_id txs) [a; b; c])
    by apply (Permutation_map sender_id Htxs).
  rewrite fold_add_NoDup; auto. cbn [JsSet.empty app].
  apply (Permutation_NoDup (Permutation_sym Hs)).
  repeat constructor; cbn [In]; intuition congruence.
Qed.

Lemma triangle_cycles_of_key k :
  In k (keys graph) ->
  In k [a; b; c]
  /\ exists x y, cycles_at graph k = [[k; x; y]].
Proof.
  intros Hk. apply (Permutation_in _ triangle_keys) in Hk.
  split; auto.
  pose proof triangle_get_a. pose proof triangle_get_b.
  pose proof triangle_get_c.
  destruct Hk as [<-|[<-|[<-|[]]]].
  - exists b, c. now apply triangle_cycles_at.
  - exists c, a. now apply triangle_cycles_at.
  - exists a, b. now apply triangle_cycles_at.
Qed.

Lemma triangle_all_cycles :
  Permutation (all_cycles graph) [[a; b; c]; [b; c; a]; [c; a; b]].
Proof.
  unfold all_cycles.
  rewrite (Permutation_flat_map (cycles_at graph) triangle_keys).
  cbn [flat_map].
  pose proof triangle_get_a. pose proof triangle_get_b.
  pose proof triangle_get_c.
  rewrite (triangle_cycles_at graph a b c), (triangle_cycles_at graph b c a),
    (triangle_cycles_at graph c a b); auto.
Qed.

(** The rings of a triangle ledger: what [detectCycles] returns. *)
Lemma triangle_rings :
  let found := detectCycles graph in
  map Ring.ring_id found = ["RING_001"; "RING_002"; "RING_003"]
  /\ Permutation (map Ring.member_accounts found)
       [[a; b; c]; [b; c; a]; [c; a; b]]
  /\ map (hd "") (map Ring.member_accounts found) = keys graph
  /\ Forall (fun r => Ring.risk_score r = 93
                      /\ Ring.pattern_type r = "cycle") found.
Proof.
  cbv zeta. rewrite detectCycles_number.
  rewrite number_rings_ids, number_rings_members.
  pose proof triangle_all_cycles as Hall.
  repeat split.
  - rewrite (Permutation_length Hall). reflexivity.
  - exact Hall.
  - apply flat_map_heads. intros k Hk.
    destruct (triangle_cycles_of_key k Hk) as (_ & x & y & ->). eauto.
  - apply number_rings_Forall. intros k p Hp.
    apply (Permutation_in _ Hall) in Hp.
    cbn [Ring.risk_score Ring.pattern_type].
    destruct Hp as [<-|[<-|[<-|[]]]]; split; reflexivity.
Qed.

End Triangle.

(* ------------------------------------------------------------------ *)
(** ** Ranking *)

Section Ranking.

Lemma sort_insert_perm x l :
  Permutation (sort_insert by_score_desc x l) (x :: l).
Proof.
  induction l as [|y l IH]; simpl; auto.
  destruct (0 <? by_score_desc x y); auto.
  rewrite IH. apply perm_swap.
Qed.

Lemma js_sort_perm l : Permutation (js_sort by_score_desc l) l.
Proof.
  induction l as [|x l IH]; simpl; auto.
  rewrite sort_insert_perm. now constructor.
Qed.

Lemma sort_insert_sorted x l :
  StronglySorted score_ge l ->
  StronglySorted score_ge (sort_insert by_score_desc x l).
Proof.
  induction 1 as [|y l Hs IH Hy]; simpl.
  - repeat constructor.
  - unfold by_score_desc at 1.
    destruct (Z.ltb_spec 0
                (Flagged.suspicion_score y - Flagged.suspicion_score x)).
    + constructor; auto.
      apply (Permutation_Forall (Permutation_sym (sort_insert_perm x l))).
      constructor; auto. unfold score_ge. lia.
    + constructor; [now constructor|].
      constructor; [unfold score_ge; lia|].
      eapply Forall_impl; [|exact Hy]. unfold score_ge. intros; lia.
Qed.

Lemma js_sort_sorted l : StronglySorted score_ge (js_sort by_score_desc l).
Proof.
  induction l as [|x l IH]; simpl; [constructor|].
  now apply sort_insert_sorted.
Qed.

Lemma sort_insert_stable v x l :
  filter (has_score v) (sort_insert by_score_desc x l)
  = filter (has_score v) (x :: l).
Proof.
  induction l as [|y l IH]; [reflexivity|].
  cbn [sort_insert]. unfold by_score_desc at 1.
  destruct (Z.ltb_spec 0
              (Flagged.suspicion_score y - Flagged.suspicion_score x));
    [|reflexivity].
  cbn [filter] in *. rewrite IH. unfold has_score.
  destruct (Z.eqb_spec (Flagged.suspicion_score x) v);
    destruct (Z.eqb_spec (Flagged.suspicion_score y) v);
    try reflexivity; lia.
Qed.

(** The entries of one score keep their order. *)
Lemma js_sort_stable v l :
  filter (has_score v) (js_sort by_score_desc l) = filter (has_score v) l.
Proof.
  induction l as [|x l IH]; [reflexivity|].
  cbn [js_sort fold_right]. rewrite sort_insert_stable.
  cbn [filter]. fold (js_sort by_score_desc l). now rewrite IH.
Qed.

Lemma sorted_head_max x l y :
  StronglySorted score_ge (x :: l) -> In y (x :: l) ->
  Flagged.suspicion_score y <= Flagged.suspicion_score x.
Proof.
  intros Hs [<-|Hy]; [lia|].
  apply StronglySorted_inv in Hs. destruct Hs as [_ Hx].
  rewrite Forall_forall in Hx. now apply Hx.
Qed.

Lemma filter_score_In v l y :
  In y l -> Flagged.suspicion_score y = v ->
  In y (filter (has_score v) l).
Proof.
  intros Hy Hv. apply filter_In. split; auto.
  unfold has_score. now apply Z.eqb_eq.
Qed.

(** A sorted arrangement that keeps the order within each score is
    determined: whatever stable algorithm [Array.prototype.sort] runs, its
    result is the one of [js_sort]. *)
Lemma stable_sorted_unique l1 : forall l2,
  StronglySorted score_ge l1 -> StronglySorted score_ge l2 ->
  (forall v, filter (has_score v) l1 = filter (has_score v) l2) ->
  l1 = l2.
Proof.
  induction l1 as [|x t1 IH]; intros l2 Hs1 Hs2 Hf.
  - destruct l2 as [|y t2]; auto.
    specialize (Hf (Flagged.suspicion_score y)). cbn [filter] in Hf.
    unfold has_score in Hf. now rewrite Z.eqb_refl in Hf.
  - destruct l2 as [|y t2].
    + specialize (Hf (Flagged.suspicion_score x)). cbn [filter] in Hf.
      unfold has_score in Hf. now rewrite Z.eqb_refl in Hf.
    + assert (Hxy : Flagged.suspicion_score x = Flagged.suspicion_score y).
      { assert (In y (x :: t1)).
        { eapply (proj1 (filter_In _ _ _)). rewrite Hf.
          apply filter_score_In; [now left|reflexivity]. }
        assert (In x (y :: t2)).
        { eapply (proj1 (filter_In _ _ _)). rewrite <- Hf.
          apply filter_score_In; [now left|reflexivity]. }
        pose proof (sorted_head_max _ _ _ Hs1 H).
        pose proof (sorted_head_max _ _ _ Hs2 H0). lia. }
      pose proof (Hf (Flagged.suspicion_score x)) as Hx.
      cbn [filter] in Hx. unfold has_score in Hx.
      rewrite <- Hxy, Z.eqb_refl in Hx. injection Hx as -> Hx.
      f_equal. apply IH.
      * now apply StronglySorted_inv in Hs1.
      * now apply StronglySorted_inv in Hs2.
      * intros v. specialize (Hf v). cbn [filter] in Hf.
        destruct (has_score v y); congruence.
Qed.

Lemma js_sort_unique l l' :
  StronglySorted score_ge l' ->
  (forall v, filter (has_score v) l' = filter (has_score v) l) ->
  l' = js_sort by_score_desc l.
Proof.
  intros Hs Hf. apply stable_sorted_unique; auto using js_sort_sorted.
  intros v. now rewrite js_sort_stable.
Qed.

End Ranking.

(* ------------------------------------------------------------------ *)
(** ** The report *)

Section Report.

Lemma fold_flag_account rings fanIn fanOut velocityMap accounts :
  forall suspicious,
    fold_left (flag_account rings fanIn fanOut velocityMap)
      accounts suspicious
    = suspicious
      ++ flat_map (flagged_entry rings fanIn fanOut velocityMap) accounts.
Proof.
  induction accounts as [|acc accounts IH]; intros suspicious;
    cbn [fold_left flat_map].
  - now rewrite app_nil_r.
  - rewrite IH. unfold flagged_entry at 2, flag_account.
    destruct (calculateSuspicion acc rings fanIn fanOut velocityMap);
      cbn [app]; [now rewrite <- app_assoc|reflexivity].
Qed.

Lemma analyze_suspicious_accounts startTime endTime txs :
  suspicious_accounts (analyze startTime endTime txs)
  = js_sort by_score_desc
      (flat_map
         (flagged_entry (detectCycles (fst (buildGraph txs)))
            (fst (detectFanPatterns txs)) (snd (detectFanPatterns txs))
            (snd (buildGraph txs)))
         (collect_accounts txs)).
Proof.
  unfold analyze.
  destruct (buildGraph txs) as [graph velocityMap].
  destruct (detectFanPatterns txs) as [fanIn fanOut].
  cbn [suspicious_accounts fst snd]. now rewrite fold_flag_account.
Qed.

Lemma analyze_fraud_rings startTime endTime txs :
  fraud_rings (analyze startTime endTime txs)
  = detectCycles (fst (buildGraph txs)).
Proof.
  unfold analyze.
  destruct (buildGraph txs) as [graph velocityMap].
  destruct (detectFanPatterns txs) as [fanIn fanOut].
  reflexivity.
Qed.

Lemma analyze_summary startTime endTime txs :
  total_accounts_analyzed (summary (analyze startTime endTime txs))
    = JsSet.size (collect_accounts txs)
  /\ suspicious_accounts_flagged (summary (analyze startTime endTime txs))
    = Z.of_nat (Datatypes.length
                  (suspicious_accounts (analyze startTime endTime txs)))
  /\ fraud_rings_detected (summary (analyze startTime endTime txs))
    = Z.of_nat (Datatypes.length
                  (fraud_rings (analyze startTime endTime txs)))
  /\ processing_time_seconds (summary (analyze startTime endTime txs))
    = Qdiv (inject_Z (endTime - startTime)) (inject_Z 1000).
Proof.
  unfold analyze.
  destruct (buildGraph txs) as [graph velocityMap].
  destruct (detectFanPatterns txs) as [fanIn fanOut].
  repeat split.
Qed.

Lemma add_NoDup s x : NoDup s -> NoDup (JsSet.add s x).
Proof.
  intros Hs. unfold JsSet.add, JsSet.has.
  destruct (existsb (String.eqb x) s) eqn:E; auto.
  apply NoDup_app; auto.
  - repeat constructor. intros [].
  - intros y Hy [<-|[]]. apply (includes_false s x); auto.
Qed.

Lemma add_In s x y : In y (JsSet.add s x) <-> In y s \/ y = x.
Proof.
  unfold JsSet.add, JsSet.has.
  destruct (existsb (String.eqb x) s) eqn:E.
  - split; auto. intros [H| ->]; auto. now apply includes_In.
  - rewrite in_app_iff. simpl. intuition.
Qed.

Lemma collect_accounts_from txs : forall s,
  NoDup s ->
  NoDup (fold_left
           (fun accounts tx =>
              JsSet.add (JsSet.add accounts (sender_id tx))
                (receiver_id tx)) txs s)
  /\ forall a,
       In a (fold_left
               (fun accounts tx =>
                  JsSet.add (JsSet.add accounts (sender_id tx))
                    (receiver_id tx)) txs s)
       <-> In a s
           \/ exists tx, In tx txs
                         /\ (a = sender_id tx \/ a = receiver_id tx).
Proof.
  induction txs as [|tx txs IH]; intros s Hs; cbn [fold_left].
  - split; auto. intros a. split; auto.
    intros [H|(tx & [] & _)]; auto.
  - destruct (IH (JsSet.add (JsSet.add s (sender_id tx)) (receiver_id tx)))
      as [Hnd Hin]; [now repeat apply add_NoDup|].
    split; auto. intros a. rewrite Hin, !add_In. cbn [In].
    split.
    + intros [[[H|H]|H]|(tx' & H & H')]; eauto 6.
    + intros [H|(tx' & [<-|H] & [H'|H'])]; eauto 6.
Qed.

(** Every account of the ledger is in the account set exactly once. *)
Lemma collect_accounts_spec txs :
  NoDup (collect_accounts txs)
  /\ forall a,
       In a (collect_accounts txs)
       <-> exists tx, In tx txs
                      /\ (a = sender_id tx \/ a = receiver_id tx).
Proof.
  destruct (collect_accounts_from txs JsSet.empty) as [Hnd Hin];
    [constructor|].
  split; auto. intros a. unfold collect_accounts. rewrite Hin.
  cbn [JsSet.empty In]. tauto.
Qed.

Lemma flagged_of_score rings fanIn fanOut velocityMap v accounts :
  map Flagged.account_id
    (filter (has_score v)
       (flat_map (flagged_entry rings fanIn fanOut velocityMap) accounts))
  = filter
      (fun acc =>
         match calculateSuspicion acc rings fanIn fanOut velocityMap with
         | Some res => Suspicion.suspicion_score res =? v
         | None => false
         end) accounts.
Proof.
  induction accounts as [|acc accounts IH]; [reflexivity|].
  cbn [flat_map filter]. rewrite filter_app, map_app, IH.
  unfold flagged_entry at 1, flag_account.
  destruct (calculateSuspicion acc rings fanIn fanOut velocityMap)
    as [res|]; [|reflexivity].
  cbn [app filter]. unfold has_score at 1.
  cbn [Flagged.suspicion_score].
  destruct (Suspicion.suspicion_score res =? v); reflexivity.
Qed.

(** C6. The suspicious accounts of the report are in non-increasing order
    of score, and the accounts of one score are in the iteration order of
    the account set, which holds every account once. *)
Theorem ranking_sorted_and_stable
    (startTime endTime : Z) (txs : list Transaction) :
  let ranked := suspicious_accounts (analyze startTime endTime txs) in
  let accounts := collect_accounts txs in
  let rings := detectCycles (fst (buildGraph txs)) in
  let velocityMap := snd (buildGraph txs) in
  let fanIn := fst (detectFanPatterns txs) in
  let fanOut := snd (detectFanPatterns txs) in
  StronglySorted score_ge ranked
  /\ NoDup accounts
  /\ forall v,
       map Flagged.account_id (filter (has_score v) ranked)
       = filter
           (fun acc =>
              match calculateSuspicion acc rings fanIn fanOut velocityMap
              with
              | Some res => Suspicion.suspicion_score res =? v
              | None => false
              end) accounts.
Proof.
  cbv zeta. rewrite analyze_suspicious_accounts.
  split; [apply js_sort_sorted|].
  split; [apply collect_accounts_spec|].
  intros v. rewrite js_sort_stable. apply flagged_of_score.
Qed.


End Report.

(* ------------------------------------------------------------------ *)
(** ** The claims on concrete ledgers *)

Section Examples.
Import JsObject.

Example triangle_report :
  detectCycles (fst (buildGraph ledger_triangle))
  = [ring_of "RING_001" ["A"; "B"; "C"];
     ring_of "RING_002" ["B"; "C"; "A"];
     ring_of "RING_003" ["C"; "A"; "B"]].
Proof. reflexivity. Qed.

(** Numeric account ids are visited in numeric order, whatever the order
    of the ledger. *)
Example triangle_numeric_ids :
  map Ring.member_accounts
    (detectCycles
       (fst (buildGraph [mkTx "20" "3"; mkTx "3" "100"; mkTx "100" "20"])))
  = [["3"; "100"; "20"]; ["20"; "3"; "100"]; ["100"; "20"; "3"]].
Proof. reflexivity. Qed.

Example self_loop_no_ring :
  detectCycles (fst (buildGraph [mkTx "A" "A"])) = [].
Proof. reflexivity. Qed.

Example two_cycle_no_ring :
  detectCycles (fst (buildGraph [mkTx "A" "B"; mkTx "B" "A"])) = [].
Proof. reflexivity. Qed.

Example cycle7_rings :
  map Ring.risk_score (detectCycles (fst (buildGraph ledger_cycle7)))
  = [97; 97; 97; 97; 97; 97; 97].
Proof. reflexivity. Qed.

Example cycle8_no_ring :
  detectCycles (fst (buildGraph ledger_cycle8)) = [].
Proof. reflexivity. Qed.

Example fan_in_only :
  calculateSuspicion "M" [] [("M", 5)] [] []
  = Some {| Suspicion.suspicion_score := 20;
            Suspicion.detected_patterns := ["high_fan_in"];
            Suspicion.ring_id := "N/A" |}.
Proof. reflexivity. Qed.

Example no_signal_no_entry :
  calculateSuspicion "M" [ring_of "RING_001" ["A"; "B"; "C"]]
    [("M", 4)] [("M", 4)] [("M", 9)] = None.
Proof. reflexivity. Qed.

Example all_signals_reach_100 :
  option_map Suspicion.suspicion_score
    (calculateSuspicion_noclamp "A" [ring_of "RING_001" ["A"; "B"; "C"]]
       [("A", 5)] [("A", 10)] [("A", 10)]) = Some 100.
Proof. reflexivity. Qed.

(** Rings minted by [detectCycles] have an id that [||] does not replace. *)
Lemma ring_name_nonempty n : ring_name n <> "".
Proof. unfold ring_name. cbn. discriminate. Qed.

Lemma detectCycles_ids_nonempty graph :
  Forall (fun r => Ring.ring_id r <> "") (detectCycles graph).
Proof.
  rewrite detectCycles_number. apply number_rings_Forall.
  intros k p _. apply ring_name_nonempty.
Qed.

(** The scoring rule on an account that is in the second and the third ring
    of the list: the id of the second one is reported. *)
Lemma calculateSuspicion_rule_witness :
  exists res,
    calculateSuspicion "B"
      [ring_of "RING_001" ["X"; "Y"; "Z"];
       ring_of "RING_002" ["A"; "B"; "C"];
       ring_of "RING_003" ["B"; "C"; "A"]]
      [("B", 7)] [] [("B", 12)] = Some res
    /\ Suspicion.suspicion_score res = 80
    /\ Suspicion.detected_patterns res
       = ["cycle_network"; "high_fan_in"; "high_velocity"]
    /\ Suspicion.ring_id res = "RING_002".
Proof.
  destruct (calculateSuspicion_rule "B"
              [ring_of "RING_001" ["X"; "Y"; "Z"];
               ring_of "RING_002" ["A"; "B"; "C"];
               ring_of "RING_003" ["B"; "C"; "A"]]
              [("B", 7)] [] [("B", 12)]) as [_ H].
  destruct H as (res & E & Hs & Hp & _ & Hid); [discriminate|].
  exists res. repeat split; auto.
  apply (Hid (ring_of "RING_002" ["A"; "B"; "C"])); [|discriminate].
  exists [ring_of "RING_001" ["X"; "Y"; "Z"]],
         [ring_of "RING_003" ["B"; "C"; "A"]].
  repeat split.
  - cbn. auto.
  - intros r' [<-|[]]. cbn. intuition discriminate.
Defined.

(** C2 as stated fails: the triangle ledger does not give one ring. *)
Lemma triangle_not_one_ring :
  ~ (exists r,
        detectCycles (fst (buildGraph ledger_triangle)) = [r]
        /\ Ring.member_accounts r = ["A"; "B"; "C"]
        /\ Ring.risk_score r = 93).
Proof. intros (r & H & _). vm_compute in H. discriminate. Qed.

(** C3 as stated fails: a cycle of 7 accounts is recorded. *)
Lemma cycle7_longer_than_6 :
  ~ Forall
      (fun r => (Datatypes.length (Ring.member_accounts r) <= 6)%nat)
      (detectCycles (fst (buildGraph ledger_cycle7))).
Proof.
  intros H. rewrite Forall_forall in H.
  specialize (H (ring_of "RING_001" ["a"; "b"; "c"; "d"; "e"; "f"; "g"])).
  assert (Hin : In (ring_of "RING_001" ["a"; "b"; "c"; "d"; "e"; "f"; "g"])
                  (detectCycles (fst (buildGraph ledger_cycle7))))
    by (vm_compute; auto).
  apply H in Hin. cbn in Hin. lia.
Qed.

(** C7 as stated fails: with FanIn >= 5 as well the score is 100. *)
Lemma busy_account_scores_100 :
  let rings := detectCycles (fst (buildGraph ledger_busy)) in
  let velocityMap := snd (buildGraph ledger_busy) in
  let fanIn := fst (detectFanPatterns ledger_busy) in
  let fanOut := snd (detectFanPatterns ledger_busy) in
  ~ ((exists r, In r rings /\ In "X" (Ring.member_accounts r)) ->
     (exists n, get fanOut "X" = Some n /\ 5 <= n) ->
     (exists n, get velocityMap "X" = Some n /\ 10 <= n) ->
     exists res,
       calculateSuspicion "X" rings fanIn fanOut velocityMap = Some res
       /\ Suspicion.suspicion_score res = 80).
Proof.
  cbv zeta. intros H.
  destruct H as (res & E & Hs).
  - exists (ring_of "RING_001" ["X"; "Y"; "Z"]).
    split; [vm_compute|cbn]; auto.
  - exists 10. split; [reflexivity|lia].
  - exists 10. split; [reflexivity|lia].
  - vm_compute in E. injection E as <-. discriminate.
Qed.

End Examples.

(* ------------------------------------------------------------------ *)
(** ** The amended claims and their instances *)

Lemma ring_fanout_velocity_score_witness :
  let rings := [ring_of "RING_001" ["X"; "Y"; "Z"]] in
  ((exists r, In r rings /\ In "X" (Ring.member_accounts r))
   /\ (exists n, JsObject.get [("X", 5)] "X" = Some n /\ 5 <= n)
   /\ (exists n, JsObject.get [("X", 10)] "X" = Some n /\ 10 <= n))
  /\ exists res,
       calculateSuspicion "X" rings [("X", 4)] [("X", 5)] [("X", 10)]
         = Some res
       /\ Suspicion.suspicion_score res = 80.
Proof.
  cbv zeta.
  assert (Hring : exists r, In r [ring_of "RING_001" ["X"; "Y"; "Z"]]
                            /\ In "X" (Ring.member_accounts r)).
  { exists (ring_of "RING_001" ["X"; "Y"; "Z"]). cbn. auto. }
  assert (Hout : exists n, JsObject.get [("X", 5)] "X" = Some n /\ 5 <= n).
  { exists 5. split; [reflexivity|lia]. }
  assert (Hvel : exists n, JsObject.get [("X", 10)] "X" = Some n /\ 10 <= n).
  { exists 10. split; [reflexivity|lia]. }
  split; [auto|].
  exact (ring_fanout_velocity_score "X" [ring_of "RING_001" ["X"; "Y"; "Z"]]
           [("X", 4)] [("X", 5)] [("X", 10)] Hring Hout Hvel).
Defined.

(* ------------------------------------------------------------------ *)
(** ** Graph, velocity and fan counts of a ledger *)

Section LedgerMaps.
Import JsObject JsObjectFacts.

Lemma own_names_bump (m : CountMap) k :
  own_names (bump m k) = JsSet.add (own_names m) k.
Proof. apply own_names_set. Qed.

Lemma own_names_tally ks : forall m,
  own_names (tally m ks) = fold_left JsSet.add ks (own_names m).
Proof.
  induction ks as [|k ks IH]; intros m; [reflexivity|].
  change (tally m (k :: ks)) with (tally (bump m k) ks).
  rewrite IH, own_names_bump. reflexivity.
Qed.

Lemma fold_add_NoDup_In ks : forall s,
  NoDup s ->
  NoDup (fold_left JsSet.add ks s)
  /\ forall a, In a (fold_left JsSet.add ks s) <-> In a s \/ In a ks.
Proof.
  induction ks as [|k ks IH]; intros s Hs; cbn [fold_left].
  - split; auto. intros a. cbn [In]. tauto.
  - destruct (IH (JsSet.add s k) (add_NoDup s k Hs)) as [Hnd Hin].
    split; auto. intros a. rewrite Hin, add_In. cbn [In].
    intuition congruence.
Qed.

Lemma receivers_of_length a txs :
  Z.of_nat (Datatypes.length (receivers_of a txs)) = sent_by a txs.
Proof. unfold receivers_of, sent_by. now rewrite length_map. Qed.

Lemma sum_counts_bump (m : CountMap) k :
  sum_counts (bump m k) = sum_counts m + 1.
Proof.
  unfold bump. induction m as [|[k' n] m IH]; cbn [get set sum_counts].
  - cbn [js_or_zero]. lia.
  - destruct (String.eqb k' k); cbn [sum_counts js_or_zero].
    + lia.
    + fold (@get Z). rewrite IH. lia.
Qed.

Lemma sum_counts_tally ks : forall m,
  sum_counts (tally m ks) = sum_counts m + Z.of_nat (Datatypes.length ks).
Proof.
  induction ks as [|k ks IH]; intros m.
  - cbn. lia.
  - change (tally m (k :: ks)) with (tally (bump m k) ks).
    rewrite IH, sum_counts_bump. cbn [Datatypes.length]. lia.
Qed.

Lemma count_edges_set_new (g : Graph) k :
  get g k = None -> count_edges (set g k []) = count_edges g.
Proof.
  induction g as [|[k' v] g IH]; cbn [get set count_edges]; [reflexivity|].
  destruct (String.eqb k' k); [discriminate|].
  intros H. cbn [count_edges]. now rewrite IH.
Qed.

Lemma count_edges_push (g : Graph) k arr x :
  get g k = Some arr ->
  count_edges (set g k (arr ++ [x])) = count_edges g + 1.
Proof.
  induction g as [|[k' v] g IH]; cbn [get set count_edges]; [discriminate|].
  destruct (String.eqb k' k); cbn [count_edges].
  - intros [= ->]. rewrite length_app. cbn [Datatypes.length]. lia.
  - intros H. rewrite IH by assumption. lia.
Qed.

Lemma count_edges_step g v tx :
  count_edges (fst (buildGraph_step (g, v) tx)) = count_edges g + 1.
Proof.
  unfold buildGraph_step, push_at. cbn [fst].
  destruct (get g (sender_id tx)) as [arr|] eqn:E.
  - rewrite E. now apply count_edges_push.
  - rewrite get_set_same.
    rewrite (count_edges_push _ _ []) by apply get_set_same.
    now rewrite count_edges_set_new.
Qed.

Lemma count_edges_from txs : forall g v,
  count_edges (fst (fold_left buildGraph_step txs (g, v)))
  = count_edges g + Z.of_nat (Datatypes.length txs).
Proof.
  induction txs as [|tx txs IH]; intros g v; cbn [fold_left].
  - cbn. lia.
  - destruct (buildGraph_step (g, v) tx) as [g' v'] eqn:Estep.
    rewrite IH. replace g' with (fst (buildGraph_step (g, v) tx))
      by now rewrite Estep.
    rewrite count_edges_step. cbn [Datatypes.length]. lia.
Qed.

(** On own properties.  The adjacency entry that [buildGraph] makes for an account lists
    the receivers of the transactions it sent, in ledger order and with
    repeated transfers repeated; an account that sent nothing has no entry.
    The keys of the graph are the senders, each once. *)
Lemma graph_entries_own (txs : list Transaction) :
  (forall a,
      get (fst (buildGraph txs)) a
      = match receivers_of a txs with
        | [] => None
        | receivers => Some receivers
        end)
  /\ NoDup (own_names (fst (buildGraph txs)))
  /\ forall a,
       In a (own_names (fst (buildGraph txs)))
       <-> exists tx, In tx txs /\ sender_id tx = a.
Proof.
  split; [apply get_buildGraph|].
  rewrite own_names_buildGraph.
  destruct (fold_add_NoDup_In (map sender_id txs) JsSet.empty) as [Hnd Hin];
    [constructor|].
  split; auto. intros a. rewrite Hin, in_map_iff. cbn [JsSet.empty In].
  split; [intros [[]|(tx & E & H)]|intros (tx & H & E)]; eauto.
Qed.

(** On own properties.  The velocity map of [buildGraph] has the keys of the graph, in the
    same order, and the velocity of an account is the length of its
    adjacency entry. *)
Lemma velocity_entries_own (txs : list Transaction) :
  own_names (snd (buildGraph txs)) = own_names (fst (buildGraph txs))
  /\ forall a,
       get (snd (buildGraph txs)) a
       = option_map (fun neighbors => Z.of_nat (Datatypes.length neighbors))
           (get (fst (buildGraph txs)) a).
Proof.
  split.
  - rewrite own_names_buildGraph. unfold buildGraph.
    rewrite buildGraph_velocity, own_names_tally. reflexivity.
  - intros a. rewrite get_buildGraph. unfold buildGraph.
    rewrite buildGraph_velocity, get_tally, occurrences_senders, get_count.
    rewrite <- receivers_of_length.
    destruct (receivers_of a txs) as [|r rs]; reflexivity.
Qed.

(** On own properties.  Every transaction is counted once on each side: the counts of
    FanIn add up to the number of transactions, and so do the counts of
    FanOut, the velocities, and the adjacency entries of the graph. *)
Lemma count_sums_own (txs : list Transaction) :
  let n := Z.of_nat (Datatypes.length txs) in
  sum_counts (fst (detectFanPatterns txs)) = n
  /\ sum_counts (snd (detectFanPatterns txs)) = n
  /\ sum_counts (snd (buildGraph txs)) = n
  /\ count_edges (fst (buildGraph txs)) = n.
Proof.
  cbv zeta. unfold detectFanPatterns, buildGraph.
  rewrite detectFanPatterns_fanIn, detectFanPatterns_fanOut.
  rewrite buildGraph_velocity, count_edges_from, !sum_counts_tally.
  rewrite !length_map. cbn. repeat split; lia.
Qed.

(** On own properties.  FanIn maps an account to the number of transactions that list it
    as receiver, and has no entry for an account that received none; its
    keys are the receivers, each once. *)
Lemma fanIn_entries_own (txs : list Transaction) :
  (forall a,
      get (fst (detectFanPatterns txs)) a
      = if received_by a txs =? 0 then None else Some (received_by a txs))
  /\ NoDup (own_names (fst (detectFanPatterns txs)))
  /\ forall a,
       In a (own_names (fst (detectFanPatterns txs)))
       <-> exists tx, In tx txs /\ receiver_id tx = a.
Proof.
  split; [intros a; apply fanIn_counts|].
  unfold detectFanPatterns. rewrite detectFanPatterns_fanIn, own_names_tally.
  destruct (fold_add_NoDup_In (map receiver_id txs) (@own_names Z empty))
    as [Hnd Hin]; [constructor|].
  split; auto. intros a. rewrite Hin, in_map_iff. cbn [own_names empty map In].
  split; [intros [[]|(tx & E & H)]|intros (tx & H & E)]; eauto.
Qed.

End LedgerMaps.

(* ------------------------------------------------------------------ *)
(** ** What the rings of [detectCycles] are *)

Section RingMeaning.
Import JsObject JsObjectFacts.

Variable graph : Graph.

Lemma chain_snoc path n :
  path <> [] -> chain graph path -> edge graph (last path "") n ->
  chain graph (path ++ [n]).
Proof.
  induction path as [|a path IH]; intros Hne Hc He; [congruence|].
  destruct path as [|b path].
  - cbn in *. auto.
  - change ((a :: b :: path) ++ [n]) with (a :: (b :: path) ++ [n]).
    cbn [chain] in Hc. destruct Hc as [Hab Hc].
    change (chain graph (a :: (b :: path) ++ [n]))
      with (edge graph a b /\ chain graph ((b :: path) ++ [n])).
    split; auto. apply IH; auto; discriminate.
Qed.

Lemma chain_app_edge path n more :
  path <> [] -> chain graph (path ++ n :: more) ->
  edge graph (last path "") n.
Proof.
  induction path as [|a path IH]; intros Hne Hc; [congruence|].
  destruct path as [|b path].
  - cbn in Hc. tauto.
  - change ((a :: b :: path) ++ n :: more)
      with (a :: b :: (path ++ n :: more)) in Hc.
    cbn [chain] in Hc. destruct Hc as [_ Hc].
    change (last (a :: b :: path) "") with (last (b :: path) "").
    apply IH; [discriminate|exact Hc].
Qed.

Lemma chain_tail a rest : chain graph (a :: rest) -> chain graph rest.
Proof. destruct rest; cbn [chain]; tauto. Qed.

Lemma last_app_cons (path : list string) n more d :
  last (path ++ n :: more) d = last (n :: more) d.
Proof.
  induction path as [|a path IH]; [reflexivity|].
  rewrite <- IH. cbn [app].
  destruct (path ++ n :: more) eqn:E; [destruct path; discriminate|].
  reflexivity.
Qed.

(** What [dfs] records is a chain that an edge closes back to [start]. *)
Lemma cycles_from_sound start : forall levels current path p,
  In p (cycles_from graph start levels current path) ->
  path <> [] -> last path "" = current -> chain graph path ->
  chain graph p /\ edge graph (last p "") start.
Proof.
  induction levels as [|levels IH]; intros current path p Hin Hne Hl Hc;
    [contradiction|].
  cbn [cycles_from] in Hin.
  destruct (get graph current) as [neighbors|] eqn:G; [|contradiction].
  apply in_flat_map in Hin. destruct Hin as (n & Hn & Hin).
  assert (He : edge graph (last path "") n)
    by (rewrite Hl; exists neighbors; auto).
  apply in_app_or in Hin. destruct Hin as [Hin|Hin].
  - destruct (String.eqb_spec n start) as [->|]; [|contradiction].
    cbn [andb] in Hin.
    destruct (3 <=? Datatypes.length path)%nat; [|contradiction].
    destruct Hin as [<-|[]]. auto.
  - destruct (negb (includes path n)); [|contradiction].
    apply IH in Hin; auto.
    + destruct path; discriminate.
    + apply last_last.
    + now apply chain_snoc.
Qed.

(** Every closed chain of different accounts that extends the path by
    fewer accounts than there are levels left is recorded. *)
Lemma cycles_from_complete start : forall more levels current path,
  path <> [] -> last path "" = current ->
  NoDup (path ++ more) -> chain graph (path ++ more) ->
  edge graph (last (path ++ more) "") start ->
  (3 <= Datatypes.length (path ++ more))%nat ->
  (Datatypes.length more < levels)%nat ->
  In (path ++ more) (cycles_from graph start levels current path).
Proof.
  induction more as [|n more IH];
    intros levels current path Hne Hl Hnd Hc He H3 Hlev;
    (destruct levels as [|levels]; [cbn in Hlev; lia|]);
    cbn [cycles_from].
  - rewrite app_nil_r in *. rewrite Hl in He.
    destruct He as (neighbors & G & Hin). rewrite G.
    apply in_flat_map. exists start. split; auto.
    apply in_or_app. left. rewrite String.eqb_refl.
    destruct (Nat.leb_spec 3 (Datatypes.length path)); [|lia].
    now left.
  - pose proof (chain_app_edge path n more Hne Hc) as Hedge.
    rewrite Hl in Hedge. destruct Hedge as (neighbors & G & Hin).
    rewrite G. apply in_flat_map. exists n. split; auto.
    apply in_or_app. right.
    assert (Hn : includes path n = false).
    { apply includes_false. intros Hp.
      apply NoDup_remove_2 in Hnd. apply Hnd.
      apply in_or_app. now left. }
    rewrite Hn. cbn [negb].
    replace (path ++ n :: more) with ((path ++ [n]) ++ more) in *
      by now rewrite <- app_assoc.
    apply IH; auto.
    + destruct path; discriminate.
    + apply last_last.
    + cbn [Datatypes.length] in Hlev. lia.
Qed.

Lemma simple_cycle_recorded p :
  In p (all_cycles graph) <-> simple_cycle graph p.
Proof.
  unfold simple_cycle. split.
  - intros Hin. destruct (all_cycles_inv graph p Hin) as [Hnd Hlen].
    unfold all_cycles, cycles_at in Hin. apply in_flat_map in Hin.
    destruct Hin as (node & _ & Hin).
    assert (Hnode : NoDup [node]) by (repeat constructor; intros []).
    destruct (cycles_from_inv _ _ _ _ _ _ Hin Hnode) as ((more & ->) & _).
    apply cycles_from_sound in Hin; cbn; auto; discriminate.
  - intros (Hnd & Hlen & Hc & He).
    destruct p as [|start more]; [cbn in Hlen; lia|].
    cbn [hd] in He. unfold all_cycles. apply in_flat_map.
    exists start. split.
    + apply (Permutation_in _ (Permutation_sym (keys_perm graph))).
      destruct more as [|b more]; [cbn in Hlen; lia|].
      cbn [chain] in Hc. destruct Hc as [(neighbors & G & _) _].
      eapply get_In_names; eauto.
    + unfold cycles_at.
      apply (cycles_from_complete start more 7 start [start]); auto.
      * discriminate.
      * cbn [app Datatypes.length] in *. lia.
      * cbn [Datatypes.length] in Hlen. lia.
Qed.

Lemma simple_cycle_rotate a rest :
  simple_cycle graph (a :: rest) -> simple_cycle graph (rest ++ [a]).
Proof.
  intros (Hnd & Hlen & Hc & He). cbn [hd] in He.
  destruct rest as [|b rest]; [cbn in Hlen; lia|].
  repeat split.
  - apply (Permutation_NoDup (Permutation_cons_append (b :: rest) a) Hnd).
  - rewrite length_app. cbn [Datatypes.length] in *. lia.
  - rewrite length_app. cbn [Datatypes.length] in *. lia.
  - apply chain_snoc; [discriminate|now apply chain_tail in Hc|exact He].
  - rewrite last_last. cbn [app hd]. cbn [chain] in Hc. tauto.
Qed.

Lemma chain_members_send p :
  chain graph p ->
  (exists neighbors, get graph (last p "") = Some neighbors) ->
  forall a, In a p -> exists neighbors, get graph a = Some neighbors.
Proof.
  induction p as [|x p IH]; intros Hc Hl a Hin; [contradiction|].
  destruct p as [|y p].
  - destruct Hin as [<-|[]]. exact Hl.
  - destruct Hin as [<-|Hin].
    + cbn [chain] in Hc. destruct Hc as [(ns & G & _) _]. eauto.
    + apply IH; auto. now apply chain_tail in Hc.
Qed.

End RingMeaning.

Section RingTheorems.
Import JsObject JsObjectFacts.

Lemma detectCycles_members graph :
  map Ring.member_accounts (detectCycles graph) = all_cycles graph.
Proof. now rewrite detectCycles_number, number_rings_members. Qed.

Lemma ring_member_sends (txs : list Transaction) r a :
  In r (detectCycles (fst (buildGraph txs))) ->
  In a (Ring.member_accounts r) ->
  exists tx, In tx txs /\ sender_id tx = a.
Proof.
  intros Hr Ha.
  assert (Hp : In (Ring.member_accounts r)
                 (all_cycles (fst (buildGraph txs)))).
  { rewrite <- detectCycles_members. now apply in_map. }
  apply simple_cycle_recorded in Hp. destruct Hp as (_ & _ & Hc & He).
  assert (Hl : exists ns,
             get (fst (buildGraph txs)) (last (Ring.member_accounts r) "")
             = Some ns)
    by (destruct He as (ns & G & _); eauto).
  destruct (chain_members_send _ _ Hc Hl a Ha) as (ns & G).
  rewrite get_buildGraph in G. unfold receivers_of in G.
  destruct (filter (fun tx => String.eqb (sender_id tx) a) txs)
    as [|tx l] eqn:E; [discriminate|].
  assert (Hin : In tx (filter (fun tx => String.eqb (sender_id tx) a) txs))
    by (rewrite E; now left).
  apply filter_In in Hin. destruct Hin as [Hin Heq].
  exists tx. split; auto. now apply String.eqb_eq.
Qed.

(** X7. Every member of a ring found in the graph of a ledger is the
    sender of some transaction of the ledger: no ring passes through an
    account that only receives. *)
Theorem ring_members_are_senders
    (txs : list Transaction) (r : Ring.t) (a : string)
    (Hr : In r (detectCycles (fst (buildGraph txs))))
    (Ha : In a (Ring.member_accounts r)) :
  exists tx, In tx txs /\ sender_id tx = a.
Proof. exact (ring_member_sends txs r a Hr Ha). Qed.

End RingTheorems.

(* ------------------------------------------------------------------ *)
(** ** What the report says about the ledger *)

Section ScoreMeaning.
Import JsObject.

End ScoreMeaning.

Section ReportMeaning.
Import JsObject JsObjectFacts.

Variables (startTime endTime : Z) (txs : list Transaction).

Let found := detectCycles (fst (buildGraph txs)).
Let velocityMap := snd (buildGraph txs).
Let fanIn := fst (detectFanPatterns txs).
Let fanOut := snd (detectFanPatterns txs).

Lemma suspicious_accounts_In e :
  In e (suspicious_accounts (analyze startTime endTime txs))
  <-> exists acc res,
        In acc (collect_accounts txs)
        /\ calculateSuspicion acc found fanIn fanOut velocityMap = Some res
        /\ e = entry_of acc res.
Proof.
  rewrite analyze_suspicious_accounts.
  fold found fanIn fanOut velocityMap.
  split.
  - intros Hin. apply (Permutation_in _ (js_sort_perm _)) in Hin.
    apply in_flat_map in Hin. destruct Hin as (acc & Hacc & Hin).
    unfold flagged_entry, flag_account in Hin.
    destruct (calculateSuspicion acc found fanIn fanOut velocityMap)
      as [res|] eqn:E; [|contradiction].
    destruct Hin as [<-|[]]. exists acc, res. auto.
  - intros (acc & res & Hacc & E & ->).
    apply (Permutation_in _ (Permutation_sym (js_sort_perm _))).
    apply in_flat_map. exists acc. split; auto.
    unfold flagged_entry, flag_account. rewrite E. now left.
Qed.

Lemma sent_counts a :
  get velocityMap a
  = if sent_by a txs =? 0 then None else Some (sent_by a txs).
Proof.
  unfold velocityMap. unfold buildGraph.
  rewrite buildGraph_velocity, get_tally, occurrences_senders.
  apply get_count.
Qed.

Lemma fanOut_counts a :
  get fanOut a = if sent_by a txs =? 0 then None else Some (sent_by a txs).
Proof.
  unfold fanOut. unfold detectFanPatterns.
  rewrite detectFanPatterns_fanOut, get_tally, occurrences_senders.
  apply get_count.
Qed.

Lemma js_ge_count (n k : Z) :
  0 < k ->
  js_ge (if n =? 0 then None else Some n) k = (k <=? n).
Proof.
  intros Hk. destruct (Z.eqb_spec n 0) as [->|]; cbn [js_ge]; auto.
  symmetry. apply Z.leb_gt. lia.
Qed.

Lemma signals_of_ledger a :
  js_ge (get fanIn a) 5 = (5 <=? received_by a txs)
  /\ js_ge (get fanOut a) 5 = (5 <=? sent_by a txs)
  /\ js_ge (get velocityMap a) 10 = (10 <=? sent_by a txs).
Proof.
  unfold fanIn. rewrite fanIn_counts, fanOut_counts, sent_counts.
  rewrite !js_ge_count by lia. auto.
Qed.

Lemma sent_by_pos a :
  0 < sent_by a txs -> exists tx, In tx txs /\ sender_id tx = a.
Proof.
  unfold sent_by. intros H.
  destruct (filter (fun tx => String.eqb (sender_id tx) a) txs)
    as [|tx l] eqn:E; [cbn in H; lia|].
  assert (Hin : In tx (filter (fun tx => String.eqb (sender_id tx) a) txs))
    by (rewrite E; now left).
  apply filter_In in Hin. destruct Hin as [Hin Heq].
  exists tx. split; auto. now apply String.eqb_eq.
Qed.

Lemma received_by_pos a :
  0 < received_by a txs -> exists tx, In tx txs /\ receiver_id tx = a.
Proof.
  unfold received_by. intros H.
  destruct (filter (fun tx => String.eqb (receiver_id tx) a) txs)
    as [|tx l] eqn:E; [cbn in H; lia|].
  assert (Hin : In tx (filter (fun tx => String.eqb (receiver_id tx) a) txs))
    by (rewrite E; now left).
  apply filter_In in Hin. destruct Hin as [Hin Heq].
  exists tx. split; auto. now apply String.eqb_eq.
Qed.

Lemma signal_In_accounts a :
  in_a_ring a found = true \/ 5 <= received_by a txs \/ 5 <= sent_by a txs ->
  In a (collect_accounts txs).
Proof.
  intros H. apply collect_accounts_spec.
  destruct H as [H|[H|H]].
  - apply in_a_ring_spec in H. destruct H as (r & Hr & Ha).
    destruct (ring_member_sends txs r a Hr Ha) as (tx & Htx & <-). eauto.
  - destruct (received_by_pos a) as (tx & Htx & <-); [lia|]. eauto.
  - destruct (sent_by_pos a) as (tx & Htx & <-); [lia|]. eauto.
Qed.

Lemma result_of_ledger a :
  let cyc := in_a_ring a found in
  let fin := 5 <=? received_by a txs in
  let fout := 5 <=? sent_by a txs in
  let vel := 10 <=? sent_by a txs in
  let sum :=
    points cyc 50 + points fin 20 + points fout 20 + points vel 10 in
  match calculateSuspicion a found fanIn fanOut velocityMap with
  | None => cyc = false /\ fin = false /\ fout = false
  | Some res =>
      Suspicion.suspicion_score res = sum
      /\ Suspicion.detected_patterns res
         = label cyc "cycle_network" ++ label fin "high_fan_in"
           ++ label fout "high_fan_out" ++ label vel "high_velocity"
      /\ (cyc = true \/ fin = true \/ fout = true)
  end.
Proof.
  cbv zeta.
  pose proof (signals_score a found fanIn fanOut velocityMap) as Hs.
  pose proof (signals_patterns a found fanIn fanOut velocityMap) as Hp.
  destruct (signals_of_ledger a) as (Ei & Eo & Ev).
  rewrite Ei, Eo, Ev in Hs, Hp.
  unfold calculateSuspicion, suspicion_result. cbv zeta. rewrite Hs, Hp.
  assert (Hv : (10 <=? sent_by a txs) = true -> (5 <=? sent_by a txs) = true).
  { rewrite !Z.leb_le. lia. }
  destruct (in_a_ring a found), (5 <=? received_by a txs),
    (5 <=? sent_by a txs), (10 <=? sent_by a txs);
    cbn; auto 6; specialize (Hv eq_refl); discriminate.
Qed.

(** The (analyze startTime endTime txs) in the terms of the ledger: the entries. *)
Lemma entries_of_ledger :
  Forall
    (fun e =>
       let a := Flagged.account_id e in
       let cyc := in_a_ring a (fraud_rings (analyze startTime endTime txs)) in
       let fin := 5 <=? received_by a txs in
       let fout := 5 <=? sent_by a txs in
       let vel := 10 <=? sent_by a txs in
       Flagged.suspicion_score e
         = points cyc 50 + points fin 20 + points fout 20 + points vel 10
       /\ Flagged.detected_patterns e
          = label cyc "cycle_network" ++ label fin "high_fan_in"
            ++ label fout "high_fan_out" ++ label vel "high_velocity")
    (suspicious_accounts (analyze startTime endTime txs)).
Proof.
  apply Forall_forall. intros e He.
  apply suspicious_accounts_In in He.
  destruct He as (acc & res & Hacc & E & ->).
  rewrite analyze_fraud_rings. fold found.
  pose proof (result_of_ledger acc) as H. rewrite E in H.
  cbv zeta in *. cbn [entry_of Flagged.account_id Flagged.suspicion_score
    Flagged.detected_patterns]. tauto.
Qed.

Lemma flagged_iff a :
  In a (map Flagged.account_id (suspicious_accounts (analyze startTime endTime txs)))
  <-> in_a_ring a (fraud_rings (analyze startTime endTime txs)) = true
      \/ 5 <= received_by a txs \/ 5 <= sent_by a txs.
Proof.
  rewrite analyze_fraud_rings. fold found.
  pose proof (result_of_ledger a) as H. cbv zeta in H.
  rewrite in_map_iff. split.
  - intros (e & <- & He). apply suspicious_accounts_In in He.
    destruct He as (acc & res & Hacc & E & ->). cbn [entry_of
      Flagged.account_id] in *.
    pose proof (result_of_ledger acc) as H'. cbv zeta in H'.
    rewrite E in H'. rewrite !Z.leb_le in H'. tauto.
  - intros Hsig. pose proof (signal_In_accounts a Hsig) as Hacc.
    destruct (calculateSuspicion a found fanIn fanOut velocityMap)
      as [res|] eqn:E.
    + exists (entry_of a res). split; [reflexivity|].
      apply suspicious_accounts_In. eauto.
    + destruct H as (H1 & H2 & H3). exfalso.
      apply Z.leb_gt in H2, H3. destruct Hsig as [Hs|[Hs|Hs]];
        [congruence|lia|lia].
Qed.

Lemma flagged_accounts_filter :
  exists keep,
    Permutation (map Flagged.account_id (suspicious_accounts (analyze startTime endTime txs)))
      (filter keep (collect_accounts txs)).
Proof.
  rewrite analyze_suspicious_accounts.
  exists (fun acc =>
            match calculateSuspicion acc (detectCycles (fst (buildGraph txs)))
                    (fst (detectFanPatterns txs))
                    (snd (detectFanPatterns txs)) (snd (buildGraph txs))
            with Some _ => true | None => false end).
  rewrite (Permutation_map _ (js_sort_perm _)).
  induction (collect_accounts txs) as [|acc l IH]; [constructor|].
  cbn [flat_map filter]. rewrite map_app.
  unfold flagged_entry at 1, flag_account.
  destruct (calculateSuspicion acc _ _ _ _); cbn [app map]; auto.
Qed.

End ReportMeaning.

Section ReportTheorems.
Import JsObject JsObjectFacts.

(** X9. Every entry of the suspicious accounts can be read off the
    ledger: its score is 50 if the account is a member of a reported
    ring, plus 20 if it receives at least 5 transactions, plus 20 if it
    sends at least 5, plus 10 if it sends at least 10; the patterns are
    the matching labels in that order. *)
Theorem report_entries_from_ledger
    (startTime endTime : Z) (txs : list Transaction) :
  let report := analyze startTime endTime txs in
  Forall
    (fun e =>
       let a := Flagged.account_id e in
       let cyc := in_a_ring a (fraud_rings report) in
       let fin := 5 <=? received_by a txs in
       let fout := 5 <=? sent_by a txs in
       let vel := 10 <=? sent_by a txs in
       Flagged.suspicion_score e
         = points cyc 50 + points fin 20 + points fout 20 + points vel 10
       /\ Flagged.detected_patterns e
          = label cyc "cycle_network" ++ label fin "high_fan_in"
            ++ label fout "high_fan_out" ++ label vel "high_velocity")
    (suspicious_accounts report).
Proof. exact (entries_of_ledger startTime endTime txs). Qed.

(** X11. No account is listed twice among the suspicious accounts, every
    listed account is the sender or the receiver of a transaction, and
    the summary counts are consistent: the number of flagged accounts is
    at most the number of accounts analysed. *)
Theorem flagged_accounts_distinct
    (startTime endTime : Z) (txs : list Transaction) :
  let report := analyze startTime endTime txs in
  NoDup (map Flagged.account_id (suspicious_accounts report))
  /\ (forall a,
        In a (map Flagged.account_id (suspicious_accounts report)) ->
        exists tx, In tx txs /\ (a = sender_id tx \/ a = receiver_id tx))
  /\ 0 <= suspicious_accounts_flagged (summary report)
     <= total_accounts_analyzed (summary report).
Proof.
  cbv zeta.
  destruct (flagged_accounts_filter startTime endTime txs) as (keep & Hperm).
  destruct (collect_accounts_spec txs) as [Hnd Hin].
  split; [|split].
  - apply (Permutation_NoDup (Permutation_sym Hperm)).
    now apply NoDup_filter.
  - intros a Ha. apply Hin. apply (Permutation_in _ Hperm) in Ha.
    apply filter_In in Ha. tauto.
  - destruct (analyze_summary startTime endTime txs) as (T & F & _).
    rewrite T, F. unfold JsSet.size.
    rewrite <- (length_map Flagged.account_id).
    rewrite (Permutation_length Hperm).
    pose proof (filter_length_le keep (collect_accounts txs)). lia.
Qed.

(** X12. In a report high_velocity never comes without high_fan_out
    (both count the transactions sent), so no entry has score 10: the
    scores are between 20 and 100. *)
Theorem velocity_implies_fan_out
    (startTime endTime : Z) (txs : list Transaction) :
  Forall
    (fun e =>
       (In "high_velocity" (Flagged.detected_patterns e) ->
        In "high_fan_out" (Flagged.detected_patterns e))
       /\ 20 <= Flagged.suspicion_score e <= 100)
    (suspicious_accounts (analyze startTime endTime txs)).
Proof.
  apply Forall_forall. intros e He.
  pose proof He as He'.
  apply suspicious_accounts_In in He'.
  destruct He' as (acc & res & Hacc & E & ->).
  pose proof (result_of_ledger txs acc) as H. cbv zeta in H.
  rewrite E in H. destruct H as (Hs & Hp & Hsig).
  cbn [entry_of Flagged.detected_patterns Flagged.suspicion_score].
  rewrite Hs, Hp.
  assert (Hv : (10 <=? sent_by acc txs) = true
               -> (5 <=? sent_by acc txs) = true).
  { rewrite !Z.leb_le. lia. }
  destruct (in_a_ring acc _), (5 <=? received_by acc txs),
    (5 <=? sent_by acc txs), (10 <=? sent_by acc txs);
    cbn; try (specialize (Hv eq_refl); discriminate);
    try (destruct Hsig as [?|[?|?]]; discriminate);
    (split; [intuition discriminate|lia]).
Qed.

End ReportTheorems.

Section RingMembersFlagged.
Import JsObject JsObjectFacts.

Lemma find_first_match_inv account rings r :
  find (fun r => includes (Ring.member_accounts r) account) rings = Some r ->
  first_match account rings r.
Proof.
  induction rings as [|r0 rings IH]; cbn [find]; [discriminate|].
  destruct (includes (Ring.member_accounts r0) account) eqn:E.
  - intros [= <-]. exists [], rings. repeat split.
    + now apply includes_In.
    + intros r' [].
  - intros H. destruct (IH H) as (before & after & -> & Hin & Hnot).
    exists (r0 :: before), after. repeat split; auto.
    intros r' [<-|Hr']; [now apply includes_false|now apply Hnot].
Qed.

Lemma result_ring_id account rings fanIn fanOut velocityMap res first :
  calculateSuspicion account rings fanIn fanOut velocityMap = Some res ->
  first_match account rings first ->
  Ring.ring_id first <> "" ->
  Suspicion.ring_id res = Ring.ring_id first.
Proof.
  intros E Hfirst Hid.
  pose proof (signals_ringId account rings fanIn fanOut velocityMap) as Hr.
  rewrite (find_first_match _ _ _ Hfirst) in Hr.
  unfold calculateSuspicion, suspicion_result in E. cbv zeta in E.
  destruct (Z.min 100 _ =? 0); [discriminate|].
  injection E as <-. cbn [Suspicion.ring_id]. rewrite Hr.
  cbn [option_map js_or_string].
  destruct (String.eqb_spec (Ring.ring_id first) ""); congruence.
Qed.

(** X13. Every member of every reported ring is among the suspicious
    accounts, with a score of at least 50 and the pattern cycle_network,
    and the ring id of its entry is the id of the first reported ring, in
    discovery order, that the account is a member of. *)
Theorem ring_members_are_flagged
    (startTime endTime : Z) (txs : list Transaction)
    (r : Ring.t) (a : string)
    (Hr : In r (fraud_rings (analyze startTime endTime txs)))
    (Ha : In a (Ring.member_accounts r)) :
  exists e first,
    In e (suspicious_accounts (analyze startTime endTime txs))
    /\ Flagged.account_id e = a
    /\ 50 <= Flagged.suspicion_score e
    /\ In "cycle_network" (Flagged.detected_patterns e)
    /\ first_match a (fraud_rings (analyze startTime endTime txs)) first
    /\ Flagged.ring_id e = Ring.ring_id first.
Proof.
  rewrite analyze_fraud_rings in *.
  assert (Hcyc : in_a_ring a (detectCycles (fst (buildGraph txs))) = true)
    by (apply in_a_ring_spec; eauto).
  assert (Hacc : In a (collect_accounts txs))
    by (apply signal_In_accounts; auto).
  pose proof (result_of_ledger txs a) as H. cbv zeta in H.
  rewrite Hcyc in H.
  destruct (calculateSuspicion a (detectCycles (fst (buildGraph txs)))
              (fst (detectFanPatterns txs)) (snd (detectFanPatterns txs))
              (snd (buildGraph txs))) as [res|] eqn:E;
    [|destruct H; discriminate].
  destruct H as (Hs & Hp & _).
  pose proof Hcyc as Hfind. rewrite find_in_a_ring in Hfind.
  destruct (find _ (detectCycles (fst (buildGraph txs)))) as [first|] eqn:F;
    [|discriminate].
  exists (entry_of a res), first.
  cbn [entry_of Flagged.account_id Flagged.suspicion_score
    Flagged.detected_patterns Flagged.ring_id].
  repeat split.
  - apply suspicious_accounts_In. eauto.
  - rewrite Hs. unfold points at 1.
    destruct (5 <=? received_by a txs), (5 <=? sent_by a txs),
      (10 <=? sent_by a txs); cbn; lia.
  - rewrite Hp. cbn. auto.
  - now apply find_first_match_inv.
  - eapply result_ring_id; eauto using find_first_match_inv.
    pose proof (detectCycles_ids_nonempty (fst (buildGraph txs))) as Hids.
    rewrite Forall_forall in Hids. apply Hids.
    apply find_some in F. tauto.
Qed.

Lemma ring_members_are_flagged_witness :
  let report := analyze 0 5 ledger_triangle in
  (In (ring_of "RING_002" ["B"; "C"; "A"]) (fraud_rings report)
   /\ In "C" (Ring.member_accounts (ring_of "RING_002" ["B"; "C"; "A"])))
  /\ exists e first,
       In e (suspicious_accounts report)
       /\ Flagged.account_id e = "C"
       /\ 50 <= Flagged.suspicion_score e
       /\ In "cycle_network" (Flagged.detected_patterns e)
       /\ first_match "C" (fraud_rings report) first
       /\ Flagged.ring_id e = Ring.ring_id first.
Proof.
  cbv zeta.
  assert (Hr : In (ring_of "RING_002" ["B"; "C"; "A"])
                 (fraud_rings (analyze 0 5 ledger_triangle)))
    by (vm_compute; auto).
  assert (Ha : In "C"
                 (Ring.member_accounts (ring_of "RING_002" ["B"; "C"; "A"])))
    by (cbn; auto).
  split; [auto|].
  exact (ring_members_are_flagged 0 5 ledger_triangle _ "C" Hr Ha).
Defined.

Lemma ring_members_are_senders_witness :
  (In (ring_of "RING_001" ["A"; "B"; "C"])
      (detectCycles (fst (buildGraph ledger_triangle)))
   /\ In "B" (Ring.member_accounts (ring_of "RING_001" ["A"; "B"; "C"])))
  /\ exists tx, In tx ledger_triangle /\ sender_id tx = "B".
Proof.
  assert (Hr : In (ring_of "RING_001" ["A"; "B"; "C"])
                 (detectCycles (fst (buildGraph ledger_triangle))))
    by (vm_compute; auto).
  assert (Ha : In "B"
                 (Ring.member_accounts (ring_of "RING_001" ["A"; "B"; "C"])))
    by (cbn; auto).
  split; [auto|].
  exact (ring_members_are_senders ledger_triangle _ "B" Hr Ha).
Defined.

End RingMembersFlagged.

(* ------------------------------------------------------------------ *)
(** ** The CSV parser *)

Section Trim.

Lemma append_nil_r (s : string) : (s ++ "")%string = s.
Proof. induction s; cbn; congruence. Qed.

Lemma append_assoc (a b c : string) :
  ((a ++ b) ++ c)%string = (a ++ (b ++ c))%string.
Proof. induction a; cbn; congruence. Qed.

Lemma trimStart_head s :
  trimStart s = ""
  \/ exists c t, trimStart s = String c t /\ is_space c = false.
Proof.
  induction s as [|c s IH]; cbn; auto.
  destruct (is_space c) eqn:E; eauto.
Qed.

Lemma trimEnd_cons c s :
  is_space c = false -> trimEnd (String c s) = String c (trimEnd s).
Proof.
  intros H. cbn [trimEnd]. rewrite H. now destruct (trimEnd s).
Qed.

Lemma trimEnd_idem s : trimEnd (trimEnd s) = trimEnd s.
Proof.
  induction s as [|c s IH]; [reflexivity|].
  cbn [trimEnd]. destruct (trimEnd s) as [|d t] eqn:E.
  - destruct (is_space c) eqn:Ec; [reflexivity|].
    cbn [trimEnd]. now rewrite Ec.
  - cbn [trimEnd]. cbn [trimEnd] in IH.
    destruct (trimEnd t) as [|d' t'] eqn:Et.
    + destruct (is_space d) eqn:Ed; [discriminate|].
      injection IH as ->. reflexivity.
    + now rewrite IH.
Qed.

Lemma trim_idem s : trim (trim s) = trim s.
Proof.
  unfold trim. destruct (trimStart_head s) as [->|(c & t & -> & Hc)];
    [reflexivity|].
  rewrite trimEnd_cons by assumption. cbn [trimStart]. rewrite Hc.
  rewrite trimEnd_cons by assumption. now rewrite trimEnd_idem.
Qed.

Lemma trimEnd_no_space s : no_char is_space s -> trimEnd s = s.
Proof.
  induction s as [|c s IH]; [reflexivity|]. intros [Hc Hs].
  rewrite trimEnd_cons by assumption. now rewrite IH.
Qed.

Lemma trim_no_space s : no_char is_space s -> trim s = s.
Proof.
  intros H. unfold trim. destruct s as [|c s]; [reflexivity|].
  cbn [trimStart]. destruct H as [Hc Hs]. rewrite Hc.
  apply trimEnd_no_space. now split.
Qed.

Lemma trimEnd_app_space s c :
  is_space c = true -> trimEnd (s ++ String c "") = trimEnd s.
Proof.
  intros Hc. induction s as [|a s IH]; cbn [append trimEnd].
  - now rewrite Hc.
  - now rewrite IH.
Qed.

Lemma trim_app_space s c :
  is_space c = true -> trim (s ++ String c "") = trim s.
Proof.
  intros Hc. unfold trim. induction s as [|a s IH]; cbn [append trimStart].
  - now rewrite Hc.
  - destruct (is_space a); [exact IH|].
    change (String a (s ++ String c ""))
      with (String a s ++ String c "")%string.
    now apply trimEnd_app_space.
Qed.

End Trim.

Section CsvLine.

Lemma split_char_nonempty sep s : split_char sep s <> [].
Proof.
  destruct s as [|c s]; cbn; [discriminate|].
  destruct (Ascii.eqb c sep); [discriminate|].
  unfold cons_to_head. destruct (split_char sep s); discriminate.
Qed.

Lemma loop_plain line : forall st,
  no_char (fun c => Ascii.eqb c "034"%char) line ->
  Csv.inQuotes st = false ->
  csv_result (parseCsvLine_loop line st)
  = Csv.values st
    ++ map trim (after_current (Csv.current st) (split_char ","%char line)).
Proof.
  unfold csv_result.
  induction line as [|ch rest IH]; intros st Hq Hin.
  - cbn. now rewrite append_nil_r.
  - destruct Hq as [Hch Hrest]. cbn beta in Hch.
    cbn [parseCsvLine_loop split_char].
    rewrite Hch, Hin. cbn [negb]. rewrite andb_true_r.
    destruct (Ascii.eqb ch ","%char).
    + rewrite IH by auto. cbn [Csv.values Csv.current after_current map].
      rewrite append_nil_r, <- app_assoc. cbn [app]. do 2 f_equal.
      pose proof (split_char_nonempty ","%char rest).
      destruct (split_char ","%char rest); [congruence|reflexivity].
    + rewrite IH by auto. cbn [Csv.values Csv.current]. f_equal.
      pose proof (split_char_nonempty ","%char rest).
      destruct (split_char ","%char rest) as [|p ps]; [congruence|].
      cbn [cons_to_head after_current]. now rewrite append_assoc.
Qed.

Lemma loop_values_trimmed line : forall st,
  Forall (fun v => trim v = v) (Csv.values st) ->
  Forall (fun v => trim v = v) (Csv.values (parseCsvLine_loop line st)).
Proof.
  assert (Hfix : forall n line st, (String.length line <= n)%nat ->
    Forall (fun v => trim v = v) (Csv.values st) ->
    Forall (fun v => trim v = v) (Csv.values (parseCsvLine_loop line st))).
  { induction n as [|n IH]; intros l st Hlen Hst.
    - destruct l; [exact Hst|cbn in Hlen; lia].
    - destruct l as [|ch rest]; [exact Hst|].
      cbn [String.length] in Hlen. cbn [parseCsvLine_loop].
      destruct (Ascii.eqb ch "034"%char).
      + destruct rest as [|next rest'].
        * apply IH; [cbn; lia|exact Hst].
        * destruct (Csv.inQuotes st && Ascii.eqb next "034"%char).
          -- apply IH; [cbn [String.length] in Hlen; lia|exact Hst].
          -- apply IH; [lia|exact Hst].
      + destruct (Ascii.eqb ch ","%char && negb (Csv.inQuotes st)).
        * apply IH; [lia|]. cbn [Csv.values].
          apply Forall_app. split; auto.
          constructor; [apply trim_idem|constructor].
        * apply IH; [lia|exact Hst]. }
  intros st. now apply (Hfix (String.length line)).
Qed.

Lemma loop_open_quote rest st :
  Csv.inQuotes st = false ->
  parseCsvLine_loop (String "034"%char rest) st
  = parseCsvLine_loop rest
      {| Csv.values := Csv.values st;
         Csv.current := Csv.current st;
         Csv.inQuotes := true |}.
Proof.
  intros H. cbn [parseCsvLine_loop]. cbn [Ascii.eqb Bool.eqb].
  rewrite H. destruct rest; reflexivity.
Qed.

(** The inside of a quoted field, up to and with the closing quote. *)
Lemma loop_quoted f : forall rest st,
  Csv.inQuotes st = true ->
  (forall c rest', rest = String c rest' -> Ascii.eqb c "034"%char = false) ->
  parseCsvLine_loop (double_quotes f ++ String "034"%char rest) st
  = parseCsvLine_loop rest
      {| Csv.values := Csv.values st;
         Csv.current := (Csv.current st ++ f)%string;
         Csv.inQuotes := false |}.
Proof.
  induction f as [|c f IH]; intros rest st Hin Hrest.
  - cbn [double_quotes append parseCsvLine_loop]. cbn [Ascii.eqb Bool.eqb].
    rewrite Hin, append_nil_r. destruct rest as [|c rest']; [reflexivity|].
    rewrite (Hrest c rest' eq_refl). reflexivity.
  - cbn [double_quotes].
    destruct (Ascii.eqb c "034"%char) eqn:Ec.
    + apply Ascii.eqb_eq in Ec. subst c.
      cbn [append parseCsvLine_loop]. cbn [Ascii.eqb Bool.eqb].
      rewrite Hin. cbn [andb]. rewrite IH by auto.
      cbn [Csv.values Csv.current]. now rewrite append_assoc.
    + cbn [append parseCsvLine_loop]. rewrite Ec, Hin.
      rewrite andb_false_r. rewrite IH by auto.
      cbn [Csv.values Csv.current]. now rewrite append_assoc.
Qed.

Lemma loop_quoted_fields fs : forall st,
  fs <> [] ->
  Csv.inQuotes st = false -> Csv.current st = "" ->
  csv_result
    (parseCsvLine_loop (String.concat "," (map quote_field fs)) st)
  = Csv.values st ++ map trim fs.
Proof.
  induction fs as [|f fs IH]; intros st Hne Hin Hcur; [congruence|].
  destruct fs as [|f2 fs].
  - cbn [map String.concat]. unfold quote_field.
    rewrite loop_open_quote by assumption.
    rewrite loop_quoted; cbn [Csv.inQuotes]; auto; [|discriminate].
    unfold csv_result.
    cbn [parseCsvLine_loop Csv.values Csv.current map]. now rewrite Hcur.
  - change (String.concat "," (map quote_field (f :: f2 :: fs)))
      with (quote_field f ++ "," ++ String.concat ","
                                     (map quote_field (f2 :: fs)))%string.
    unfold quote_field at 1. cbn [append].
    rewrite loop_open_quote by assumption.
    rewrite append_assoc. cbn [append].
    rewrite loop_quoted; cbn [Csv.inQuotes]; auto.
    2:{ intros c rest' [= <- _]. reflexivity. }
    cbn [parseCsvLine_loop Csv.values Csv.current Csv.inQuotes].
    cbn [Ascii.eqb Bool.eqb negb andb].
    rewrite IH; cbn [Csv.values Csv.current Csv.inQuotes]; auto;
      [|discriminate].
    rewrite Hcur, <- app_assoc. reflexivity.
Qed.

Lemma parseCsvLine_result line :
  parseCsvLine line
  = csv_result
      (parseCsvLine_loop line
         {| Csv.values := []; Csv.current := ""; Csv.inQuotes := false |}).
Proof. reflexivity. Qed.

Lemma parseCsvLine_trimmed line :
  Forall (fun v => trim v = v) (parseCsvLine line).
Proof.
  rewrite parseCsvLine_result. unfold csv_result.
  apply Forall_app. split.
  - apply loop_values_trimmed. constructor.
  - constructor; [apply trim_idem|constructor].
Qed.

Lemma parseCsvLine_plain line :
  no_char (fun c => Ascii.eqb c "034"%char) line ->
  parseCsvLine line = map trim (split_char ","%char line).
Proof.
  intros H. rewrite parseCsvLine_result, loop_plain by auto.
  cbn [Csv.values Csv.current app]. f_equal.
  pose proof (split_char_nonempty ","%char line).
  destruct (split_char ","%char line); [congruence|reflexivity].
Qed.

(** X14. [parseCsvLine] always returns at least one value, and every
    value it returns is trimmed: trimming it again changes nothing. *)
Theorem parseCsvLine_values_trimmed (line : string) :
  parseCsvLine line <> []
  /\ Forall (fun v => trim v = v) (parseCsvLine line).
Proof.
  split; [|apply parseCsvLine_trimmed].
  unfold parseCsvLine. cbv zeta. intros H.
  apply app_eq_nil in H. destruct H; discriminate.
Qed.

Lemma split_char_length sep s :
  Datatypes.length (split_char sep s)
  = S (Datatypes.length
         (filter (Ascii.eqb sep) (list_ascii_of_string s))).
Proof.
  induction s as [|c s IH]; [reflexivity|].
  cbn [split_char list_ascii_of_string filter].
  rewrite (Ascii.eqb_sym sep c).
  destruct (Ascii.eqb c sep); cbn [Datatypes.length].
  - now rewrite IH.
  - rewrite <- IH. pose proof (split_char_nonempty sep s).
    destruct (split_char sep s); [congruence|reflexivity].
Qed.

(** X15. On a line without quote characters [parseCsvLine] gives what
    the plain parser gives, [line.split(",")] with every piece trimmed,
    so it returns one value more than the line has commas. *)
Theorem parseCsvLine_without_quotes (line : string)
    (Hplain : no_char (fun c => Ascii.eqb c "034"%char) line) :
  parseCsvLine line = map trim (split_char ","%char line)
  /\ Datatypes.length (parseCsvLine line)
     = S (Datatypes.length
            (filter (Ascii.eqb ","%char) (list_ascii_of_string line))).
Proof.
  rewrite parseCsvLine_plain by assumption. split; [reflexivity|].
  rewrite length_map. apply split_char_length.
Qed.

(** X16. Quoting round trip: when each field of a non-empty list is
    written between quotes with its own quotes doubled, and the fields
    are joined by commas, [parseCsvLine] gives the fields back, trimmed;
    commas and quotes inside a field are kept. *)
Theorem parseCsvLine_quoted_round_trip (fields : list string)
    (Hfields : fields <> []) :
  parseCsvLine (String.concat "," (map quote_field fields))
  = map trim fields.
Proof.
  rewrite parseCsvLine_result, loop_quoted_fields; auto.
Qed.

End CsvLine.

(* ------------------------------------------------------------------ *)
(** ** The lines and the rows of an upload *)

Section UploadLines.

Lemma cons_to_head_rel c l1 l2 :
  Forall2 up_to_cr l1 l2 ->
  Forall2 up_to_cr (cons_to_head c l1) (cons_to_head c l2).
Proof.
  intros H. destruct H as [|p q l1 l2 Hpq H]; cbn [cons_to_head].
  - constructor; [now left|constructor].
  - constructor; auto. destruct Hpq as [->| ->]; [now left|now right].
Qed.

Lemma split_lines_rel raw :
  Forall2 up_to_cr (split_lines raw) (split_char "010"%char raw)
  /\ forall c,
       Forall2 up_to_cr (split_lines (String c raw))
         (split_char "010"%char (String c raw)).
Proof.
  induction raw as [|c' r IH].
  - split; [repeat constructor|]. intros c. cbn.
    destruct (Ascii.eqb c "010"%char); repeat constructor.
  - destruct IH as [IH0 IH1]. split; [apply IH1|]. intros c.
    cbn [split_lines split_char].
    destruct (Ascii.eqb c "010"%char).
    + constructor; [now left|apply IH1].
    + destruct (Ascii.eqb c "013"%char && Ascii.eqb c' "010"%char) eqn:E.
      * apply andb_prop in E. destruct E as [Ec Ec'].
        apply Ascii.eqb_eq in Ec, Ec'. subst c c'.
        cbn [split_char Ascii.eqb Bool.eqb andb cons_to_head].
        constructor; [now right|exact IH0].
      * apply cons_to_head_rel. apply IH1.
Qed.

Lemma map_trim_rel l1 l2 :
  Forall2 up_to_cr l1 l2 -> map trim l1 = map trim l2.
Proof.
  induction 1 as [|p q l1 l2 Hpq _ IH]; [reflexivity|].
  cbn [map]. rewrite IH. f_equal.
  destruct Hpq as [->| ->]; [reflexivity|].
  symmetry. now apply trim_app_space.
Qed.

Lemma upload_lines_split raw :
  upload_lines raw
  = filter (fun line => negb (String.eqb line ""))
      (map trim (split_char "010"%char raw)).
Proof.
  unfold upload_lines. f_equal. apply map_trim_rel, split_lines_rel.
Qed.

Lemma split_char_no_sep sep s :
  no_char (fun c => Ascii.eqb c sep) s -> split_char sep s = [s].
Proof.
  induction s as [|c s IH]; [reflexivity|]. intros [Hc Hs].
  cbn [split_char]. cbn beta in Hc. rewrite Hc, IH by assumption.
  reflexivity.
Qed.

Lemma split_char_app sep a b :
  no_char (fun c => Ascii.eqb c sep) a ->
  split_char sep (a ++ String sep b) = a :: split_char sep b.
Proof.
  induction a as [|c a IH]; intros Ha; cbn [append split_char].
  - now rewrite Ascii.eqb_refl.
  - destruct Ha as [Hc Ha]. cbn beta in Hc. rewrite Hc, IH by assumption.
    reflexivity.
Qed.

Lemma no_char_app f a b :
  no_char f a -> no_char f b -> no_char f (a ++ b).
Proof. induction a; cbn; intuition. Qed.

Lemma no_char_weaken (f g : ascii -> bool) s :
  (forall c, f c = false -> g c = false) -> no_char f s -> no_char g s.
Proof. intros H. induction s; cbn; intuition. Qed.

Lemma split_concat_LF rows :
  rows <> [] ->
  Forall (no_char (fun c => Ascii.eqb c "010"%char)) rows ->
  split_char "010"%char (String.concat LF rows) = rows.
Proof.
  induction rows as [|r rows IH]; intros Hne Hrows; [congruence|].
  inversion Hrows as [|? ? Hr Hrest]; subst.
  destruct rows as [|r2 rows].
  - cbn [String.concat]. now apply split_char_no_sep.
  - change (String.concat LF (r :: r2 :: rows))
      with (r ++ LF ++ String.concat LF (r2 :: rows))%string.
    unfold LF at 1. cbn [append]. rewrite split_char_app by assumption.
    f_equal. apply IH; [discriminate|assumption].
Qed.

Lemma split_concat_CRLF rows :
  rows <> [] ->
  Forall (no_char (fun c => Ascii.eqb c "010"%char)) rows ->
  map trim (split_char "010"%char (String.concat CRLF rows))
  = map trim rows.
Proof.
  induction rows as [|r rows IH]; intros Hne Hrows; [congruence|].
  inversion Hrows as [|? ? Hr Hrest]; subst.
  destruct rows as [|r2 rows].
  - cbn [String.concat]. now rewrite split_char_no_sep.
  - change (String.concat CRLF (r :: r2 :: rows))
      with (r ++ CRLF ++ String.concat CRLF (r2 :: rows))%string.
    unfold CRLF at 1. cbn [append].
    change (r ++ String "013"%char
                   (String "010"%char (String.concat CRLF (r2 :: rows))))%string
      with (r ++ (String "013"%char "" ++
                  String "010"%char (String.concat CRLF (r2 :: rows))))%string.
    rewrite <- append_assoc. rewrite split_char_app.
    + cbn [map]. rewrite IH by (auto; discriminate).
      f_equal. now apply trim_app_space.
    + apply no_char_app; auto. cbn. auto.
Qed.

Lemma upload_lines_of_rows eol rows :
  eol = LF \/ eol = CRLF ->
  Forall (no_char (fun c => Ascii.eqb c "010"%char)) rows ->
  upload_lines (String.concat eol rows)
  = filter (fun line => negb (String.eqb line "")) (map trim rows).
Proof.
  intros Heol Hrows. rewrite upload_lines_split.
  destruct rows as [|r rows]; [reflexivity|].
  f_equal. destruct Heol as [->| ->].
  - rewrite split_concat_LF; auto; discriminate.
  - apply split_concat_CRLF; auto; discriminate.
Qed.

(** X17. Line endings and blank lines do not matter: for rows that hold
    no line feed, the upload made of the rows joined by LF and the one
    with them joined by CR LF have the same lines, the rows trimmed with
    the empty ones left out. *)
Theorem upload_lines_ignore_line_endings (rows : list string)
    (Hrows : Forall (no_char (fun c => Ascii.eqb c "010"%char)) rows) :
  upload_lines (String.concat LF rows)
  = filter (fun line => negb (String.eqb line "")) (map trim rows)
  /\ upload_lines (String.concat CRLF rows)
     = filter (fun line => negb (String.eqb line "")) (map trim rows).
Proof. split; apply upload_lines_of_rows; auto. Qed.

End UploadLines.

Section Rows.

Lemma parse_rows_app si ri rows1 rows2 :
  parse_rows si ri (rows1 ++ rows2)
  = parse_rows si ri rows1 ++ parse_rows si ri rows2.
Proof. unfold parse_rows. now rewrite map_app, filter_app, map_app. Qed.

Lemma parse_rows_cons si ri row rows :
  parse_rows si ri (row :: rows)
  = parse_rows si ri [row] ++ parse_rows si ri rows.
Proof. apply (parse_rows_app si ri [row] rows). Qed.

(** X18. A row with fewer fields than the sender or the receiver column
    asks for is left out, and is no error: the transactions of the other
    rows are the same, in the same order. *)
Theorem short_rows_are_skipped
    (senderIndex receiverIndex : nat) (before after : list string)
    (row : string)
    (Hshort : (Datatypes.length (parseCsvLine row)
               <= Nat.max senderIndex receiverIndex)%nat) :
  parse_rows senderIndex receiverIndex (before ++ row :: after)
  = parse_rows senderIndex receiverIndex (before ++ after).
Proof.
  rewrite !parse_rows_app, (parse_rows_cons _ _ row after).
  replace (parse_rows senderIndex receiverIndex [row]) with (@nil Transaction);
    [reflexivity|].
  unfold parse_rows, row_object, both_present. cbn [map filter].
  cbn [raw_sender_id raw_receiver_id].
  destruct (Nat.max_spec senderIndex receiverIndex) as [[_ E]|[_ E]];
    rewrite E in Hshort; apply nth_error_None in Hshort; rewrite Hshort;
    cbn [truthy]; rewrite ?andb_false_r; reflexivity.
Qed.

Lemma parse_rows_wellformed si ri rows :
  Forall
    (fun tx => sender_id tx <> "" /\ receiver_id tx <> ""
               /\ trim (sender_id tx) = sender_id tx
               /\ trim (receiver_id tx) = receiver_id tx)
    (parse_rows si ri rows).
Proof.
  unfold parse_rows. apply Forall_forall. intros tx Htx.
  apply in_map_iff in Htx. destruct Htx as (raw & <- & Hraw).
  apply filter_In in Hraw. destruct Hraw as [Hraw Hboth].
  apply in_map_iff in Hraw. destruct Hraw as (row & <- & _).
  unfold both_present, row_object in *.
  cbn [raw_sender_id raw_receiver_id to_transaction sender_id receiver_id]
    in *.
  pose proof (parseCsvLine_trimmed row) as Htrim.
  rewrite Forall_forall in Htrim.
  apply andb_prop in Hboth. destruct Hboth as [Hs Hr].
  destruct (nth_error (parseCsvLine row) si) as [s|] eqn:Es;
    [|discriminate].
  destruct (nth_error (parseCsvLine row) ri) as [r|] eqn:Er;
    [|discriminate].
  cbn [truthy] in Hs, Hr.
  apply nth_error_In in Es, Er.
  repeat split; auto.
  - intros ->. discriminate.
  - intros ->. discriminate.
Qed.

End Rows.

(* ------------------------------------------------------------------ *)
(** ** The handler, from the upload to the reply *)

Section Handler.

Lemma collect_accounts_nonempty tx txs :
  1 <= JsSet.size (collect_accounts (tx :: txs)).
Proof.
  destruct (collect_accounts_spec (tx :: txs)) as [_ Hin].
  assert (H : In (sender_id tx) (collect_accounts (tx :: txs))).
  { apply Hin. exists tx. split; [now left|now left]. }
  unfold JsSet.size. destruct (collect_accounts (tx :: txs));
    [contradiction|]. cbn [Datatypes.length]. lia.
Qed.

(** X19. The handler answers 200 only with the report of a ledger that
    is not empty and in which every sender and receiver id is a trimmed,
    non-empty string; the report then counts at least one account.  An
    upload that gives no such ledger never reaches the engine. *)
Theorem upload_success_is_wellformed
    (file : option string) (startTime endTime : Z) (body : Response)
    (Hok : analyze_upload file startTime endTime = Status200 body) :
  exists txs,
    txs <> []
    /\ body = analyze startTime endTime txs
    /\ Forall
         (fun tx => sender_id tx <> "" /\ receiver_id tx <> ""
                    /\ trim (sender_id tx) = sender_id tx
                    /\ trim (receiver_id tx) = receiver_id tx) txs
    /\ 1 <= total_accounts_analyzed (summary body).
Proof.
  unfold analyze_upload in Hok.
  destruct file as [raw|]; [|discriminate].
  cbv zeta in Hok.
  destruct (Datatypes.length (upload_lines raw) <? 2)%nat; [discriminate|].
  destruct (findIndex (includes senderCols) _) as [si|]; [|discriminate].
  destruct (findIndex (includes receiverCols) _) as [ri|]; [|discriminate].
  destruct (parse_rows si ri (tl (upload_lines raw))) as [|tx txs] eqn:E;
    [discriminate|].
  cbn [Datatypes.length Nat.eqb] in Hok. injection Hok as <-.
  exists (tx :: txs). repeat split.
  - discriminate.
  - rewrite <- E. apply parse_rows_wellformed.
  - destruct (analyze_summary startTime endTime (tx :: txs)) as (T & _).
    rewrite T. apply collect_accounts_nonempty.
Qed.

Lemma plain_no_LF s :
  no_char (fun c => is_space c || Ascii.eqb c ","%char
                    || Ascii.eqb c "034"%char) s ->
  no_char (fun c => Ascii.eqb c "010"%char) s
  /\ no_char is_space s
  /\ no_char (fun c => Ascii.eqb c ","%char) s
  /\ no_char (fun c => Ascii.eqb c "034"%char) s.
Proof.
  intros H. repeat split; revert H; apply no_char_weaken; intros c Hc;
    apply orb_false_elim in Hc; destruct Hc as [Hc Hq];
    apply orb_false_elim in Hc; destruct Hc as [Hs Hc]; auto.
  destruct (Ascii.eqb_spec c "010"%char) as [->|]; [discriminate|reflexivity].
Qed.

Lemma csv_row_facts tx :
  plain_field (sender_id tx) -> plain_field (receiver_id tx) ->
  no_char (fun c => Ascii.eqb c "010"%char) (csv_row tx)
  /\ trim (csv_row tx) = csv_row tx
  /\ csv_row tx <> ""
  /\ parse_rows 0 1 [csv_row tx] = [tx].
Proof.
  intros [Hs Hps] [Hr Hpr].
  destruct (plain_no_LF _ Hps) as (Ls & Ss & Cs & Qs).
  destruct (plain_no_LF _ Hpr) as (Lr & Sr & Cr & Qr).
  unfold csv_row. repeat split.
  - apply no_char_app; auto. cbn [append no_char]. auto.
  - apply trim_no_space. apply no_char_app; auto.
    cbn [append no_char]. auto.
  - destruct (sender_id tx); [congruence|discriminate].
  - unfold parse_rows, row_object. cbn [map].
    rewrite parseCsvLine_plain.
    2:{ apply no_char_app; auto. cbn [append no_char]. auto. }
    cbn [append]. rewrite split_char_app, split_char_no_sep by assumption.
    cbn [map]. rewrite !trim_no_space by assumption.
    unfold both_present. cbn [filter nth_error raw_sender_id raw_receiver_id
      truthy].
    destruct (String.eqb_spec (sender_id tx) ""); [congruence|].
    destruct (String.eqb_spec (receiver_id tx) ""); [congruence|].
    cbn [negb andb map to_transaction raw_sender_id raw_receiver_id].
    destruct tx; reflexivity.
Qed.

Lemma csv_rows_facts txs :
  Forall (fun tx => plain_field (sender_id tx)
                    /\ plain_field (receiver_id tx)) txs ->
  Forall (no_char (fun c => Ascii.eqb c "010"%char)) (map csv_row txs)
  /\ filter (fun line => negb (String.eqb line ""))
       (map trim (map csv_row txs)) = map csv_row txs
  /\ parse_rows 0 1 (map csv_row txs) = txs.
Proof.
  induction 1 as [|tx txs [Hs Hr] _ (IH1 & IH2 & IH3)];
    [repeat split; constructor|].
  destruct (csv_row_facts tx Hs Hr) as (F1 & F2 & F3 & F4).
  cbn [map]. repeat split.
  - now constructor.
  - cbn [filter]. rewrite F2.
    destruct (String.eqb_spec (csv_row tx) ""); [congruence|].
    cbn [negb]. now rewrite IH2.
  - rewrite parse_rows_cons, F4, IH3. reflexivity.
Qed.

End Handler.

Section Headers.

Lemma lower_char_idem c : lower_char (lower_char c) = lower_char c.
Proof. destruct c as [[] [] [] [] [] [] [] []]; reflexivity. Qed.

Lemma is_space_lower c : is_space (lower_char c) = is_space c.
Proof. destruct c as [[] [] [] [] [] [] [] []]; reflexivity. Qed.

Lemma toLowerCase_idem s : toLowerCase (toLowerCase s) = toLowerCase s.
Proof.
  induction s as [|c s IH]; cbn [toLowerCase]; [reflexivity|].
  now rewrite lower_char_idem, IH.
Qed.

Lemma toLowerCase_replace s : forall b,
  toLowerCase (replace_spaces_from b s)
  = replace_spaces_from b (toLowerCase s).
Proof.
  induction s as [|c s IH]; intros b; [reflexivity|].
  cbn [toLowerCase replace_spaces_from]. rewrite is_space_lower.
  destruct (is_space c); [destruct b|]; cbn [toLowerCase];
    now rewrite ?IH.
Qed.

Lemma replace_no_space s : forall b,
  no_char is_space (replace_spaces_from b s).
Proof.
  induction s as [|c s IH]; intros b; cbn [replace_spaces_from];
    [exact I|].
  destruct (is_space c) eqn:E; [destruct b|]; cbn [no_char]; auto.
Qed.

Lemma replace_of_no_space s : forall b,
  no_char is_space s -> replace_spaces_from b s = s.
Proof.
  induction s as [|c s IH]; intros b H; [reflexivity|].
  destruct H as [Hc Hs]. cbn [replace_spaces_from]. rewrite Hc.
  now rewrite IH.
Qed.

(** X21. The normal form of a header holds no white space and is
    unchanged by [toLowerCase], and normalising twice is normalising
    once: a header that is already in normal form, such as the accepted
    column names, is left as it is. *)
Theorem normalize_header_canonical (h : string) :
  no_char is_space (normalize_header h)
  /\ toLowerCase (normalize_header h) = normalize_header h
  /\ normalize_header (normalize_header h) = normalize_header h.
Proof.
  unfold normalize_header, replace_spaces.
  assert (Hlow : toLowerCase (replace_spaces_from false (toLowerCase h))
                 = replace_spaces_from false (toLowerCase h)).
  { now rewrite toLowerCase_replace, toLowerCase_idem. }
  repeat split.
  - apply replace_no_space.
  - exact Hlow.
  - rewrite Hlow. apply replace_of_no_space, replace_no_space.
Qed.

End Headers.

(* ------------------------------------------------------------------ *)
(** ** The account set, and instances of the properties above *)

Section Instances.

(** X22. The account set of the handler holds every sender and every
    receiver of the ledger, each once, and nothing else; its size is the
    number of accounts the summary reports. *)
Theorem accounts_are_the_ledger_ids
    (startTime endTime : Z) (txs : list Transaction) :
  NoDup (collect_accounts txs)
  /\ (forall a,
        In a (collect_accounts txs)
        <-> exists tx, In tx txs
                       /\ (a = sender_id tx \/ a = receiver_id tx))
  /\ total_accounts_analyzed (summary (analyze startTime endTime txs))
     = Z.of_nat (Datatypes.length (collect_accounts txs)).
Proof.
  destruct (collect_accounts_spec txs) as [Hnd Hin].
  destruct (analyze_summary startTime endTime txs) as (T & _).
  repeat split; auto; apply Hin.
Qed.

Lemma parseCsvLine_without_quotes_witness :
  no_char (fun c => Ascii.eqb c "034"%char) " a, b ,c"
  /\ parseCsvLine " a, b ,c" = map trim (split_char ","%char " a, b ,c")
  /\ Datatypes.length (parseCsvLine " a, b ,c")
     = S (Datatypes.length
            (filter (Ascii.eqb ","%char)
               (list_ascii_of_string " a, b ,c"))).
Proof.
  assert (H : no_char (fun c => Ascii.eqb c "034"%char) " a, b ,c")
    by (cbn; intuition).
  split; [exact H|].
  exact (parseCsvLine_without_quotes " a, b ,c" H).
Defined.

Lemma parseCsvLine_quoted_round_trip_witness :
  ["Doe, Jane"; " ACC-1 "] <> []
  /\ parseCsvLine
       (String.concat "," (map quote_field ["Doe, Jane"; " ACC-1 "]))
     = map trim ["Doe, Jane"; " ACC-1 "].
Proof.
  assert (H : ["Doe, Jane"; " ACC-1 "] <> []) by discriminate.
  split; [exact H|].
  exact (parseCsvLine_quoted_round_trip ["Doe, Jane"; " ACC-1 "] H).
Defined.

Lemma upload_lines_ignore_line_endings_witness :
  Forall (no_char (fun c => Ascii.eqb c "010"%char)) ["from,to"; ""; " A,B "]
  /\ upload_lines (String.concat LF ["from,to"; ""; " A,B "])
     = filter (fun line => negb (String.eqb line ""))
         (map trim ["from,to"; ""; " A,B "])
  /\ upload_lines (String.concat CRLF ["from,to"; ""; " A,B "])
     = filter (fun line => negb (String.eqb line ""))
         (map trim ["from,to"; ""; " A,B "]).
Proof.
  assert (H : Forall (no_char (fun c => Ascii.eqb c "010"%char))
                ["from,to"; ""; " A,B "])
    by (repeat constructor).
  split; [exact H|].
  exact (upload_lines_ignore_line_endings ["from,to"; ""; " A,B "] H).
Defined.

Lemma short_rows_are_skipped_witness :
  (Datatypes.length (parseCsvLine "only-one-field") <= Nat.max 0 1)%nat
  /\ parse_rows 0 1 (["A,B"] ++ "only-one-field" :: ["B,C"])
     = parse_rows 0 1 (["A,B"] ++ ["B,C"]).
Proof.
  assert (H : (Datatypes.length (parseCsvLine "only-one-field")
               <= Nat.max 0 1)%nat)
    by (cbn; lia).
  split; [exact H|].
  exact (short_rows_are_skipped 0 1 ["A,B"] ["B,C"] "only-one-field" H).
Defined.

Lemma upload_success_is_wellformed_witness :
  analyze_upload (Some (csv_of_ledger LF ledger_triangle)) 0 5
  = Status200 (analyze 0 5 ledger_triangle)
  /\ exists txs,
       txs <> []
       /\ analyze 0 5 ledger_triangle = analyze 0 5 txs
       /\ Forall
            (fun tx => sender_id tx <> "" /\ receiver_id tx <> ""
                       /\ trim (sender_id tx) = sender_id tx
                       /\ trim (receiver_id tx) = receiver_id tx) txs
       /\ 1 <= total_accounts_analyzed (summary (analyze 0 5 ledger_triangle)).
Proof.
  assert (H : analyze_upload (Some (csv_of_ledger LF ledger_triangle)) 0 5
              = Status200 (analyze 0 5 ledger_triangle))
    by (vm_compute; reflexivity).
  split; [exact H|].
  exact (upload_success_is_wellformed _ 0 5 _ H).
Defined.

End Instances.

(* ------------------------------------------------------------------ *)
(** ** Rings and the order of the ledger *)

Section LedgerOrder.
Import JsObject JsObjectFacts.

Lemma edge_buildGraph txs a b :
  edge (fst (buildGraph txs)) a b
  <-> exists tx, In tx txs /\ sender_id tx = a /\ receiver_id tx = b.
Proof.
  unfold edge. rewrite get_buildGraph. unfold receivers_of. split.
  - intros (ns & G & Hb).
    assert (Hin : In b (map receiver_id
                          (filter (fun tx => String.eqb (sender_id tx) a)
                             txs))).
    { destruct (map receiver_id _); [discriminate|].
      injection G as <-. exact Hb. }
    apply in_map_iff in Hin. destruct Hin as (tx & Hr & Hin).
    apply filter_In in Hin. destruct Hin as [Hin Hs].
    apply String.eqb_eq in Hs. eauto.
  - intros (tx & Hin & Hs & Hr).
    assert (Hb : In b (map receiver_id
                         (filter (fun tx => String.eqb (sender_id tx) a)
                            txs))).
    { apply in_map_iff. exists tx. split; auto.
      apply filter_In. split; auto. now apply String.eqb_eq. }
    destruct (map receiver_id _) as [|r rs]; [contradiction|].
    exists (r :: rs). auto.
Qed.

Lemma chain_same_edges (g g' : Graph) p :
  (forall a b, edge g a b -> edge g' a b) -> chain g p -> chain g' p.
Proof.
  intros H. induction p as [|a p IH]; [auto|].
  destruct p as [|b p]; [auto|].
  intros Hc.
  change (edge g a b /\ chain g (b :: p)) in Hc.
  change (edge g' a b /\ chain g' (b :: p)).
  destruct Hc as [He Hc]. split; [now apply H|now apply IH].
Qed.

Lemma simple_cycle_same_edges (g g' : Graph) p :
  (forall a b, edge g a b -> edge g' a b) ->
  simple_cycle g p -> simple_cycle g' p.
Proof.
  intros H (Hnd & Hlen & Hc & He).
  repeat split; auto; try lia. now apply (chain_same_edges g g').
Qed.

(** X23. Which cycles are found depends on the set of transfers only:
    two ledgers with the same transactions, in whatever order and however
    often repeated, give rings with the same member lists (their order,
    their ids and how often a list is reported may differ). *)
Theorem rings_depend_on_transfers_only
    (txs txs' : list Transaction) (p : list string)
    (Hsame : forall tx, In tx txs <-> In tx txs') :
  In p (map Ring.member_accounts (detectCycles (fst (buildGraph txs))))
  <-> In p (map Ring.member_accounts
              (detectCycles (fst (buildGraph txs')))).
Proof.
  rewrite !detectCycles_members, !simple_cycle_recorded.
  split; apply simple_cycle_same_edges; intros a b He;
    apply edge_buildGraph in He; apply edge_buildGraph;
    destruct He as (tx & Hin & Hs & Hr); exists tx;
    (split; [now apply Hsame|auto]).
Qed.

Lemma rings_depend_on_transfers_only_witness :
  (forall tx,
      In tx ledger_triangle
      <-> In tx (mkTx "C" "A" :: mkTx "A" "B" :: ledger_triangle))
  /\ (In ["B"; "C"; "A"]
        (map Ring.member_accounts
           (detectCycles (fst (buildGraph ledger_triangle))))
      <-> In ["B"; "C"; "A"]
            (map Ring.member_accounts
               (detectCycles
                  (fst (buildGraph
                          (mkTx "C" "A" :: mkTx "A" "B"
                           :: ledger_triangle)))))).
Proof.
  assert (H : forall tx,
             In tx ledger_triangle
             <-> In tx (mkTx "C" "A" :: mkTx "A" "B" :: ledger_triangle))
    by (intros tx; cbn; tauto).
  split; [exact H|].
  exact (rings_depend_on_transfers_only ledger_triangle
           (mkTx "C" "A" :: mkTx "A" "B" :: ledger_triangle)
           ["B"; "C"; "A"] H).
Defined.

End LedgerOrder.


(* ------------------------------------------------------------------ *)
(** ** The engine on own properties and the engine as Node runs it *)

Section JsAgreement.
Import JsObject JsObjectFacts.

Lemma get_numbers (m : CountMap) k :
  get (numbers m) k = option_map Js.Num (get m k).
Proof.
  induction m as [|[k' n] m IH]; [reflexivity|].
  cbn [numbers map get fst snd]. fold (numbers m).
  destruct (String.eqb k' k); [reflexivity|exact IH].
Qed.

Lemma set_numbers (m : CountMap) k n :
  set (numbers m) k (Js.Num n) = numbers (set m k n).
Proof.
  induction m as [|[k' n'] m IH]; [reflexivity|].
  cbn [numbers map set fst snd]. fold (numbers m).
  destruct (String.eqb k' k); cbn [numbers map fst snd]; [reflexivity|].
  fold (numbers (set m k n)). now rewrite IH.
Qed.

Lemma own_names_numbers (m : CountMap) :
  own_names (numbers m) = own_names m.
Proof.
  unfold own_names, numbers. rewrite map_map. reflexivity.
Qed.

Lemma read_plain {V} (o : JsObject.t V) k :
  Js.inherited k = false ->
  Js.read o k = match get o k with
                | Some v => Js.Own v
                | None => Js.Absent
                end.
Proof. intros H. unfold Js.read. rewrite H. reflexivity. Qed.

Lemma bump_numbers (m : CountMap) k :
  Js.inherited k = false -> Js.bump (numbers m) k = numbers (bump m k).
Proof.
  intros H. unfold Js.bump, bump. rewrite read_plain, get_numbers by assumption.
  destruct (get m k) as [n|]; cbn [option_map js_or_zero];
    now rewrite set_numbers.
Qed.

Lemma ge_numbers (m : CountMap) k n :
  Js.ge (Js.read (numbers m) k) n = js_ge (get m k) n.
Proof.
  unfold Js.read. rewrite get_numbers.
  destruct (get m k); cbn [option_map Js.ge js_ge]; [reflexivity|].
  destruct (Js.inherited k); reflexivity.
Qed.

Lemma buildGraph_step_agree g (v : CountMap) tx :
  Js.inherited (sender_id tx) = false ->
  Js.buildGraph_step (g, numbers v) tx
  = Js.Returned (fst (buildGraph_step (g, v) tx),
                 numbers (snd (buildGraph_step (g, v) tx))).
Proof.
  intros H. unfold Js.buildGraph_step, buildGraph_step, push_at.
  rewrite !read_plain by assumption.
  destruct (get g (sender_id tx)) as [arr|] eqn:E.
  - rewrite !E. cbn [fst snd]. now rewrite bump_numbers.
  - rewrite !get_set_same. cbn [fst snd]. now rewrite bump_numbers.
Qed.

Lemma buildGraph_agree_from txs : forall g (v : CountMap),
  plain_senders txs ->
  fold_left
    (fun acc tx =>
       match acc with
       | Js.Returned st => Js.buildGraph_step st tx
       | Js.Thrown => Js.Thrown
       end) txs (Js.Returned (g, numbers v))
  = Js.Returned (fst (fold_left buildGraph_step txs (g, v)),
                 numbers (snd (fold_left buildGraph_step txs (g, v)))).
Proof.
  induction txs as [|tx txs IH]; intros g v Hp; [reflexivity|].
  inversion Hp as [|? ? Htx Hrest]; subst.
  cbn [fold_left]. rewrite buildGraph_step_agree by assumption.
  destruct (buildGraph_step (g, v) tx) as [g' v']. cbn [fst snd].
  now apply IH.
Qed.

(** Without an inherited name among the senders, [buildGraph] returns what
    it computes on own properties. *)
Lemma buildGraph_agree txs :
  plain_senders txs ->
  Js.buildGraph txs
  = Js.Returned (fst (buildGraph txs), numbers (snd (buildGraph txs))).
Proof. intros H. now apply (buildGraph_agree_from txs empty empty). Qed.

Lemma thrown_stays txs :
  fold_left
    (fun acc tx =>
       match acc with
       | Js.Returned st => Js.buildGraph_step st tx
       | Js.Thrown => Js.Thrown
       end) txs Js.Thrown
  = @Js.Thrown (Graph * Js.CountMap).
Proof. induction txs; auto. Qed.

Lemma plain_senders_split txs :
  plain_senders txs
  \/ exists before tx after,
       txs = before ++ tx :: after
       /\ plain_senders before
       /\ Js.inherited (sender_id tx) = true.
Proof.
  induction txs as [|tx txs IH]; [left; constructor|].
  destruct (Js.inherited (sender_id tx)) eqn:E.
  - right. exists [], tx, txs. repeat split; auto. constructor.
  - destruct IH as [IH|(before & t & after & -> & Hb & Ht)].
    + left. now constructor.
    + right. exists (tx :: before), t, after. repeat split; auto.
      now constructor.
Qed.

Lemma receivers_of_plain a txs :
  plain_senders txs -> Js.inherited a = true -> receivers_of a txs = [].
Proof.
  intros Hp Ha. unfold receivers_of.
  induction Hp as [|tx txs Htx _ IH]; [reflexivity|].
  cbn [filter]. destruct (String.eqb_spec (sender_id tx) a) as [E|];
    [congruence|exact IH].
Qed.

(** With an inherited name among the senders, [buildGraph] throws. *)
Lemma buildGraph_thrown txs :
  (exists tx, In tx txs /\ Js.inherited (sender_id tx) = true) ->
  Js.buildGraph txs = Js.Thrown.
Proof.
  intros (tx0 & Hin & H0).
  destruct (plain_senders_split txs)
    as [Hp|(before & tx & after & -> & Hb & Ht)].
  - unfold plain_senders in Hp. rewrite Forall_forall in Hp.
    rewrite (Hp tx0 Hin) in H0. discriminate.
  - unfold Js.buildGraph. rewrite fold_left_app.
    fold (Js.buildGraph before). rewrite buildGraph_agree by assumption.
    cbn [fold_left].
    assert (G : get (fst (buildGraph before)) (sender_id tx) = None).
    { rewrite get_buildGraph, receivers_of_plain; auto. }
    assert (T : Js.buildGraph_step
                  (fst (buildGraph before), numbers (snd (buildGraph before)))
                  tx = Js.Thrown).
    { unfold Js.buildGraph_step, Js.read. rewrite G, Ht. cbv iota.
      now rewrite ?G, ?Ht. }
    rewrite T. apply thrown_stays.
Qed.

Lemma detectFanPatterns_fanOut_agree txs : forall (fi : Js.CountMap) fo,
  plain_senders txs ->
  snd (fold_left Js.detectFanPatterns_step txs (fi, numbers fo))
  = numbers (tally fo (map sender_id txs)).
Proof.
  induction txs as [|tx txs IH]; intros fi fo Hp; [reflexivity|].
  inversion Hp as [|? ? Htx Hrest]; subst.
  cbn [fold_left Js.detectFanPatterns_step map].
  rewrite bump_numbers by assumption. now rewrite IH.
Qed.

Lemma detectFanPatterns_fanIn_agree txs : forall fi (fo : Js.CountMap),
  plain_receivers txs ->
  fst (fold_left Js.detectFanPatterns_step txs (numbers fi, fo))
  = numbers (tally fi (map receiver_id txs)).
Proof.
  induction txs as [|tx txs IH]; intros fi fo Hp; [reflexivity|].
  inversion Hp as [|? ? Htx Hrest]; subst.
  cbn [fold_left Js.detectFanPatterns_step map].
  rewrite bump_numbers by assumption. now rewrite IH.
Qed.

Lemma fanOut_agree txs :
  plain_senders txs ->
  snd (Js.detectFanPatterns txs) = numbers (snd (detectFanPatterns txs)).
Proof.
  intros H. unfold Js.detectFanPatterns, detectFanPatterns.
  rewrite detectFanPatterns_fanOut.
  now apply (detectFanPatterns_fanOut_agree txs empty empty).
Qed.

Lemma fanIn_agree txs :
  plain_receivers txs ->
  fst (Js.detectFanPatterns txs) = numbers (fst (detectFanPatterns txs)).
Proof.
  intros H. unfold Js.detectFanPatterns, detectFanPatterns.
  rewrite detectFanPatterns_fanIn.
  now apply (detectFanPatterns_fanIn_agree txs empty empty).
Qed.

Lemma calculateSuspicion_agree account rings (fanIn fanOut velocityMap : CountMap) :
  Js.calculateSuspicion account rings (numbers fanIn) (numbers fanOut)
    (numbers velocityMap)
  = calculateSuspicion account rings fanIn fanOut velocityMap.
Proof.
  unfold Js.calculateSuspicion, calculateSuspicion.
  unfold Js.suspicion_signals, suspicion_signals.
  now rewrite !ge_numbers.
Qed.

Lemma flag_account_agree rings (fanIn fanOut velocityMap : CountMap)
    accounts : forall suspicious,
  fold_left
    (Js.flag_account rings (numbers fanIn) (numbers fanOut)
       (numbers velocityMap)) accounts suspicious
  = fold_left (flag_account rings fanIn fanOut velocityMap)
      accounts suspicious.
Proof.
  induction accounts as [|acc accounts IH]; intros suspicious;
    [reflexivity|].
  cbn [fold_left]. unfold Js.flag_account at 2, flag_account at 2.
  rewrite calculateSuspicion_agree. apply IH.
Qed.

End JsAgreement.


(* ------------------------------------------------------------------ *)
(** ** The frame of an invocation of [detectCycles] *)

Section Frames.
Import JsObject JsObjectFacts.

Lemma store_set_get store : forall frame st st',
  nth_error store frame = Some st ->
  nth_error (Js.store_set store frame st') frame = Some st'.
Proof.
  induction store as [|x store IH]; intros [|frame] st st' H;
    cbn in *; try discriminate; eauto.
Qed.

Lemma store_set_set store : forall frame st st',
  Js.store_set (Js.store_set store frame st) frame st'
  = Js.store_set store frame st'.
Proof.
  induction store as [|x store IH]; intros [|frame] st st';
    cbn; try reflexivity. now rewrite IH.
Qed.

Lemma store_set_same store : forall frame st,
  nth_error store frame = Some st -> Js.store_set store frame st = store.
Proof.
  induction store as [|x store IH]; intros [|frame] st H;
    cbn in *; try discriminate.
  - now injection H as ->.
  - now rewrite IH.
Qed.

Lemma store_set_new store st st' :
  Js.store_set (store ++ [st]) (Datatypes.length store) st'
  = store ++ [st'].
Proof. induction store as [|x store IH]; cbn; congruence. Qed.

Lemma nth_error_new (store : Js.Store) st :
  nth_error (store ++ [st]) (Datatypes.length store) = Some st.
Proof. induction store; cbn; auto. Qed.

Lemma push_ring_in_set store frame st st' path :
  nth_error store frame = Some st ->
  Js.push_ring_in (Js.store_set store frame st') frame path
  = Js.store_set store frame (push_ring st' path).
Proof.
  intros H. unfold Js.push_ring_in.
  rewrite (store_set_get _ _ _ _ H). apply store_set_set.
Qed.

Variable graph : Graph.

Lemma dfs_js_unfold fuel frame start current path depth store :
  Js.dfs (S fuel) graph frame start current path depth store
  = if 6 <? depth then Some (Js.Returned store)
    else match Js.read graph current with
         | Js.Absent => Some (Js.Returned store)
         | Js.Inherited => Some Js.Thrown
         | Js.Own neighbors =>
             fold_left (neighbor_step_js graph fuel frame start path depth)
               neighbors (Some (Js.Returned store))
         end.
Proof. reflexivity. Qed.

Lemma dfs_unfold fuel start current path depth st :
  dfs (S fuel) graph start current path depth st
  = if 6 <? depth then Some st
    else match get graph current with
         | None => Some st
         | Some neighbors =>
             fold_left (neighbor_step graph fuel start path depth)
               neighbors (Some st)
         end.
Proof. reflexivity. Qed.

(** On a graph without inherited names among the neighbours, the closure
    in its frame does what [dfs] does on the variables of the frame. *)
Lemma dfs_in_frame (Hsafe : safe_graph graph) frame :
  forall fuel start current path depth store st,
    Js.inherited current = false \/ get graph current <> None ->
    nth_error store frame = Some st ->
    Js.dfs fuel graph frame start current path depth store
    = in_frame store frame (dfs fuel graph start current path depth st).
Proof.
  induction fuel as [|fuel IH];
    intros start current path depth store st Hcur Hst; [reflexivity|].
  rewrite dfs_js_unfold, dfs_unfold.
  destruct (6 <? depth).
  { cbn [in_frame]. now rewrite (store_set_same _ _ _ Hst). }
  unfold Js.read.
  destruct (get graph current) as [neighbors|] eqn:G.
  2:{ destruct Hcur as [-> |Hcur]; [|congruence].
      cbn [in_frame]. now rewrite (store_set_same _ _ _ Hst). }
  assert (Hn : forall n, In n neighbors -> Js.inherited n = false)
    by (intros n Hin; eapply Hsafe; eauto).
  clear G Hcur.
  rewrite <- (store_set_same _ _ _ Hst) at 1.
  change (Some (Js.Returned (Js.store_set store frame st)))
    with (in_frame store frame (Some st)).
  generalize (Some st) as acc.
  induction neighbors as [|n neighbors IHn]; intros acc; [reflexivity|].
  cbn [fold_left]. rewrite <- IHn by (intros; apply Hn; now right).
  f_equal. destruct acc as [st1|]; [|reflexivity].
  cbn [in_frame neighbor_step_js neighbor_step].
  match goal with
  | |- context [if ?c then Js.push_ring_in ?a ?b ?p else ?d] =>
      replace (if c then Js.push_ring_in a b p else d)
        with (Js.store_set store frame
                (if c then push_ring st1 path else st1))
        by (destruct c; [now rewrite (push_ring_in_set _ _ _ _ _ Hst)
                        |reflexivity])
  end.
  destruct (negb (includes path n)); [|reflexivity].
  rewrite (IH start n (path ++ [n]) (depth + 1) _
             (if String.eqb n start && (3 <=? Datatypes.length path)%nat
              then push_ring st1 path else st1)).
  - destruct (dfs fuel graph start n (path ++ [n]) (depth + 1) _);
      cbn [in_frame]; [|reflexivity].
    now rewrite store_set_set.
  - left. apply Hn. now left.
  - eapply store_set_get; eauto.
Qed.

(** Two closures, each with its own store and frame, on the same
    variables: they end alike, whatever the graph. *)
Lemma dfs_alike frame1 frame2 :
  forall fuel start current path depth store1 store2 st,
    nth_error store1 frame1 = Some st ->
    nth_error store2 frame2 = Some st ->
    alike store1 frame1 store2 frame2
      (Js.dfs fuel graph frame1 start current path depth store1)
      (Js.dfs fuel graph frame2 start current path depth store2).
Proof.
  induction fuel as [|fuel IH];
    intros start current path depth store1 store2 st H1 H2; [exact I|].
  rewrite !dfs_js_unfold.
  destruct (6 <? depth).
  { exists st. now rewrite !store_set_same. }
  destruct (Js.read graph current) as [neighbors| |].
  2:{ exact I. }
  2:{ exists st. now rewrite !store_set_same. }
  assert (Hstart :
            alike store1 frame1 store2 frame2
              (Some (Js.Returned store1)) (Some (Js.Returned store2))).
  { exists st. now rewrite !store_set_same. }
  assert (Hfold : forall ns acc1 acc2,
             alike store1 frame1 store2 frame2 acc1 acc2 ->
             alike store1 frame1 store2 frame2
               (fold_left (neighbor_step_js graph fuel frame1 start path depth)
                  ns acc1)
               (fold_left (neighbor_step_js graph fuel frame2 start path depth)
                  ns acc2));
    [|now apply Hfold].
  clear Hstart. intros ns.
  induction ns as [|n ns IHn]; intros acc1 acc2 Hacc; [exact Hacc|].
  cbn [fold_left]. apply IHn.
  destruct acc1 as [[s1|]|], acc2 as [[s2|]|]; cbn in Hacc;
    try contradiction; try exact I.
  destruct Hacc as (st1 & -> & ->).
  cbn [neighbor_step_js].
  rewrite !(push_ring_in_set _ _ _ _ _ H1), !(push_ring_in_set _ _ _ _ _ H2).
  set (st2 := if String.eqb n start && (3 <=? Datatypes.length path)%nat
              then push_ring st1 path else st1).
  replace (if String.eqb n start && (3 <=? Datatypes.length path)%nat
           then Js.store_set store1 frame1 (push_ring st1 path)
           else Js.store_set store1 frame1 st1)
    with (Js.store_set store1 frame1 st2)
    by (subst st2; now destruct (_ && _)).
  replace (if String.eqb n start && (3 <=? Datatypes.length path)%nat
           then Js.store_set store2 frame2 (push_ring st1 path)
           else Js.store_set store2 frame2 st1)
    with (Js.store_set store2 frame2 st2)
    by (subst st2; now destruct (_ && _)).
  destruct (negb (includes path n)); [|now exists st2].
  pose proof (IH start n (path ++ [n]) (depth + 1)
                (Js.store_set store1 frame1 st2)
                (Js.store_set store2 frame2 st2) st2
                (store_set_get _ _ _ _ H1) (store_set_get _ _ _ _ H2)) as H.
  destruct (Js.dfs fuel graph frame1 start n _ _ _) as [[s1|]|],
    (Js.dfs fuel graph frame2 start n _ _ _) as [[s2|]|];
    cbn in H |- *; try contradiction; try exact I.
  destruct H as (st3 & -> & ->). exists st3.
  now rewrite !store_set_set.
Qed.

End Frames.

(* ------------------------------------------------------------------ *)
(** ** The engine on ledgers without inherited names *)

Section EngineAgreement.
Import JsObject JsObjectFacts.

Lemma In_names_get {V} (o : JsObject.t V) k :
  In k (own_names o) -> get o k <> None.
Proof.
  induction o as [|[k0 v0] o IH]; simpl; [tauto|].
  intros [->|H].
  - now rewrite String.eqb_refl.
  - destruct (String.eqb k0 k); [discriminate|auto].
Qed.

Lemma keys_get {V} (o : JsObject.t V) k :
  In k (keys o) -> get o k <> None.
Proof.
  intros H. apply In_names_get.
  exact (Permutation_in _ (keys_perm o) H).
Qed.

(** On a graph without inherited names among the neighbours,
    [detectCycles] returns the rings of the version on own properties and
    leaves one more frame in the store. *)
Lemma detectCycles_safe graph store :
  safe_graph graph ->
  Js.detectCycles store graph
  = Js.Returned (detectCycles graph, store ++ [frame_left graph]).
Proof.
  intros Hsafe. unfold Js.detectCycles, Js.detectCycles_run.
  set (init := {| rings := []; ringCount := 1 |}).
  set (frame := Datatypes.length store).
  set (store1 := store ++ [init]).
  assert (Hinit : nth_error store1 frame = Some init)
    by apply nth_error_new.
  assert (Hfold : forall ks o,
    (forall k, In k ks -> In k (keys graph)) ->
    fold_left
      (fun acc node =>
         match acc with
         | Some (Js.Returned s) =>
             Js.dfs dfs_fuel graph frame node node [node] 0 s
         | other => other
         end) ks (in_frame store1 frame o)
    = in_frame store1 frame
        (fold_left
           (fun acc node =>
              match acc with
              | None => None
              | Some st => dfs dfs_fuel graph node node [node] 0 st
              end) ks o)).
  { induction ks as [|k ks IH]; intros o Hks; [reflexivity|].
    cbn [fold_left]. destruct o as [st|]; cbn [in_frame].
    - rewrite (dfs_in_frame graph Hsafe frame _ _ _ _ _ _ st).
      + assert (E : forall o',
          in_frame (Js.store_set store1 frame st) frame o'
          = in_frame store1 frame o').
        { intros [st'|]; cbn [in_frame]; [|reflexivity].
          now rewrite store_set_set. }
        rewrite E. apply IH. intros k' Hk'. apply Hks. now right.
      + right. apply keys_get. apply Hks. now left.
      + eapply store_set_get; eauto.
    - apply (IH None). intros k' Hk'. apply Hks. now right. }
  assert (Hstart : Some (Js.Returned store1)
                   = in_frame store1 frame (Some init)).
  { cbn [in_frame]. now rewrite (store_set_same _ _ _ Hinit). }
  rewrite Hstart, Hfold by auto.
  pose proof (detectCycles_run_all graph) as Hall.
  unfold detectCycles. rewrite Hall.
  unfold detectCycles_run in Hall. fold init in Hall. rewrite Hall.
  cbn [in_frame].
  rewrite (store_set_get _ _ _ _ Hinit).
  unfold store1, frame. rewrite store_set_new. reflexivity.
Qed.

(** The graph of a ledger without inherited names among the receivers has
    none among its neighbours. *)
Lemma safe_graph_ledger txs :
  plain_receivers txs -> safe_graph (fst (buildGraph txs)).
Proof.
  intros Hp k neighbors n Hget Hn.
  rewrite get_buildGraph in Hget.
  assert (Hin : In n (receivers_of k txs)).
  { destruct (receivers_of k txs); [discriminate|].
    injection Hget as <-. exact Hn. }
  unfold receivers_of in Hin. apply in_map_iff in Hin.
  destruct Hin as (tx & <- & Htx). apply filter_In in Htx.
  unfold plain_receivers in Hp. rewrite Forall_forall in Hp.
  apply Hp. tauto.
Qed.

(** On a ledger without inherited names, the engine returns the report of
    the version on own properties. *)
Lemma analyze_plain store startTime endTime txs :
  plain_ledger txs ->
  Js.analyze store startTime endTime txs
  = Js.Returned (analyze startTime endTime txs,
                 store ++ [frame_left (fst (buildGraph txs))]).
Proof.
  intros [Hs Hr]. unfold Js.analyze.
  rewrite (buildGraph_agree txs Hs).
  rewrite (detectCycles_safe _ store (safe_graph_ledger txs Hr)).
  pose proof (fanIn_agree txs Hr) as Hin.
  pose proof (fanOut_agree txs Hs) as Hout.
  unfold analyze.
  destruct (buildGraph txs) as [graph velocityMap].
  destruct (Js.detectFanPatterns txs) as [fanInJ fanOutJ].
  destruct (detectFanPatterns txs) as [fanIn fanOut].
  cbn [fst snd] in *. subst fanInJ fanOutJ.
  rewrite flag_account_agree. reflexivity.
Qed.

End EngineAgreement.

(* ------------------------------------------------------------------ *)
(** ** The engine and the frames of earlier invocations *)

Section StoreIndependence.
Import JsObject JsObjectFacts.

(** What [detectCycles] gives does not depend on the frames that earlier
    invocations left. *)
Lemma detectCycles_any_store graph store1 store2 :
  match Js.detectCycles store1 graph, Js.detectCycles store2 graph with
  | Js.Returned (rings1, _), Js.Returned (rings2, _) => rings1 = rings2
  | Js.Thrown, Js.Thrown => True
  | _, _ => False
  end.
Proof.
  unfold Js.detectCycles, Js.detectCycles_run.
  set (init := {| rings := []; ringCount := 1 |}).
  set (f1 := Datatypes.length store1).
  set (f2 := Datatypes.length store2).
  set (s1 := store1 ++ [init]).
  set (s2 := store2 ++ [init]).
  assert (H1 : nth_error s1 f1 = Some init) by apply nth_error_new.
  assert (H2 : nth_error s2 f2 = Some init) by apply nth_error_new.
  assert (Hfold : forall ks o1 o2,
    alike s1 f1 s2 f2 o1 o2 ->
    alike s1 f1 s2 f2
      (fold_left
         (fun acc node =>
            match acc with
            | Some (Js.Returned s) =>
                Js.dfs dfs_fuel graph f1 node node [node] 0 s
            | other => other
            end) ks o1)
      (fold_left
         (fun acc node =>
            match acc with
            | Some (Js.Returned s) =>
                Js.dfs dfs_fuel graph f2 node node [node] 0 s
            | other => other
            end) ks o2)).
  { induction ks as [|k ks IH]; intros o1 o2 Ho; [exact Ho|].
    cbn [fold_left]. apply IH.
    destruct o1 as [[a1|]|], o2 as [[a2|]|]; cbn [alike] in Ho |- *;
      try contradiction; try exact I.
    destruct Ho as (st & -> & ->).
    pose proof (dfs_alike graph f1 f2 dfs_fuel k k [k] 0
                  (Js.store_set s1 f1 st) (Js.store_set s2 f2 st) st
                  (store_set_get _ _ _ _ H1) (store_set_get _ _ _ _ H2))
      as Hd.
    destruct (Js.dfs dfs_fuel graph f1 k k [k] 0 (Js.store_set s1 f1 st))
      as [[b1|]|],
      (Js.dfs dfs_fuel graph f2 k k [k] 0 (Js.store_set s2 f2 st))
      as [[b2|]|]; cbn [alike] in Hd |- *; try contradiction; try exact I.
    destruct Hd as (st' & -> & ->). exists st'.
    now rewrite !store_set_set. }
  assert (Hstart : alike s1 f1 s2 f2
                     (Some (Js.Returned s1)) (Some (Js.Returned s2))).
  { exists init. now rewrite !(store_set_same _ _ _ H1),
                              !(store_set_same _ _ _ H2). }
  specialize (Hfold (keys graph) _ _ Hstart).
  match type of Hfold with
  | alike _ _ _ _ ?x ?y => destruct x as [[b1|]|], y as [[b2|]|]
  end; cbn [alike] in Hfold; try contradiction; try exact I.
  destruct Hfold as (st & -> & ->).
  rewrite (store_set_get _ _ _ _ H1), (store_set_get _ _ _ _ H2).
  reflexivity.
Qed.

Lemma analyze_any_store txs store1 store2 start1 end1 start2 end2 :
  engine_output (Js.analyze store1 start1 end1 txs)
  = engine_output (Js.analyze store2 start2 end2 txs).
Proof.
  unfold Js.analyze.
  destruct (Js.buildGraph txs) as [[graph velocityMap]|]; [|reflexivity].
  pose proof (detectCycles_any_store graph store1 store2) as H.
  destruct (Js.detectCycles store1 graph) as [[rings1 s1]|],
    (Js.detectCycles store2 graph) as [[rings2 s2]|];
    try contradiction; [|reflexivity].
  subst rings2.
  destruct (Js.detectFanPatterns txs) as [fanIn fanOut].
  reflexivity.
Qed.

End StoreIndependence.

(* ------------------------------------------------------------------ *)
(** ** The engine on ledgers with an inherited name *)

Section EngineThrows.
Import JsObject JsObjectFacts.

Lemma fold_thrown_stays {S X : Type}
    (step : option (Js.Outcome S) -> X -> option (Js.Outcome S)) xs :
  (forall x, step (Some Js.Thrown) x = Some Js.Thrown) ->
  fold_left step xs (Some Js.Thrown) = Some Js.Thrown.
Proof.
  intros Hst. induction xs as [|x xs IH]; [reflexivity|].
  cbn [fold_left]. now rewrite Hst.
Qed.

Lemma fold_outcome_total {S X : Type}
    (step : option (Js.Outcome S) -> X -> option (Js.Outcome S)) xs :
  (forall x, step (Some Js.Thrown) x = Some Js.Thrown) ->
  (forall s x, In x xs -> step (Some (Js.Returned s)) x <> None) ->
  forall acc, acc <> None -> fold_left step xs acc <> None.
Proof.
  intros Hst. induction xs as [|x xs IH]; intros Htot acc Hacc; [exact Hacc|].
  cbn [fold_left]. apply IH.
  - intros s y Hy. apply Htot. now right.
  - destruct acc as [[s|]|].
    + apply Htot. now left.
    + rewrite Hst. discriminate.
    + congruence.
Qed.

Lemma fold_outcome_thrown {S X : Type}
    (step : option (Js.Outcome S) -> X -> option (Js.Outcome S)) xs x0 :
  (forall x, step (Some Js.Thrown) x = Some Js.Thrown) ->
  (forall s x, In x xs -> step (Some (Js.Returned s)) x <> None) ->
  In x0 xs ->
  (forall s, step (Some (Js.Returned s)) x0 = Some Js.Thrown) ->
  forall acc, acc <> None -> fold_left step xs acc = Some Js.Thrown.
Proof.
  intros Hst. induction xs as [|x xs IH]; intros Htot Hin Hx0 acc Hacc;
    [contradiction|].
  cbn [fold_left]. destruct Hin as [->|Hin].
  - destruct acc as [[s|]|]; [| |congruence].
    + rewrite Hx0. now apply fold_thrown_stays.
    + rewrite Hst. now apply fold_thrown_stays.
  - apply IH; auto.
    + intros s y Hy. apply Htot. now right.
    + destruct acc as [[s|]|].
      * apply Htot. now left.
      * rewrite Hst. discriminate.
      * congruence.
Qed.

(** Eight nested calls are enough for any graph: [dfs] returns or throws. *)
Lemma dfs_js_total graph frame : forall fuel start current path depth store,
  (1 <= fuel)%nat -> 7 - depth < Z.of_nat fuel ->
  Js.dfs fuel graph frame start current path depth store <> None.
Proof.
  induction fuel as [|fuel IH];
    intros start current path depth store H1 Hd; [lia|].
  rewrite dfs_js_unfold. destruct (Z.ltb_spec 6 depth) as [|Hle];
    [discriminate|].
  destruct (Js.read graph current); try discriminate.
  apply fold_outcome_total; [reflexivity| |discriminate].
  intros s n _. cbn [neighbor_step_js].
  destruct (negb (includes path n)); [|discriminate].
  apply IH; lia.
Qed.

(** A search from a key that has an inherited name among its neighbours
    throws. *)
Lemma dfs_js_throws graph frame k n neighbors store :
  get graph k = Some neighbors -> In n neighbors ->
  get graph n = None -> Js.inherited n = true -> Js.inherited k = false ->
  Js.dfs dfs_fuel graph frame k k [k] 0 store = Some Js.Thrown.
Proof.
  intros Hk Hn Hnone Hinh Hplain. unfold dfs_fuel.
  rewrite dfs_js_unfold. cbn [Z.ltb Z.compare].
  unfold Js.read at 1. rewrite Hk.
  apply fold_outcome_thrown with (x0 := n);
    [reflexivity| |exact Hn| |discriminate].
  - intros s x _. cbn [neighbor_step_js].
    destruct (negb (includes [k] x)); [|discriminate].
    apply dfs_js_total; lia.
  - intros s. cbn [neighbor_step_js].
    assert (Hne : includes [k] n = false).
    { apply includes_false. intros [->|[]]. congruence. }
    rewrite Hne. cbn [negb].
    rewrite dfs_js_unfold. cbn [Z.add Z.ltb Z.compare Pos.compare Pos.compare_cont].
    unfold Js.read. now rewrite Hnone, Hinh.
Qed.

Lemma detectCycles_thrown graph store k n neighbors :
  get graph k = Some neighbors -> In n neighbors ->
  get graph n = None -> Js.inherited n = true -> Js.inherited k = false ->
  Js.detectCycles store graph = Js.Thrown.
Proof.
  intros Hk Hn Hnone Hinh Hplain.
  unfold Js.detectCycles, Js.detectCycles_run.
  rewrite fold_outcome_thrown with (x0 := k);
    [reflexivity|reflexivity| | | |discriminate].
  - intros s x _. apply dfs_js_total; unfold dfs_fuel; lia.
  - apply (Permutation_in _ (Permutation_sym (keys_perm graph))).
    eapply get_In_names; eauto.
  - intros s. eapply dfs_js_throws; eauto.
Qed.

Lemma plain_receivers_split txs :
  plain_receivers txs
  \/ exists tx, In tx txs /\ Js.inherited (receiver_id tx) = true.
Proof.
  induction txs as [|tx txs IH]; [left; constructor|].
  destruct (Js.inherited (receiver_id tx)) eqn:E.
  - right. exists tx. split; [now left|exact E].
  - destruct IH as [IH|(t & Hin & Ht)].
    + left. now constructor.
    + right. exists t. split; [now right|exact Ht].
Qed.

(** With an inherited name among the receivers and none among the
    senders, the graph is built and [detectCycles] throws. *)
Lemma detectCycles_ledger_thrown txs store :
  plain_senders txs ->
  (exists tx, In tx txs /\ Js.inherited (receiver_id tx) = true) ->
  Js.detectCycles store (fst (buildGraph txs)) = Js.Thrown.
Proof.
  intros Hs (tx & Hin & Hr).
  assert (Hk : In (receiver_id tx) (receivers_of (sender_id tx) txs)).
  { unfold receivers_of. apply in_map. apply filter_In. split; auto.
    apply String.eqb_refl. }
  apply detectCycles_thrown
    with (k := sender_id tx) (n := receiver_id tx)
         (neighbors := receivers_of (sender_id tx) txs); auto.
  - rewrite get_buildGraph.
    destruct (receivers_of (sender_id tx) txs); [contradiction|reflexivity].
  - rewrite get_buildGraph. now rewrite receivers_of_plain.
  - unfold plain_senders in Hs. rewrite Forall_forall in Hs. now apply Hs.
Qed.

(** The engine throws when an id of the ledger is an inherited name. *)
Lemma analyze_thrown store startTime endTime txs :
  ~ plain_ledger txs ->
  Js.analyze store startTime endTime txs = Js.Thrown.
Proof.
  intros Hnot. unfold Js.analyze.
  destruct (plain_senders_split txs)
    as [Hs|(before & tx & after & -> & _ & Ht)].
  - destruct (plain_receivers_split txs) as [Hr|Hr].
    + exfalso. apply Hnot. now split.
    + rewrite (buildGraph_agree txs Hs).
      now rewrite (detectCycles_ledger_thrown txs store Hs Hr).
  - rewrite buildGraph_thrown; [reflexivity|].
    exists tx. split; [|exact Ht]. apply in_or_app. right. now left.
Qed.

End EngineThrows.

(* ------------------------------------------------------------------ *)
(** ** Wherever the search returns, it is the search on own properties *)

Section SearchReturns.
Import JsObject JsObjectFacts.

Lemma fold_none_stays {S X : Type}
    (step : option (Js.Outcome S) -> X -> option (Js.Outcome S)) xs :
  (forall x, step None x = None) -> fold_left step xs None = None.
Proof.
  intros Hst. induction xs as [|x xs IH]; [reflexivity|].
  cbn [fold_left]. now rewrite Hst.
Qed.

Lemma push_ring_in_frame store frame st path :
  nth_error store frame = Some st ->
  Js.push_ring_in store frame path
  = Js.store_set store frame (push_ring st path).
Proof. intros H. unfold Js.push_ring_in. now rewrite H. Qed.

Variable graph : Graph.
Variable frame : nat.

Lemma dfs_returned : forall fuel start current path depth store st store',
  nth_error store frame = Some st ->
  Js.dfs fuel graph frame start current path depth store
  = Some (Js.Returned store') ->
  exists st',
    dfs fuel graph start current path depth st = Some st'
    /\ store' = Js.store_set store frame st'.
Proof.
  induction fuel as [|fuel IH];
    intros start current path depth store st store' Hst Hret;
    [discriminate|].
  rewrite dfs_js_unfold in Hret. rewrite dfs_unfold.
  destruct (6 <? depth).
  { injection Hret as <-. exists st. split; auto.
    now rewrite (store_set_same _ _ _ Hst). }
  unfold Js.read in Hret.
  destruct (get graph current) as [neighbors|].
  2:{ destruct (Js.inherited current); [discriminate|].
      injection Hret as <-. exists st. split; auto.
      now rewrite (store_set_same _ _ _ Hst). }
  revert store st Hst Hret.
  induction neighbors as [|n ns IHn]; intros store st Hst Hret.
  { cbn [fold_left] in *. injection Hret as <-. exists st. split; auto.
    now rewrite (store_set_same _ _ _ Hst). }
  cbn [fold_left] in Hret |- *.
  cbn [neighbor_step_js] in Hret. cbn [neighbor_step].
  set (hit := String.eqb n start && (3 <=? Datatypes.length path)%nat) in *.
  set (st1 := if hit then push_ring st path else st).
  assert (E1 : (if hit then Js.push_ring_in store frame path else store)
               = Js.store_set store frame st1).
  { unfold st1. destruct hit.
    - now apply push_ring_in_frame.
    - now rewrite (store_set_same _ _ _ Hst). }
  rewrite E1 in Hret.
  assert (H1 : nth_error (Js.store_set store frame st1) frame = Some st1)
    by (eapply store_set_get; eauto).
  destruct (negb (includes path n)).
  - destruct (Js.dfs fuel graph frame start n (path ++ [n]) (depth + 1)
                (Js.store_set store frame st1)) as [[s1|]|] eqn:Ed.
    + destruct (IH _ _ _ _ _ _ _ H1 Ed) as (st2 & E2 & ->).
      rewrite E2. rewrite store_set_set in Hret.
      destruct (IHn (Js.store_set store frame st2) st2) as (st' & E' & ->);
        [eapply store_set_get; eauto|exact Hret|].
      exists st'. split; auto. now rewrite store_set_set.
    + rewrite fold_thrown_stays in Hret by reflexivity. discriminate.
    + rewrite fold_none_stays in Hret by reflexivity. discriminate.
  - destruct (IHn (Js.store_set store frame st1) st1) as (st' & E' & ->);
      [exact H1|exact Hret|].
    exists st'. split; auto. now rewrite store_set_set.
Qed.

End SearchReturns.

Section DetectCyclesReturns.
Import JsObject JsObjectFacts.

(** Whenever [detectCycles] returns, it returns the rings of the version
    on own properties and leaves one more frame in the store. *)
Lemma detectCycles_returned graph store found store' :
  Js.detectCycles store graph = Js.Returned (found, store') ->
  found = detectCycles graph /\ store' = store ++ [frame_left graph].
Proof.
  unfold Js.detectCycles, Js.detectCycles_run.
  set (init := {| rings := []; ringCount := 1 |}).
  set (frame := Datatypes.length store).
  set (store1 := store ++ [init]).
  assert (Hinit : nth_error store1 frame = Some init)
    by apply nth_error_new.
  assert (Hfold : forall ks s st s',
    nth_error s frame = Some st ->
    fold_left
      (fun acc node =>
         match acc with
         | Some (Js.Returned s) =>
             Js.dfs dfs_fuel graph frame node node [node] 0 s
         | other => other
         end) ks (Some (Js.Returned s))
    = Some (Js.Returned s') ->
    exists st',
      fold_left
        (fun acc node =>
           match acc with
           | None => None
           | Some st => dfs dfs_fuel graph node node [node] 0 st
           end) ks (Some st) = Some st'
      /\ s' = Js.store_set s frame st').
  { induction ks as [|k ks IH]; intros s st s' Hst Hret.
    - cbn [fold_left] in *. injection Hret as <-. exists st. split; auto.
      now rewrite (store_set_same _ _ _ Hst).
    - cbn [fold_left] in *.
      destruct (Js.dfs dfs_fuel graph frame k k [k] 0 s) as [[s1|]|] eqn:Ed.
      + destruct (dfs_returned graph frame _ _ _ _ _ _ _ _ Hst Ed)
          as (st2 & E2 & ->).
        rewrite E2.
        destruct (IH (Js.store_set s frame st2) st2 s') as (st' & E' & ->);
          [eapply store_set_get; eauto|exact Hret|].
        exists st'. split; auto. now rewrite store_set_set.
      + rewrite fold_thrown_stays in Hret by reflexivity. discriminate.
      + rewrite fold_none_stays in Hret by reflexivity. discriminate. }
  intros Hret.
  match type of Hret with
  | match match ?f with _ => _ end with _ => _ end = _ =>
      destruct f as [[s1|]|] eqn:Ef; try discriminate
  end.
  destruct (Hfold _ _ _ _ Hinit Ef) as (st' & E' & ->).
  rewrite (store_set_get _ _ _ _ Hinit) in Hret.
  injection Hret as <- <-.
  pose proof (detectCycles_run_all graph) as Hall.
  unfold detectCycles. rewrite Hall.
  unfold detectCycles_run in Hall. fold init in Hall.
  rewrite Hall in E'. injection E' as <-.
  unfold store1, frame. rewrite store_set_new. auto.
Qed.

End DetectCyclesReturns.

(* ------------------------------------------------------------------ *)
(** ** The two cases of the engine *)

Section EngineCases.
Import JsObject JsObjectFacts.

Lemma plain_ledger_cases txs : plain_ledger txs \/ ~ plain_ledger txs.
Proof.
  destruct (plain_senders_split txs)
    as [Hs|(before & tx & after & -> & _ & Ht)].
  - destruct (plain_receivers_split txs) as [Hr|(tx & Hin & Ht)].
    + left. now split.
    + right. intros [_ Hr]. unfold plain_receivers in Hr.
      rewrite Forall_forall in Hr. specialize (Hr tx Hin). congruence.
  - right. intros [Hs _]. unfold plain_senders in Hs.
    rewrite Forall_forall in Hs.
    assert (Hin : In tx (before ++ tx :: after))
      by (apply in_or_app; right; now left).
    specialize (Hs tx Hin). congruence.
Qed.

Lemma analyze_cases store startTime endTime txs :
  (plain_ledger txs
   /\ Js.analyze store startTime endTime txs
      = Js.Returned (analyze startTime endTime txs,
                     store ++ [frame_left (fst (buildGraph txs))]))
  \/ (~ plain_ledger txs
      /\ Js.analyze store startTime endTime txs = Js.Thrown).
Proof.
  destruct (plain_ledger_cases txs) as [H|H].
  - left. split; auto. now apply analyze_plain.
  - right. split; auto. now apply analyze_thrown.
Qed.

(** What [buildGraph] returns, when it returns. *)
Lemma buildGraph_returned txs graph velocityMap :
  Js.buildGraph txs = Js.Returned (graph, velocityMap) ->
  plain_senders txs
  /\ graph = fst (buildGraph txs)
  /\ velocityMap = numbers (snd (buildGraph txs)).
Proof.
  intros H.
  destruct (plain_senders_split txs)
    as [Hs|(before & tx & after & -> & _ & Ht)].
  - rewrite (buildGraph_agree txs Hs) in H. injection H as <- <-. auto.
  - rewrite buildGraph_thrown in H; [discriminate|].
    exists tx. split; [|exact Ht]. apply in_or_app. right. now left.
Qed.

Lemma total_numbers (m : CountMap) :
  total_count (numbers m) = Some (sum_counts m).
Proof.
  induction m as [|[k n] m IH]; [reflexivity|].
  cbn [numbers map fst snd total_count sum_counts]. fold (numbers m).
  now rewrite IH.
Qed.

Lemma simple_cycle_rotations graph pre : forall post,
  simple_cycle graph (pre ++ post) -> simple_cycle graph (post ++ pre).
Proof.
  induction pre as [|a pre IH]; intros post H.
  - now rewrite app_nil_r.
  - cbn [app] in H. apply simple_cycle_rotate in H.
    rewrite <- app_assoc in H. apply IH in H.
    now rewrite <- app_assoc in H.
Qed.

End EngineCases.

(* ------------------------------------------------------------------ *)
(** ** The engine as Node runs it: rings, counts, runs *)

Section EngineTheorems.
Import JsObject JsObjectFacts.

Lemma plain_triangle a b c txs :
  Js.inherited a = false -> Js.inherited b = false ->
  Js.inherited c = false ->
  Permutation txs [mkTx a b; mkTx b c; mkTx c a] ->
  plain_ledger txs.
Proof.
  intros Ha Hb Hc Htxs. apply Permutation_sym in Htxs.
  split; apply (Permutation_Forall Htxs); repeat constructor; assumption.
Qed.

(** C2 (amended). A ledger that holds exactly the transfers a -> b, b -> c,
    c -> a between three different accounts, in any order, where none of
    the three ids is the name of a member of [Object.prototype]:
    [buildGraph] returns, and [detectCycles] returns on its graph, in
    whatever store, exactly three rings, RING_001 to RING_003: one per
    start node of the outer loop, in the order the loop visits the keys
    of the graph, each beginning with its start node.  Their member lists
    are the three rotations of [a, b, c], and each has risk score 93. *)
Theorem triangle_yields_three_rings
    (a b c : string) (txs : list Transaction) (store : Js.Store)
    (Hab : a <> b) (Hbc : b <> c) (Hca : c <> a)
    (Ha : Js.inherited a = false) (Hb : Js.inherited b = false)
    (Hc : Js.inherited c = false)
    (Htxs : Permutation txs [mkTx a b; mkTx b c; mkTx c a]) :
  exists graph velocityMap found store',
    Js.buildGraph txs = Js.Returned (graph, velocityMap)
    /\ Js.detectCycles store graph = Js.Returned (found, store')
    /\ map Ring.ring_id found = ["RING_001"; "RING_002"; "RING_003"]
    /\ Permutation (map Ring.member_accounts found)
         [[a; b; c]; [b; c; a]; [c; a; b]]
    /\ map (hd "") (map Ring.member_accounts found) = keys graph
    /\ Forall (fun r => Ring.risk_score r = 93
                        /\ Ring.pattern_type r = "cycle") found.
Proof.
  destruct (plain_triangle a b c txs Ha Hb Hc Htxs) as [Hs Hr].
  exists (fst (buildGraph txs)), (numbers (snd (buildGraph txs))),
    (detectCycles (fst (buildGraph txs))),
    (store ++ [frame_left (fst (buildGraph txs))]).
  split; [now apply buildGraph_agree|].
  split; [apply detectCycles_safe; now apply safe_graph_ledger|].
  exact (triangle_rings a b c Hab Hbc Hca txs Htxs).
Qed.

(** C5. The defect: with a sender named like a member of
    [Object.prototype], here in the one-row ledger constructor -> B,
    [buildGraph] throws at [push] and produces no velocity map, and the
    FanOut entry of that sender is a text, not a count.  Everywhere else
    the claim holds: whenever [buildGraph] returns, which it does exactly
    when no sender has such a name, its velocity map and the FanOut
    mapping of [detectFanPatterns] have the same keys in the same order
    with the same counts, and both map an account to the number of
    transactions that list it as sender (an account that never sends has
    no entry). *)
Theorem fanOut_is_velocityMap :
  Js.buildGraph [mkTx "constructor" "B"] = Js.Thrown
  /\ snd (Js.detectFanPatterns [mkTx "constructor" "B"])
     = [("constructor", Js.Text)]
  /\ forall txs : list Transaction,
       match Js.buildGraph txs with
       | Js.Thrown =>
           exists tx, In tx txs /\ Js.inherited (sender_id tx) = true
       | Js.Returned (_, velocityMap) =>
           plain_senders txs
           /\ snd (Js.detectFanPatterns txs) = velocityMap
           /\ forall a,
                get velocityMap a
                = if sent_by a txs =? 0 then None
                  else Some (Js.Num (sent_by a txs))
       end.
Proof.
  split; [reflexivity|]. split; [reflexivity|]. intros txs.
  destruct (plain_senders_split txs)
    as [Hs|(before & tx & after & -> & _ & Ht)].
  - rewrite (buildGraph_agree txs Hs).
    destruct (fanOut_velocity_own txs) as [E Hget].
    split; [exact Hs|]. split.
    + rewrite (fanOut_agree txs Hs). now rewrite E.
    + intros a. rewrite get_numbers. destruct (Hget a) as [-> _].
      destruct (sent_by a (txs) =? 0); reflexivity.
  - assert (Hin : In tx (before ++ tx :: after))
      by (apply in_or_app; right; now left).
    rewrite buildGraph_thrown by eauto. eauto.
Qed.

Lemma frame_left_count graph :
  ringCount (frame_left graph)
  = S (Datatypes.length (detectCycles graph)).
Proof.
  unfold frame_left. rewrite push_rings_count, detectCycles_number.
  rewrite number_rings_length. reflexivity.
Qed.

Lemma detectCycles_ids graph :
  map Ring.ring_id (detectCycles graph)
  = map ring_name (seq 1 (Datatypes.length (detectCycles graph))).
Proof.
  rewrite detectCycles_number, number_rings_ids, number_rings_length.
  reflexivity.
Qed.

(** C9. Two runs of the engine on the same ledger, in whatever stores
    (whatever frames earlier invocations of [detectCycles] left, with
    whatever counters) and whatever the clock shows, give the same
    outcome: both throw, or both return the same ranked accounts, the
    same rings with the same ids and the same counts.  That holds in
    particular for a second run in the store that the first run left:
    when the first run returns, its rings are numbered RING_001,
    RING_002, ... in discovery order, it leaves one more frame in the
    store, whose counter stands at the number of rings plus one, and the
    second run in that store gives the same output again. *)
Theorem engine_deterministic
    (txs : list Transaction) (store1 store2 : Js.Store)
    (start1 end1 start2 end2 : Z) :
  engine_output (Js.analyze store1 start1 end1 txs)
  = engine_output (Js.analyze store2 start2 end2 txs)
  /\ match Js.analyze store1 start1 end1 txs with
     | Js.Thrown => Js.analyze store2 start2 end2 txs = Js.Thrown
     | Js.Returned (report, store') =>
         engine_output (Js.analyze store' start2 end2 txs)
         = engine_output (Js.Returned (report, store'))
         /\ map Ring.ring_id (fraud_rings report)
            = map ring_name
                (seq 1 (Datatypes.length (fraud_rings report)))
         /\ exists frame,
              store' = store1 ++ [frame]
              /\ rings frame = fraud_rings report
              /\ ringCount frame
                 = S (Datatypes.length (fraud_rings report))
     end.
Proof.
  split; [apply analyze_any_store|].
  destruct (analyze_cases store1 start1 end1 txs) as [[Hp E]|[Hn E]];
    rewrite E; cbv beta iota.
  - split; [|split].
    + transitivity (engine_output (Js.analyze store1 start1 end1 txs));
        [apply analyze_any_store|now rewrite E].
    + rewrite analyze_fraud_rings. apply detectCycles_ids.
    + exists (frame_left (fst (buildGraph txs))).
      rewrite analyze_fraud_rings, frame_left_count.
      repeat split. unfold frame_left, detectCycles.
      now rewrite detectCycles_run_all.
  - now apply analyze_thrown.
Qed.

Lemma triangle_yields_three_rings_witness :
  ("A" <> "B" /\ "B" <> "C" /\ "C" <> "A"
   /\ Js.inherited "A" = false /\ Js.inherited "B" = false
   /\ Js.inherited "C" = false
   /\ Permutation ledger_triangle [mkTx "A" "B"; mkTx "B" "C"; mkTx "C" "A"])
  /\ exists graph velocityMap found store',
       Js.buildGraph ledger_triangle = Js.Returned (graph, velocityMap)
       /\ Js.detectCycles [{| rings := []; ringCount := 7 |}] graph
          = Js.Returned (found, store')
       /\ map Ring.ring_id found = ["RING_001"; "RING_002"; "RING_003"]
       /\ Permutation (map Ring.member_accounts found)
            [["A"; "B"; "C"]; ["B"; "C"; "A"]; ["C"; "A"; "B"]]
       /\ map (hd "") (map Ring.member_accounts found) = keys graph
       /\ Forall (fun r => Ring.risk_score r = 93
                           /\ Ring.pattern_type r = "cycle") found.
Proof.
  split.
  - repeat split; try discriminate. apply Permutation_refl.
  - apply (triangle_yields_three_rings "A" "B" "C" ledger_triangle);
      try discriminate; try reflexivity.
Defined.

End EngineTheorems.

(* ------------------------------------------------------------------ *)
(** ** The engine as Node runs it: graph, counts, rings, report *)

Section EngineExtras.
Import JsObject JsObjectFacts.

(** X1. [buildGraph] throws exactly when some sender is named like a
    member of [Object.prototype].  Otherwise the own entry that the graph
    has for an account lists the receivers of the transactions it sent,
    in ledger order and with repeated transfers repeated; an account that
    sent nothing has no own entry; the keys of the graph are the senders,
    each once. *)
Theorem buildGraph_adjacency (txs : list Transaction) :
  match Js.buildGraph txs with
  | Js.Thrown =>
      exists tx, In tx txs /\ Js.inherited (sender_id tx) = true
  | Js.Returned (graph, _) =>
      plain_senders txs
      /\ (forall a,
             get graph a
             = match receivers_of a txs with
               | [] => None
               | receivers => Some receivers
               end)
      /\ NoDup (own_names graph)
      /\ forall a,
           In a (own_names graph)
           <-> exists tx, In tx txs /\ sender_id tx = a
  end.
Proof.
  destruct (plain_senders_split txs)
    as [Hs|(before & tx & after & -> & _ & Ht)].
  - rewrite (buildGraph_agree txs Hs). split; [exact Hs|].
    apply graph_entries_own.
  - assert (Hin : In tx (before ++ tx :: after))
      by (apply in_or_app; right; now left).
    rewrite buildGraph_thrown by eauto. eauto.
Qed.

(** X2. When [buildGraph] returns, its velocity map has the keys of the
    graph, in the same order, and the velocity of an account is the
    number that is the length of its adjacency entry. *)
Theorem velocity_is_out_degree
    (txs : list Transaction) (graph : Graph) (velocityMap : Js.CountMap)
    (Hbuilt : Js.buildGraph txs = Js.Returned (graph, velocityMap)) :
  own_names velocityMap = own_names graph
  /\ forall a,
       get velocityMap a
       = option_map
           (fun neighbors => Js.Num (Z.of_nat (Datatypes.length neighbors)))
           (get graph a).
Proof.
  destruct (buildGraph_returned txs graph velocityMap Hbuilt)
    as (_ & -> & ->).
  destruct (velocity_entries_own txs) as [Hn Hg]. split.
  - now rewrite own_names_numbers.
  - intros a. rewrite get_numbers, Hg.
    destruct (get (fst (buildGraph txs)) a); reflexivity.
Qed.

(** X3. On a ledger for which [buildGraph] returns and in which no
    receiver is named like a member of [Object.prototype], every
    transaction is counted once on each side: all the counts are numbers,
    the counts of FanIn add up to the number of transactions, and so do
    the counts of FanOut, the velocities, and the lengths of the
    adjacency entries of the graph. *)
Theorem counts_add_up
    (txs : list Transaction) (graph : Graph) (velocityMap : Js.CountMap)
    (Hbuilt : Js.buildGraph txs = Js.Returned (graph, velocityMap))
    (Hreceivers : plain_receivers txs) :
  let n := Z.of_nat (Datatypes.length txs) in
  total_count (fst (Js.detectFanPatterns txs)) = Some n
  /\ total_count (snd (Js.detectFanPatterns txs)) = Some n
  /\ total_count velocityMap = Some n
  /\ count_edges graph = n.
Proof.
  destruct (buildGraph_returned txs graph velocityMap Hbuilt)
    as (Hs & -> & ->).
  pose proof (count_sums_own txs) as H. cbv zeta in H |- *.
  destruct H as (H1 & H2 & H3 & H4).
  rewrite (fanIn_agree txs Hreceivers), (fanOut_agree txs Hs).
  rewrite !total_numbers, H1, H2, H3. auto.
Qed.

(** X4. On a ledger in which no receiver is named like a member of
    [Object.prototype], FanIn maps an account to the number of
    transactions that list it as receiver, and has no own entry for an
    account that received none; its keys are the receivers, each once. *)
Theorem fanIn_counts_received
    (txs : list Transaction) (Hreceivers : plain_receivers txs) :
  (forall a,
      get (fst (Js.detectFanPatterns txs)) a
      = if received_by a txs =? 0 then None
        else Some (Js.Num (received_by a txs)))
  /\ NoDup (own_names (fst (Js.detectFanPatterns txs)))
  /\ forall a,
       In a (own_names (fst (Js.detectFanPatterns txs)))
       <-> exists tx, In tx txs /\ receiver_id tx = a.
Proof.
  rewrite (fanIn_agree txs Hreceivers), own_names_numbers.
  destruct (fanIn_entries_own txs) as (Hg & Hnd & Hin).
  split; [|now split].
  intros a. rewrite get_numbers, Hg.
  destruct (received_by a txs =? 0); reflexivity.
Qed.

(** X5. On a graph in which no neighbour is named like a member of
    [Object.prototype], [detectCycles] returns, in whatever store, and
    its rings are exactly the closed chains of 3 to 7 different accounts
    of the graph: each member has an edge to the next one and the last
    has an edge to the first; and every such chain, whichever of its
    accounts it starts from, is the member list of a ring. *)
Theorem rings_are_the_simple_cycles
    (graph : Graph) (store : Js.Store) (Hsafe : safe_graph graph) :
  exists found store',
    Js.detectCycles store graph = Js.Returned (found, store')
    /\ forall p,
         In p (map Ring.member_accounts found) <-> simple_cycle graph p.
Proof.
  exists (detectCycles graph), (store ++ [frame_left graph]).
  split; [now apply detectCycles_safe|].
  intros p. rewrite detectCycles_members. apply simple_cycle_recorded.
Qed.

(** X6. With a ring, [detectCycles] also reports every rotation of its
    member list: whenever it returns, a cycle of k accounts is reported
    from each of its k accounts, at least once from each. *)
Theorem rings_closed_under_rotation
    (graph : Graph) (store store' : Js.Store) (found : list Ring.t)
    (pre post : list string)
    (Hfound : Js.detectCycles store graph = Js.Returned (found, store'))
    (Hring : In (pre ++ post) (map Ring.member_accounts found)) :
  In (post ++ pre) (map Ring.member_accounts found).
Proof.
  destruct (detectCycles_returned graph store found store' Hfound)
    as [-> _].
  rewrite detectCycles_members in *.
  apply simple_cycle_recorded, simple_cycle_rotations.
  now apply simple_cycle_recorded.
Qed.

(** X8. For every account, every list of rings and all maps whose
    entries are counts or the texts that [+ 1] makes of inherited
    members: the result of [calculateSuspicion] is null exactly when the
    account has none of the four signals (it is in no ring, and what the
    FanIn, FanOut and velocity maps give for it are not numbers that
    reach 5, 5 and 10).  A result has the points of its signals as score and their
    labels, in the order of the four checks, as patterns; so the score is
    the sum of the points of its patterns (50, 20, 20, 10) and is between
    10 and 100, there is at least one pattern and none twice,
    cycle_network is among the patterns exactly when the account is in a
    ring, and without it the ring id is N/A. *)
Theorem score_is_sum_of_patterns
    (account : string) (rings : list Ring.t)
    (fanIn fanOut velocityMap : Js.CountMap) :
  let cyc := in_a_ring account rings in
  let fin := Js.ge (Js.read fanIn account) 5 in
  let fout := Js.ge (Js.read fanOut account) 5 in
  let vel := Js.ge (Js.read velocityMap account) 10 in
  (Js.calculateSuspicion account rings fanIn fanOut velocityMap = None
   <-> cyc = false /\ fin = false /\ fout = false /\ vel = false)
  /\ match Js.calculateSuspicion account rings fanIn fanOut velocityMap with
     | None => cyc = false /\ fin = false /\ fout = false /\ vel = false
     | Some res =>
         Suspicion.suspicion_score res
           = points cyc 50 + points fin 20 + points fout 20 + points vel 10
         /\ Suspicion.detected_patterns res
            = label cyc "cycle_network" ++ label fin "high_fan_in"
              ++ label fout "high_fan_out" ++ label vel "high_velocity"
         /\ Suspicion.suspicion_score res
            = sum_points (Suspicion.detected_patterns res)
         /\ 10 <= Suspicion.suspicion_score res <= 100
         /\ Suspicion.detected_patterns res <> []
         /\ NoDup (Suspicion.detected_patterns res)
         /\ (In "cycle_network" (Suspicion.detected_patterns res)
             <-> cyc = true)
         /\ (cyc = false -> Suspicion.ring_id res = "N/A")
     end.
Proof.
  cbv zeta. rewrite (find_in_a_ring account rings).
  unfold Js.calculateSuspicion, Js.suspicion_signals, suspicion_result.
  cbv zeta.
  destruct (find _ rings) as [r|];
    destruct (Js.ge (Js.read fanIn account) 5);
    destruct (Js.ge (Js.read fanOut account) 5);
    destruct (Js.ge (Js.read velocityMap account) 10);
    cbn -[In];
    repeat split; try reflexivity; try lia; try discriminate;
    try (intros _; reflexivity); try (intros _; cbn; tauto);
    try (intros; exfalso; intuition discriminate);
    try (repeat constructor; cbn; intuition discriminate);
    try (cbn; intuition discriminate).
Qed.

(** X10. The engine throws exactly when some id of the ledger is named
    like a member of [Object.prototype].  When it returns, an account is
    among the suspicious accounts exactly when it is a member of a
    reported ring, or receives at least 5 transactions, or sends at
    least 5. *)
Theorem flagged_exactly_when_signalled
    (store : Js.Store) (startTime endTime : Z) (txs : list Transaction) :
  match Js.analyze store startTime endTime txs with
  | Js.Thrown => ~ plain_ledger txs
  | Js.Returned (report, _) =>
      plain_ledger txs
      /\ forall a,
           In a (map Flagged.account_id (suspicious_accounts report))
           <-> in_a_ring a (fraud_rings report) = true
               \/ 5 <= received_by a txs \/ 5 <= sent_by a txs
  end.
Proof.
  destruct (analyze_cases store startTime endTime txs) as [[Hp E]|[Hn E]];
    rewrite E; [|exact Hn].
  split; [exact Hp|]. intros a. apply flagged_iff.
Qed.

End EngineExtras.

(* ------------------------------------------------------------------ *)
(** ** The route [POST /analyze] *)

Section Route.
Import JsObject JsObjectFacts.

(** X20. A ledger round trip through the route: write a non-empty
    ledger whose ids are plain (not empty, no white space, comma or
    quote) and not named like a member of [Object.prototype] as a CSV
    file with the header sender_id,receiver_id and one row per
    transaction, with LF or CR LF line ends; if the file is smaller than
    the size limit of the upload, the route answers 200 with the report
    of exactly that ledger, in whatever store. *)
Theorem upload_of_csv_ledger
    (eol : string) (txs : list Transaction) (store : Js.Store)
    (startTime endTime : Z)
    (Heol : eol = LF \/ eol = CRLF)
    (Hne : txs <> [])
    (Hplain : Forall (fun tx => plain_field (sender_id tx)
                                /\ plain_field (receiver_id tx)) txs)
    (Hids : plain_ledger txs)
    (Hsize : Js.utf8_size (csv_of_ledger eol txs) < Js.fileSize_limit) :
  fst (Js.post_analyze store (Some (csv_of_ledger eol txs))
         startTime endTime)
  = Js.Answer200 (analyze startTime endTime txs).
Proof.
  destruct (csv_rows_facts txs Hplain) as (Hlf & Hkeep & Hrows).
  assert (Hlines : upload_lines (csv_of_ledger eol txs)
                   = "sender_id,receiver_id" :: map csv_row txs).
  { unfold csv_of_ledger. rewrite upload_lines_of_rows; auto.
    - cbn [map filter]. now rewrite Hkeep.
    - constructor; auto. cbn. intuition. }
  unfold Js.post_analyze. cbv zeta.
  destruct (Z.leb_spec Js.fileSize_limit
              (Js.utf8_size (csv_of_ledger eol txs))) as [Hbig|_]; [lia|].
  rewrite Hlines.
  destruct txs as [|tx txs]; [congruence|].
  cbn [map Datatypes.length Nat.ltb Nat.leb hd tl].
  change (parseCsvLine "sender_id,receiver_id")
    with ["sender_id"; "receiver_id"].
  change (map normalize_header ["sender_id"; "receiver_id"])
    with ["sender_id"; "receiver_id"].
  change (findIndex (includes senderCols) ["sender_id"; "receiver_id"])
    with (Some 0%nat).
  change (findIndex (includes receiverCols) ["sender_id"; "receiver_id"])
    with (Some 1%nat).
  change (csv_row tx :: map csv_row txs) with (map csv_row (tx :: txs)).
  cbv iota beta. rewrite Hrows.
  cbn [Datatypes.length Nat.eqb].
  now rewrite (analyze_plain store startTime endTime (tx :: txs) Hids).
Qed.


End Route.

(* ------------------------------------------------------------------ *)
(** ** Instances of the engine theorems *)

Section EngineInstances.
Import JsObject JsObjectFacts.

Lemma ledger_triangle_plain : plain_ledger ledger_triangle.
Proof. split; repeat constructor. Qed.

Lemma velocity_is_out_degree_witness :
  Js.buildGraph ledger_triangle
  = Js.Returned
      ([("A", ["B"]); ("B", ["C"]); ("C", ["A"])],
       [("A", Js.Num 1); ("B", Js.Num 1); ("C", Js.Num 1)])
  /\ own_names [("A", Js.Num 1); ("B", Js.Num 1); ("C", Js.Num 1)]
     = own_names [("A", ["B"]); ("B", ["C"]); ("C", ["A"])]
  /\ forall a,
       get [("A", Js.Num 1); ("B", Js.Num 1); ("C", Js.Num 1)] a
       = option_map
           (fun neighbors => Js.Num (Z.of_nat (Datatypes.length neighbors)))
           (get [("A", ["B"]); ("B", ["C"]); ("C", ["A"])] a).
Proof.
  assert (H : Js.buildGraph ledger_triangle
              = Js.Returned
                  ([("A", ["B"]); ("B", ["C"]); ("C", ["A"])],
                   [("A", Js.Num 1); ("B", Js.Num 1); ("C", Js.Num 1)]))
    by reflexivity.
  split; [exact H|].
  exact (velocity_is_out_degree ledger_triangle _ _ H).
Defined.

Lemma counts_add_up_witness :
  (Js.buildGraph ledger_triangle
   = Js.Returned
       ([("A", ["B"]); ("B", ["C"]); ("C", ["A"])],
        [("A", Js.Num 1); ("B", Js.Num 1); ("C", Js.Num 1)])
   /\ plain_receivers ledger_triangle)
  /\ total_count (fst (Js.detectFanPatterns ledger_triangle)) = Some 3
  /\ total_count (snd (Js.detectFanPatterns ledger_triangle)) = Some 3
  /\ total_count [("A", Js.Num 1); ("B", Js.Num 1); ("C", Js.Num 1)]
     = Some 3
  /\ count_edges [("A", ["B"]); ("B", ["C"]); ("C", ["A"])] = 3.
Proof.
  assert (H : Js.buildGraph ledger_triangle
              = Js.Returned
                  ([("A", ["B"]); ("B", ["C"]); ("C", ["A"])],
                   [("A", Js.Num 1); ("B", Js.Num 1); ("C", Js.Num 1)]))
    by reflexivity.
  assert (Hr : plain_receivers ledger_triangle)
    by (repeat constructor).
  split; [now split|].
  exact (counts_add_up ledger_triangle _ _ H Hr).
Defined.

Lemma fanIn_counts_received_witness :
  plain_receivers ledger_busy
  /\ (forall a,
         get (fst (Js.detectFanPatterns ledger_busy)) a
         = if received_by a ledger_busy =? 0 then None
           else Some (Js.Num (received_by a ledger_busy)))
  /\ NoDup (own_names (fst (Js.detectFanPatterns ledger_busy)))
  /\ forall a,
       In a (own_names (fst (Js.detectFanPatterns ledger_busy)))
       <-> exists tx, In tx ledger_busy /\ receiver_id tx = a.
Proof.
  assert (Hr : plain_receivers ledger_busy) by (repeat constructor).
  split; [exact Hr|].
  exact (fanIn_counts_received ledger_busy Hr).
Defined.

Lemma rings_are_the_simple_cycles_witness :
  safe_graph [("A", ["B"]); ("B", ["C"]); ("C", ["A"])]
  /\ exists found store',
       Js.detectCycles [] [("A", ["B"]); ("B", ["C"]); ("C", ["A"])]
       = Js.Returned (found, store')
       /\ forall p,
            In p (map Ring.member_accounts found)
            <-> simple_cycle [("A", ["B"]); ("B", ["C"]); ("C", ["A"])] p.
Proof.
  assert (Hsafe : safe_graph [("A", ["B"]); ("B", ["C"]); ("C", ["A"])]).
  { exact (safe_graph_ledger ledger_triangle
             (proj2 ledger_triangle_plain)). }
  split; [exact Hsafe|].
  exact (rings_are_the_simple_cycles _ [] Hsafe).
Defined.

Lemma rings_closed_under_rotation_witness :
  (Js.detectCycles [] [("A", ["B"]); ("B", ["C"]); ("C", ["A"])]
   = Js.Returned
       ([ring_of "RING_001" ["A"; "B"; "C"];
         ring_of "RING_002" ["B"; "C"; "A"];
         ring_of "RING_003" ["C"; "A"; "B"]],
        [frame_left [("A", ["B"]); ("B", ["C"]); ("C", ["A"])]])
   /\ In (["A"] ++ ["B"; "C"])
        (map Ring.member_accounts
           [ring_of "RING_001" ["A"; "B"; "C"];
            ring_of "RING_002" ["B"; "C"; "A"];
            ring_of "RING_003" ["C"; "A"; "B"]]))
  /\ In (["B"; "C"] ++ ["A"])
       (map Ring.member_accounts
          [ring_of "RING_001" ["A"; "B"; "C"];
           ring_of "RING_002" ["B"; "C"; "A"];
           ring_of "RING_003" ["C"; "A"; "B"]]).
Proof.
  assert (Hfound :
    Js.detectCycles [] [("A", ["B"]); ("B", ["C"]); ("C", ["A"])]
    = Js.Returned
        ([ring_of "RING_001" ["A"; "B"; "C"];
          ring_of "RING_002" ["B"; "C"; "A"];
          ring_of "RING_003" ["C"; "A"; "B"]],
         [frame_left [("A", ["B"]); ("B", ["C"]); ("C", ["A"])]]))
    by (vm_compute; reflexivity).
  assert (Hring : In (["A"] ++ ["B"; "C"])
                    (map Ring.member_accounts
                       [ring_of "RING_001" ["A"; "B"; "C"];
                        ring_of "RING_002" ["B"; "C"; "A"];
                        ring_of "RING_003" ["C"; "A"; "B"]]))
    by (cbn; auto).
  split; [now split|].
  exact (rings_closed_under_rotation _ _ _ _ ["A"] ["B"; "C"] Hfound Hring).
Defined.

Lemma upload_of_csv_ledger_witness :
  (CRLF = LF \/ CRLF = CRLF)
  /\ ledger_triangle <> []
  /\ Forall (fun tx => plain_field (sender_id tx)
                       /\ plain_field (receiver_id tx)) ledger_triangle
  /\ plain_ledger ledger_triangle
  /\ Js.utf8_size (csv_of_ledger CRLF ledger_triangle) < Js.fileSize_limit
  /\ fst (Js.post_analyze [] (Some (csv_of_ledger CRLF ledger_triangle))
            0 5)
     = Js.Answer200 (analyze 0 5 ledger_triangle).
Proof.
  assert (H1 : CRLF = LF \/ CRLF = CRLF) by now right.
  assert (H2 : ledger_triangle <> []) by discriminate.
  assert (H3 : Forall (fun tx => plain_field (sender_id tx)
                                 /\ plain_field (receiver_id tx))
                 ledger_triangle).
  { repeat constructor; try discriminate; cbn; intuition. }
  assert (H4 : plain_ledger ledger_triangle)
    by exact ledger_triangle_plain.
  assert (H5 : Js.utf8_size (csv_of_ledger CRLF ledger_triangle)
               < Js.fileSize_limit) by reflexivity.
  split; [exact H1|]. split; [exact H2|]. split; [exact H3|].
  split; [exact H4|]. split; [exact H5|].
  exact (upload_of_csv_ledger CRLF ledger_triangle [] 0 5 H1 H2 H3 H4 H5).
Defined.

(** The failing upload: a file whose one row names the account
    constructor is answered with 500. *)
Example upload_constructor :
  fst (Js.post_analyze []
         (Some ("sender_id,receiver_id" ++ LF ++ "constructor,B" ++ LF)%string)
         0 5)
  = Js.Answer500 (Some "Analysis failed. Check CSV format.").
Proof. vm_compute. reflexivity. Qed.

(** A receiver named like an inherited member: the graph is built and
    the search throws. *)
Example receiver_toString :
  Js.analyze [] 0 5 [mkTx "A" "toString"] = Js.Thrown.
Proof. vm_compute. reflexivity. Qed.

(** A run in a store whose last frame stands at counter 7 numbers its
    rings from 1 and leaves the frame untouched. *)
Example triangle_in_used_store :
  match Js.analyze [{| rings := []; ringCount := 7 |}] 0 5 ledger_triangle
  with
  | Js.Returned (report, store) =>
      map Ring.ring_id (fraud_rings report)
      = ["RING_001"; "RING_002"; "RING_003"]
      /\ map ringCount store = [7; 4]%nat
  | Js.Thrown => False
  end.
Proof. vm_compute. split; reflexivity. Qed.

End EngineInstances.
